(** * Trend-continuation strategy: a shallow embedding of
      [trading_system/core/strategy.py]

    The strategy computes with Python floats held in pandas Series.  The
    embedding keeps the shape of that code and idealises the arithmetic:

    - a float is an [fval]: an exact rational, one of the two infinities, or
      NaN (pandas' missing value).  Rounding and signed zeros are not
      modelled; division by zero, NaN propagation and NaN comparisons are.
    - a [Series] is a list of [fval] in index order; every Series of one
      computation comes from the same frame, so index alignment is
      positional.
    - a [DataFrame] is a list of bars together with the column labels that
      are present; reading an absent column raises [KeyError] as
      [df["..."]] does.  Cells of the input frame are finite numbers.
    - exceptions are values of [exn] carried by the [result] monad.
    - the strategy object is a record that is passed in and returned.
    - loggers and the performance timer have no effect on the values the
      strategy returns or stores, and the strategy's functions leave them
      out; the records they write are modelled on their own further down.
      The wall clock read by [datetime.now] is an argument. *)

From Stdlib Require Import QArith Qabs Qround Lqa ZArith Lia.
From stdpp Require Import gmap strings list fin_maps.

Local Open Scope Z_scope.

(** ** Floats *)

Inductive fval : Type :=
| NaN
| NInf
| PInf
| Fin (q : Q).

Module F.

Definition is_nan (x : fval) : bool :=
  match x with NaN => true | _ => false end.

Definition neg (x : fval) : fval :=
  match x with
  | NaN => NaN
  | NInf => PInf
  | PInf => NInf
  | Fin q => Fin (- q)
  end.

Definition add (x y : fval) : fval :=
  match x, y with
  | NaN, _ | _, NaN => NaN
  | PInf, NInf | NInf, PInf => NaN
  | PInf, _ | _, PInf => PInf
  | NInf, _ | _, NInf => NInf
  | Fin a, Fin b => Fin (a + b)
  end.

Definition sub (x y : fval) : fval := add x (neg y).

(** Sign of a rational as a comparison with zero. *)
Definition sgn (q : Q) : comparison := (q ?= 0)%Q.

Definition inf_of (pos : bool) : fval := if pos then PInf else NInf.

Definition mul_inf (pos : bool) (y : fval) : fval :=
  match y with
  | NaN => NaN
  | PInf => inf_of pos
  | NInf => inf_of (negb pos)
  | Fin b =>
      match sgn b with
      | Eq => NaN
      | Gt => inf_of pos
      | Lt => inf_of (negb pos)
      end
  end.

Definition mul (x y : fval) : fval :=
  match x, y with
  | NaN, _ | _, NaN => NaN
  | PInf, _ => mul_inf true y
  | NInf, _ => mul_inf false y
  | _, PInf => mul_inf true x
  | _, NInf => mul_inf false x
  | Fin a, Fin b => Fin (a * b)
  end.

Definition div (x y : fval) : fval :=
  match x, y with
  | NaN, _ | _, NaN => NaN
  | (PInf | NInf), (PInf | NInf) => NaN
  | PInf, Fin b => match sgn b with Lt => NInf | _ => PInf end
  | NInf, Fin b => match sgn b with Lt => PInf | _ => NInf end
  | Fin _, (PInf | NInf) => Fin 0
  | Fin a, Fin b =>
      match sgn b with
      | Eq => match sgn a with Eq => NaN | Gt => PInf | Lt => NInf end
      | _ => Fin (a / b)
      end
  end.

Definition abs (x : fval) : fval :=
  match x with
  | NaN => NaN
  | NInf | PInf => PInf
  | Fin q => Fin (Qabs q)
  end.

(** [x < y]; false as soon as one side is NaN. *)
Definition ltb (x y : fval) : bool :=
  match x, y with
  | NaN, _ | _, NaN => false
  | _, NInf => false
  | NInf, _ => true
  | PInf, _ => false
  | _, PInf => true
  | Fin a, Fin b => match (a ?= b)%Q with Lt => true | _ => false end
  end.

(** [x <= y]; false as soon as one side is NaN. *)
Definition leb (x y : fval) : bool :=
  match x, y with
  | NaN, _ | _, NaN => false
  | NInf, _ => true
  | _, PInf => true
  | _, NInf => false
  | PInf, _ => false
  | Fin a, Fin b => match (a ?= b)%Q with Gt => false | _ => true end
  end.

Definition gtb (x y : fval) : bool := ltb y x.
Definition geb (x y : fval) : bool := leb y x.

(** Python's builtin [min(x, y)]: [y] when [y < x], else [x]. *)
Definition py_min (x y : fval) : fval := if ltb y x then y else x.

End F.

(** ** Exceptions *)

Inductive exn : Type :=
| KeyError (key : string)
| ValueError (msg : string)
| IndexError (msg : string).

Inductive result (A : Type) : Type :=
| Ok (a : A)
| Raise (e : exn).

Arguments Ok {A} a.
Arguments Raise {A} e.

#[global] Instance result_ret : MRet result := fun A a => Ok a.

#[global] Instance result_bind : MBind result := fun A B k r =>
  match r with
  | Ok a => k a
  | Raise e => Raise e
  end.

(** [try: body except Exception as e: handler e]. *)
Definition try_except {A} (body : result A) (handler : exn -> result A) : result A :=
  match body with
  | Ok a => Ok a
  | Raise e => handler e
  end.

(** ** pandas Series *)

Abbreviation Series := (list fval).

Module Pd.

(** [s.shift(1)]: every value moves one row down, row 0 becomes NaN. *)
Definition shift1 (s : Series) : Series := take (length s) (NaN :: s).

(** Element-wise binary operation of two Series on the same index. *)
Definition sub (a b : Series) : Series := zip_with F.sub a b.
Definition add (a b : Series) : Series := zip_with F.add a b.
Definition div (a b : Series) : Series := zip_with F.div a b.
Definition lt (a b : Series) : list bool := zip_with F.ltb a b.

Definition abs (a : Series) : Series := F.abs <$> a.
Definition neg (a : Series) : Series := F.neg <$> a.
Definition mul_scalar (a : Series) (k : Q) : Series := (fun x => F.mul x (Fin k)) <$> a.
Definition lt_scalar (a : Series) (k : Q) : list bool := (fun x => F.ltb x (Fin k)) <$> a.

(** [s.diff()]. *)
Definition diff (s : Series) : Series := sub s (shift1 s).

(** [s[mask] = v]: boolean-mask assignment. *)
Definition mask_assign (s : Series) (mask : list bool) (v : fval) : Series :=
  zip_with (fun x (b : bool) => if b then v else x) s mask.

(** Maximum of two cells that skips NaN, as [max(axis=1)] does. *)
Definition nanmax (x y : fval) : fval :=
  match x, y with
  | NaN, _ => y
  | _, NaN => x
  | _, _ => if F.ltb x y then y else x
  end.

(** [pd.concat([a, b, c], axis=1).max(axis=1)]. *)
Definition row_max3 (a b c : Series) : Series :=
  zip_with nanmax (zip_with nanmax a b) c.

(** [s.fillna(v)]. *)
Definition fillna (s : Series) (v : Q) : Series :=
  (fun x => if F.is_nan x then Fin v else x) <$> s.

(** [s.iloc[-1]]. *)
Definition iloc_last (s : Series) : result fval :=
  match last s with
  | Some x => Ok x
  | None => Raise (IndexError "single positional indexer is out-of-bounds")
  end.

(** The finite values of a window, or [None] when one of them is missing.
    The rolling kernels read an infinity as a missing value. *)
Fixpoint finite_values (l : list fval) : option (list Q) :=
  match l with
  | [] => Some []
  | Fin q :: rest =>
      match finite_values rest with
      | Some qs => Some (q :: qs)
      | None => None
      end
  | _ :: _ => None
  end.

Definition Qsum (qs : list Q) : Q := foldr Qplus 0%Q qs.

(** Mean of one full window: NaN unless all [w] observations are there. *)
Definition window_mean (w : nat) (win : list fval) : fval :=
  match w, finite_values win with
  | O, _ => NaN
  | _, None => NaN
  | _, Some qs =>
      if (length qs =? w)%nat then Fin (Qsum qs / inject_Z (Z.of_nat w)) else NaN
  end.

(** The rows [i-w+1 .. i] of [s] (fewer when [i+1 < w]). *)
Definition window (w i : nat) (s : Series) : list fval :=
  drop (S i - w) (take (S i) s).

(** The rolling mean over windows of [w] rows. *)
Definition rolling_values (w : nat) (s : Series) : Series :=
(fun i => window_mean w (window w i s)) <$> seq 0 (length s).

(** [s.rolling(window=w).mean()], with [min_periods] left at [w]. *)
Definition rolling_mean (w : Z) (s : Series) : result Series :=
if w <? 0 then Raise (ValueError "window must be an integer 0 or greater")
else Ok (rolling_values (Z.to_nat w) s).

(** The loop of the exponentially weighted mean ([adjust=True],
    [ignore_na=False]): [weighted] is the running average, [old_wt] the
    total weight it carries, [f = 1 - alpha]. *)
Fixpoint ewm_loop (f : Q) (weighted : fval) (old_wt : Q) (s : Series) : Series :=
  match s with
  | [] => []
  | cur :: rest =>
      if F.is_nan weighted then
        cur :: ewm_loop f cur old_wt rest
      else if F.is_nan cur then
        weighted :: ewm_loop f weighted (old_wt * f) rest
      else
        let ow := (old_wt * f)%Q in
        let w := F.div (F.add (F.mul (Fin ow) weighted) cur) (Fin (ow + 1)) in
        w :: ewm_loop f w (ow + 1) rest
  end.

(** [1 - alpha] for [alpha = 2 / (span + 1)]. *)
Definition decay (span : Z) : Q := (1 - 2 / inject_Z (span + 1))%Q.

(** The exponentially weighted mean for [f = 1 - alpha]. *)
Definition ewm_values (f : Q) (s : Series) : Series :=
match s with
| [] => []
| x :: rest => x :: ewm_loop f x 1 rest
end.

(** [s.ewm(span=span).mean()]. *)
Definition ewm_mean (span : Z) (s : Series) : result Series :=
if span <? 1 then Raise (ValueError "span must satisfy: span >= 1")
else Ok (ewm_values (decay span) s).

End Pd.

(** ** Data frames *)

Record Bar : Type := mkBar {
  bar_high : Q;
  bar_low : Q;
  bar_close : Q;
}.

Record DataFrame : Type := mkDF {
  df_columns : list string;
  df_rows : list Bar;
}.

(** [len(df)]. *)
Definition df_len (df : DataFrame) : Z := Z.of_nat (length (df_rows df)).

Definition column_of (col : string) : option (Bar -> Q) :=
  if decide (col = "high") then Some bar_high
  else if decide (col = "low") then Some bar_low
  else if decide (col = "close") then Some bar_close
  else None.

(** [df[col]]. *)
Definition getitem (df : DataFrame) (col : string) : result Series :=
  if decide (col ∈ df_columns df) then
    match column_of col with
    | Some proj => Ok ((fun b => Fin (proj b)) <$> df_rows df)
    | None => Raise (KeyError col)
    end
  else Raise (KeyError col).

Definition ohlc : list string := ["open"; "high"; "low"; "close"; "volume"].

(** ** Strategy data *)

Inductive TrendDirection : Type := BULLISH | BEARISH | SIDEWAYS.

Inductive SessionType : Type := ASIAN | EUROPEAN | US | OVERLAP.

#[global] Instance TrendDirection_eq_dec : EqDecision TrendDirection.
Proof. solve_decision. Defined.

(** [TrendDirection.value]. *)
Definition trend_value (t : TrendDirection) : string :=
  match t with
  | BULLISH => "bullish"
  | BEARISH => "bearish"
  | SIDEWAYS => "sideways"
  end.

Record StrategyConfig : Type := mkConfig {
  name : string;
  d1_ema_fast : Z;
  d1_ema_slow : Z;
  h4_ema_fast : Z;
  h4_ema_slow : Z;
  adx_period : Z;
  adx_threshold : Q;
  atr_period : Z;
  atr_multiplier : Q;
}.

(** The [metadata] dictionary of a signal; its four keys are fixed. *)
Record Metadata : Type := mkMetadata {
  md_atr_value : fval;
  md_adx_strength : fval;
  md_trend_d1 : string;
  md_atr_multiplier : Q;
}.

Record SignalData : Type := mkSignal {
  symbol : string;
  signal_type : string;
  strength : fval;
  session : SessionType;
  timestamp : Z;
  price : Q;
  stop_loss : option fval;
  take_profit : option fval;
  risk_amount : option fval;
  metadata : option Metadata;
}.

Record TrendAnalysis : Type := mkAnalysis {
  d1_trend : TrendDirection;
  h4_trend : TrendDirection;
  adx_strength : fval;
  ema_fast : fval;
  ema_slow : fval;
  atr_value : fval;
  trend_confirmation : bool;
}.

(** The state of a [TrendContinuationStrategy] object. *)
Record Strategy : Type := mkStrategy {
  config : StrategyConfig;
  active_signals : gmap string SignalData;
  trend_cache : gmap string TrendAnalysis;
}.

(** [TrendContinuationStrategy.__init__]. *)
Definition init (cfg : StrategyConfig) : Strategy :=
  {| config := cfg; active_signals := ∅; trend_cache := ∅ |}.

(** ** Indicators *)

(** The crossover test shared by both classifiers. *)
Definition crossover (latest_fast latest_slow : fval) : TrendDirection :=
  if F.gtb latest_fast latest_slow then BULLISH
  else if F.ltb latest_fast latest_slow then BEARISH
  else SIDEWAYS.

Definition _compute_trend_d1 (cfg : StrategyConfig) (df_d1 : DataFrame)
  : result TrendDirection :=
  if df_len df_d1 <? Z.max (d1_ema_fast cfg) (d1_ema_slow cfg) then Ok SIDEWAYS
  else
    close ← getitem df_d1 "close";
    ema_fast ← Pd.ewm_mean (d1_ema_fast cfg) close;
    close' ← getitem df_d1 "close";
    ema_slow ← Pd.ewm_mean (d1_ema_slow cfg) close';
    latest_fast ← Pd.iloc_last ema_fast;
    latest_slow ← Pd.iloc_last ema_slow;
    Ok (crossover latest_fast latest_slow).

(** The true range, computed the same way by both [_calculate_adx] and
    [_calculate_atr]. *)
Definition true_range (high low close : Series) : Series :=
  let tr1 := Pd.sub high low in
  let tr2 := Pd.abs (Pd.sub high (Pd.shift1 close)) in
  let tr3 := Pd.abs (Pd.sub low (Pd.shift1 close)) in
  Pd.row_max3 tr1 tr2 tr3.

(** The four mask assignments on the directional movement; each one
    updates its Series in place, so the third reads the updated [dm_plus]. *)
Definition dm_zeroing (dm_plus dm_minus : Series) : Series * Series :=
  let dm_plus := Pd.mask_assign dm_plus (Pd.lt dm_plus dm_minus) (Fin 0) in
  let dm_plus := Pd.mask_assign dm_plus (Pd.lt_scalar dm_plus 0) (Fin 0) in
  let dm_minus := Pd.mask_assign dm_minus (Pd.lt dm_minus dm_plus) (Fin 0) in
  let dm_minus := Pd.mask_assign dm_minus (Pd.lt_scalar dm_minus 0) (Fin 0) in
  (dm_plus, dm_minus).

(** [dm_plus] and [dm_minus] after the zeroing step. *)
Definition directional_movement (high low : Series) : Series * Series :=
  let dm_plus := Pd.diff high in
  let dm_minus := Pd.neg (Pd.diff low) in
  dm_zeroing dm_plus dm_minus.

(** [dx] from the three smoothed Series. *)
Definition dx_of (sm_plus sm_minus atr : Series) : Series :=
  let di_plus := Pd.mul_scalar (Pd.div sm_plus atr) 100 in
  let di_minus := Pd.mul_scalar (Pd.div sm_minus atr) 100 in
  Pd.mul_scalar (Pd.div (Pd.abs (Pd.sub di_plus di_minus)) (Pd.add di_plus di_minus)) 100.

Definition _calculate_adx (df : DataFrame) (period : Z) : result Series :=
  high ← getitem df "high";
  low ← getitem df "low";
  close ← getitem df "close";
  let tr := true_range high low close in
  let '(dm_plus, dm_minus) := directional_movement high low in
  atr ← Pd.rolling_mean period tr;
  sm_plus ← Pd.rolling_mean period dm_plus;
  sm_minus ← Pd.rolling_mean period dm_minus;
  let dx := dx_of sm_plus sm_minus atr in
  adx ← Pd.rolling_mean period dx;
  Ok (Pd.fillna adx 0).

Definition _calculate_atr (df : DataFrame) (period : Z) : result Series :=
  high ← getitem df "high";
  low ← getitem df "low";
  close ← getitem df "close";
  let tr := true_range high low close in
  atr ← Pd.ewm_mean period tr;
  Ok (Pd.fillna atr 0).

Definition _compute_trend_h4 (cfg : StrategyConfig) (df_h4 : DataFrame)
  : result (TrendDirection * fval * fval * fval * fval) :=
  if df_len df_h4 <? Z.max (Z.max (h4_ema_fast cfg) (h4_ema_slow cfg)) (adx_period cfg)
  then Ok (SIDEWAYS, Fin 0, Fin 0, Fin 0, Fin 0)
  else
    close ← getitem df_h4 "close";
    ema_fast ← Pd.ewm_mean (h4_ema_fast cfg) close;
    close' ← getitem df_h4 "close";
    ema_slow ← Pd.ewm_mean (h4_ema_slow cfg) close';
    adx_value ← _calculate_adx df_h4 (adx_period cfg);
    atr_value ← _calculate_atr df_h4 (atr_period cfg);
    latest_fast ← Pd.iloc_last ema_fast;
    latest_slow ← Pd.iloc_last ema_slow;
    latest_adx ← (if (0 <? length adx_value)%nat then Pd.iloc_last adx_value else Ok (Fin 0));
    latest_atr ← (if (0 <? length atr_value)%nat then Pd.iloc_last atr_value else Ok (Fin 0));
    Ok (crossover latest_fast latest_slow, latest_adx, latest_fast, latest_slow, latest_atr).

Definition _is_trend_confirmed (cfg : StrategyConfig)
    (d1_trend h4_trend : TrendDirection) (adx_strength : fval) : bool :=
  let trends_align :=
    bool_decide (d1_trend = h4_trend) && bool_decide (d1_trend ≠ SIDEWAYS) in
  let adx_confirms := F.geb adx_strength (Fin (adx_threshold cfg)) in
  trends_align && adx_confirms.

(** ** Orchestration *)

(** The body of the [try] block of [analyze_trend]. *)
Definition analyze_trend_body (cfg : StrategyConfig) (df_d1 df_h4 : DataFrame)
  : result TrendAnalysis :=
  d1 ← _compute_trend_d1 cfg df_d1;
  '(h4, adx, fast, slow, atr) ← _compute_trend_h4 cfg df_h4;
  let confirmation := _is_trend_confirmed cfg d1 h4 adx in
  Ok {| d1_trend := d1; h4_trend := h4; adx_strength := adx;
        ema_fast := fast; ema_slow := slow; atr_value := atr;
        trend_confirmation := confirmation |}.

(** [analyze_trend]: the handler logs and re-raises. *)
Definition analyze_trend (cfg : StrategyConfig) (df_d1 df_h4 : DataFrame)
  : result TrendAnalysis :=
  try_except (analyze_trend_body cfg df_d1 df_h4) (fun e => Raise e).

Definition _create_signal (cfg : StrategyConfig) (now : Z) (sym : string)
    (trend : TrendDirection) (sess : SessionType) (current_price : Q)
    (atr_value adx_strength : fval) : SignalData :=
  let signal_type := if decide (trend = BULLISH) then "buy" else "sell" in
  let strength := F.py_min (F.div adx_strength (Fin 50)) (Fin 1) in
  let atr_multiplier := atr_multiplier cfg in
  let '(stop_loss, take_profit) :=
    if decide (trend = BULLISH) then
      (F.sub (Fin current_price) (F.mul atr_value (Fin atr_multiplier)),
       F.add (Fin current_price)
             (F.mul (F.mul atr_value (Fin atr_multiplier)) (Fin 2)))
    else
      (F.add (Fin current_price) (F.mul atr_value (Fin atr_multiplier)),
       F.sub (Fin current_price)
             (F.mul (F.mul atr_value (Fin atr_multiplier)) (Fin 2))) in
  {| symbol := sym; signal_type := signal_type; strength := strength;
     session := sess; timestamp := now; price := current_price;
     stop_loss := Some stop_loss; take_profit := Some take_profit;
     risk_amount := None;
     metadata := Some {| md_atr_value := atr_value;
                         md_adx_strength := adx_strength;
                         md_trend_d1 := trend_value trend;
                         md_atr_multiplier := atr_multiplier |} |}.

(** [generate_signal]: the returned pair is the value handed to the caller
    and the strategy object afterwards. *)
Definition generate_signal (st : Strategy) (now : Z) (sym : string)
    (df_d1 df_h4 : DataFrame) (current_session : SessionType) (current_price : Q)
  : option SignalData * Strategy :=
  match analyze_trend (config st) df_d1 df_h4 with
  | Ok analysis =>
      let st' := {| config := config st;
                    active_signals := active_signals st;
                    trend_cache := <[sym := analysis]> (trend_cache st) |} in
      let signal :=
        if trend_confirmation analysis then
          Some (_create_signal (config st) now sym (d1_trend analysis)
                  current_session current_price
                  (atr_value analysis) (adx_strength analysis))
        else None in
      (signal, st')
  | Raise _ => (None, st)
  end.

Record Status : Type := mkStatus {
  status_name : string;
  status_active_signals : nat;
  status_cached_analysis : nat;
  status_config : StrategyConfig;
  status_timestamp : Z;
}.

Definition get_strategy_status (st : Strategy) (now : Z) : Status :=
  {| status_name := name (config st);
     status_active_signals := size (active_signals st);
     status_cached_analysis := size (trend_cache st);
     status_config := config st;
     status_timestamp := now |}.

(** ** Call sequences on a strategy object *)

Inductive Call : Type :=
| CallAnalyze (df_d1 df_h4 : DataFrame)
| CallGenerate (now : Z) (sym : string) (df_d1 df_h4 : DataFrame)
    (current_session : SessionType) (current_price : Q)
| CallStatus (now : Z).

(** The strategy object after one public call. *)
Definition step (st : Strategy) (c : Call) : Strategy :=
  match c with
  | CallAnalyze _ _ => st
  | CallGenerate now sym df_d1 df_h4 sess p =>
      snd (generate_signal st now sym df_d1 df_h4 sess p)
  | CallStatus _ => st
  end.

Definition run (st : Strategy) (calls : list Call) : Strategy := foldl step st calls.

(** ** Reading of the comparisons *)

(** [adx >= t] for a threshold [t]: NaN is never above a threshold. *)
Definition meets_threshold (adx : fval) (t : Q) : Prop :=
  match adx with
  | Fin a => (t <= a)%Q
  | PInf => True
  | NaN | NInf => False
  end.

(** A float that is a number and not below zero. *)
Definition nonneg (x : fval) : Prop :=
  match x with
  | Fin q => (0 <= q)%Q
  | PInf => True
  | NaN | NInf => False
  end.

Definition is_zero (x : fval) : Prop :=
  match x with
  | Fin q => (q == 0)%Q
  | _ => False
  end.

(** One cell of [dm_plus] after its two mask assignments, from the raw
    cells [x] of [dm_plus] and [y] of [dm_minus]. *)
Definition zeroed_plus (x y : fval) : fval :=
  let x := if F.ltb x y then Fin 0 else x in
  if F.ltb x (Fin 0) then Fin 0 else x.

(** One cell of [dm_minus] after its two mask assignments; the first one
    compares with the cell of [dm_plus] that is already zeroed. *)
Definition zeroed_minus (x y : fval) : fval :=
  let y := if F.ltb y (zeroed_plus x y) then Fin 0 else y in
  if F.ltb y (Fin 0) then Fin 0 else y.

(** ** Sample inputs *)

Definition bar (h l c : Z) : Bar :=
  {| bar_high := inject_Z h; bar_low := inject_Z l; bar_close := inject_Z c |}.

(** Short periods, so that a handful of bars is enough history. *)
Definition short_config : StrategyConfig :=
  {| name := "short"; d1_ema_fast := 1; d1_ema_slow := 2;
     h4_ema_fast := 1; h4_ema_slow := 2; adx_period := 2;
     adx_threshold := 25; atr_period := 1; atr_multiplier := 2 |}.

(** Three rising daily bars. *)
Definition rising_d1 : DataFrame :=
  {| df_columns := ohlc; df_rows := [bar 1 1 1; bar 2 2 2; bar 3 3 3] |}.

(** The same bars in a frame that has lost its close column. *)
Definition no_close_d1 : DataFrame :=
  {| df_columns := ["open"; "high"; "low"; "volume"];
     df_rows := [bar 1 1 1; bar 2 2 2; bar 3 3 3] |}.

(** Two rising bars and a last bar that does not move at all. *)
Definition stalled_h4 : DataFrame :=
  {| df_columns := ohlc;
     df_rows := [bar 10 9 10; bar 12 10 12; bar 14 12 14; bar 14 14 14] |}.


(** The short configuration with the two daily periods exchanged. *)
Definition swapped_config : StrategyConfig :=
  {| name := "swapped"; d1_ema_fast := 2; d1_ema_slow := 1;
     h4_ema_fast := 1; h4_ema_slow := 2; adx_period := 2;
     adx_threshold := 25; atr_period := 1; atr_multiplier := 2 |}.

(** ** The moving average in closed form *)

(** Weighted sum of the observations, newest first: the observation [k]
    steps back carries the weight [r ^ k]. *)
Fixpoint weighted_sum (r : Q) (newest_first : list Q) : Q :=
  match newest_first with
  | [] => 0
  | x :: older => x + r * weighted_sum r older
  end.

(** [1 + r + ... + r ^ (n - 1)], the total weight of [n] observations. *)
Fixpoint weight_total (r : Q) (n : nat) : Q :=
  match n with
  | O => 0
  | S k => 1 + r * weight_total r k
  end.

(** The exponentially weighted moving average with smoothing span [span],
    at the latest observation of [xs]. *)
Definition ewma_latest (span : Z) (xs : list Q) : Q :=
  (weighted_sum (Pd.decay span) (rev xs) / weight_total (Pd.decay span) (length xs))%Q.

(** A direction [t] that follows the crossover of two averages. *)
Definition classified (t : TrendDirection) (fast slow : Q) : Prop :=
  ((slow < fast)%Q -> t = BULLISH) /\
  ((fast < slow)%Q -> t = BEARISH) /\
  ((fast == slow)%Q -> t = SIDEWAYS).

(** The three columns the indicators read. *)
Definition closes (df : DataFrame) : list Q := bar_close <$> df_rows df.
Definition highs (df : DataFrame) : list Q := bar_high <$> df_rows df.
Definition lows (df : DataFrame) : list Q := bar_low <$> df_rows df.

(** The running pair [(weighted, old_wt)] of [Pd.ewm_loop] on a Series
    without missing values, after the rows [xs]. *)
Fixpoint ema_state (f : Q) (w ow : Q) (xs : list Q) : Q * Q :=
  match xs with
  | [] => (w, ow)
  | x :: rest =>
      let ow := (ow * f)%Q in
      ema_state f ((ow * w + x) / (ow + 1))%Q (ow + 1)%Q rest
  end.

(** Each value is above (below) the one before it. *)
Fixpoint increasing (xs : list Q) : Prop :=
  match xs with
  | x :: (y :: _) as rest => (x < y)%Q /\ increasing rest
  | _ => True
  end.

Fixpoint decreasing (xs : list Q) : Prop :=
  match xs with
  | x :: (y :: _) as rest => (y < x)%Q /\ decreasing rest
  | _ => True
  end.

(** Four bars that rise to the end. *)
Definition rising_h4 : DataFrame :=
  {| df_columns := ohlc;
     df_rows := [bar 10 9 10; bar 12 10 12; bar 14 12 14; bar 16 14 16] |}.

(** Three falling daily bars. *)
Definition falling_d1 : DataFrame :=
  {| df_columns := ohlc; df_rows := [bar 3 3 3; bar 2 2 2; bar 1 1 1] |}.

(** The repository's test configuration. *)
Definition test_config : StrategyConfig :=
  {| name := "TestStrategy"; d1_ema_fast := 50; d1_ema_slow := 200;
     h4_ema_fast := 20; h4_ema_slow := 50; adx_period := 14;
     adx_threshold := 25; atr_period := 14; atr_multiplier := 2 |}.

(** ** Ranges of Series cells *)

(** The cell is missing, or a number that is at least [lo]. *)
Definition at_least (lo : Q) (x : fval) : Prop :=
  match x with
  | NaN => True
  | Fin q => (lo <= q)%Q
  | NInf | PInf => False
  end.

(** The cell is missing, or a number that is at most [hi]. *)
Definition at_most (hi : Q) (x : fval) : Prop :=
  match x with
  | NaN => True
  | Fin q => (q <= hi)%Q
  | NInf | PInf => False
  end.

(** The cell is missing or a number: no infinity. *)
Definition no_infinity (x : fval) : Prop :=
  match x with
  | NaN | Fin _ => True
  | NInf | PInf => False
  end.

(** A bar whose low is not above its high. *)
Definition valid_bar (b : Bar) : Prop := (bar_low b <= bar_high b)%Q.

(** One cell of [dx], from the cells of the three smoothed Series. *)
Definition dx_cell (sm_plus sm_minus atr : fval) : fval :=
  let di_plus := F.mul (F.div sm_plus atr) (Fin 100) in
  let di_minus := F.mul (F.div sm_minus atr) (Fin 100) in
  F.mul (F.div (F.abs (F.sub di_plus di_minus)) (F.add di_plus di_minus)) (Fin 100).

(** ** Exact values of the indicators *)

(** The larger of two rationals, chosen the way [Pd.nanmax] chooses. *)
Definition qmax (a b : Q) : Q :=
  match (a ?= b)%Q with
  | Lt => b
  | _ => a
  end.

(** The true ranges of the rows that follow a bar that closed at
    [prev_close]. *)
Fixpoint tr_from (prev_close : Q) (rows : list Bar) : list Q :=
  match rows with
  | [] => []
  | b :: rest =>
      qmax (qmax (bar_high b + - bar_low b) (Qabs (bar_high b + - prev_close)))
           (Qabs (bar_low b + - prev_close))
        :: tr_from (bar_close b) rest
  end.

(** The true range of every row: the first row has no previous close. *)
Definition tr_values (rows : list Bar) : list Q :=
  match rows with
  | [] => []
  | b :: rest => (bar_high b + - bar_low b)%Q :: tr_from (bar_close b) rest
  end.

(** Every value [Pd.ewm_loop] emits on a Series without missing values. *)
Fixpoint ema_trace (f : Q) (w ow : Q) (xs : list Q) : list Q :=
  match xs with
  | [] => []
  | x :: rest =>
      let ow := (ow * f)%Q in
      let w := ((ow * w + x) / (ow + 1))%Q in
      w :: ema_trace f w (ow + 1)%Q rest
  end.

Definition ema_values (f : Q) (xs : list Q) : list Q :=
  match xs with
  | [] => []
  | x :: rest => x :: ema_trace f x 1 rest
  end.

(** A bar whose close lies between its low and its high. *)
Definition valid_ohlc (b : Bar) : Prop :=
  (bar_low b <= bar_close b)%Q /\ (bar_close b <= bar_high b)%Q.

(** The symbols whose analysis succeeded in a sequence of calls. *)
Fixpoint cached_symbols (cfg : StrategyConfig) (calls : list Call) : gset string :=
  match calls with
  | [] => ∅
  | CallGenerate _ sym df_d1 df_h4 _ _ :: rest =>
      match analyze_trend cfg df_d1 df_h4 with
      | Ok _ => {[sym]} ∪ cached_symbols cfg rest
      | Raise _ => cached_symbols cfg rest
      end
  | _ :: rest => cached_symbols cfg rest
  end.

(** The number of [generate_signal] calls in a sequence. *)
Fixpoint generate_calls (calls : list Call) : nat :=
  match calls with
  | [] => 0
  | CallGenerate _ _ _ _ _ _ :: rest => S (generate_calls rest)
  | _ :: rest => generate_calls rest
  end.

(** The analysis both classifiers fall back to without enough history. *)
Definition neutral_analysis : TrendAnalysis :=
  {| d1_trend := SIDEWAYS; h4_trend := SIDEWAYS; adx_strength := Fin 0;
     ema_fast := Fin 0; ema_slow := Fin 0; atr_value := Fin 0;
     trend_confirmation := false |}.

(** A frame with no rows and no columns. *)
Definition empty_frame : DataFrame := {| df_columns := []; df_rows := [] |}.

(** The short configuration with an ATR span of 2. *)
Definition two_span_config : StrategyConfig :=
  {| name := "two-span"; d1_ema_fast := 1; d1_ema_slow := 2;
     h4_ema_fast := 1; h4_ema_slow := 2; adx_period := 2;
     adx_threshold := 25; atr_period := 2; atr_multiplier := 2 |}.

(** ** Structured logging ([utils/logger.py])

    What the repository's loggers hand to structlog: the level, the message
    and the keyword dictionary.  What structlog does with a record
    (filtering by level, rendering, writing) is outside the repository.
    [os.getenv("ENVIRONMENT")] is the argument [env]. *)

Module Log.

Inductive value : Type :=
| VStr (s : string)
| VFloat (x : fval)
| VBool (b : bool)
| VNone.

Inductive level : Type := Debug | Info | Warning | Error | Critical | Exception.

(** One call on the structlog logger. *)
Record record : Type := mkRecord {
  rec_logger : string;
  rec_level : level;
  rec_message : string;
  rec_fields : gmap string value;
}.

(** A [TradingLogger]: the name its structlog logger was asked for, the
    context that structlog logger is bound to, and its own context. *)
Record TradingLogger : Type := mkLogger {
  logger_name : string;
  structlog_context : gmap string value;
  context : gmap string value;
}.

(** The three keys [__init__] writes into every context. *)
Definition default_context (env : option string) : gmap string value :=
  <["service" := VStr "trading-system"]>
    (<["environment" := VStr (default "development" env)]>
       (<["version" := VStr "1.0.0"]> ∅)).

(** [TradingLogger.__init__]: [context or {}], then [update] with the
    defaults, which overwrite what the caller supplied. *)
Definition new (env : option string) (name : string)
    (ctx : option (gmap string value)) : TradingLogger :=
  {| logger_name := name;
     structlog_context := ∅;
     context := default_context env ∪ default ∅ ctx |}.

(** [self.logger._context.get("logger", "trading")]. *)
Definition bound_name (lg : TradingLogger) : string :=
  match structlog_context lg !! "logger" with
  | Some (VStr s) => s
  | _ => "trading"
  end.

(** [with_context]: a new logger; its keyword arguments overwrite the old
    context, and [__init__] runs again on the merged dictionary.  This is
    the body of the method: a keyword called [self] is bound to the
    parameter of that name, and the call raises [TypeError] before the
    body runs. *)
Definition with_context (env : option string) (lg : TradingLogger)
    (kwargs : gmap string value) : TradingLogger :=
  new env (bound_name lg) (Some (kwargs ∪ context lg)).

(** [debug], [info], ..., [exception]: the call made on structlog, with
    [{**self.context, **kwargs}] as keywords.  This is the body of the
    method, reached when no keyword is called [self] or [message]. *)
Definition log (lvl : level) (lg : TradingLogger) (message : string)
    (kwargs : gmap string value) : record :=
  {| rec_logger := logger_name lg; rec_level := lvl; rec_message := message;
     rec_fields := kwargs ∪ context lg |}.

(** [get_logger]. *)
Definition get_logger (env : option string) (name : string)
    (ctx : option (gmap string value)) : TradingLogger := new env name ctx.

(** [PerformanceLogger.__init__] after [get_performance_logger]: the
    logger it keeps. *)
Definition get_performance_logger (env : option string) (name : string) : TradingLogger :=
  with_context env (get_logger env name None) {["component" := VStr "performance"]}.

(** [get_audit_logger]: the logger an [AuditLogger] keeps. *)
Definition get_audit_logger (env : option string) (name : string) : TradingLogger :=
  with_context env (get_logger env name None) {["component" := VStr "audit"]}.

(** [PerformanceLogger.log_signal_generation] without extra keywords. *)
Definition log_signal_generation (perf : TradingLogger) (sym signal_type : string)
    (strength generation_time : fval) : record :=
  log Info perf ("Signal generated: " ++ signal_type ++ " for " ++ sym)
    (<["symbol" := VStr sym]>
       (<["signal_type" := VStr signal_type]>
          (<["signal_strength" := VFloat strength]>
             (<["generation_time_ms" := VFloat (F.mul generation_time (Fin 1000))]> ∅)))).

(** [PerformanceLogger.log_execution_time] without extra keywords. *)
Definition log_execution_time (perf : TradingLogger) (operation : string)
    (duration : fval) : record :=
  log Info perf ("Operation completed: " ++ operation)
    (<["operation" := VStr operation]>
       (<["duration_seconds" := VFloat duration]>
          (<["duration_ms" := VFloat (F.mul duration (Fin 1000))]> ∅))).

End Log.

(** ** What the strategy logs *)

(** [SessionType.value]. *)
Definition session_value (s : SessionType) : string :=
  match s with
  | ASIAN => "asian"
  | EUROPEAN => "european"
  | US => "us"
  | OVERLAP => "overlap"
  end.

(** [str(e)]: a [KeyError] prints its key quoted. *)
Definition exn_str (e : exn) : string :=
  match e with
  | KeyError key => "'" ++ key ++ "'"
  | ValueError msg => msg
  | IndexError msg => msg
  end.

(** [self.logger] and [self.perf_logger] as [__init__] creates them. *)
Definition strategy_logger (env : option string) : Log.TradingLogger :=
  Log.get_logger env "strategy" (Some {["component" := Log.VStr "trend_continuation"]}).

Definition strategy_perf_logger (env : option string) : Log.TradingLogger :=
  Log.get_performance_logger env "strategy_performance".

(** The record [analyze_trend] writes: the debug record of a finished
    analysis, or the exception record before it re-raises. *)
Definition analyze_trend_log (cfg : StrategyConfig) (env : option string)
    (df_d1 df_h4 : DataFrame) : list Log.record :=
  match analyze_trend_body cfg df_d1 df_h4 with
  | Ok an =>
      [Log.log Log.Debug (strategy_logger env) "Trend analysis completed"
         (<["d1_trend" := Log.VStr (trend_value (d1_trend an))]>
            (<["h4_trend" := Log.VStr (trend_value (h4_trend an))]>
               (<["adx_strength" := Log.VFloat (adx_strength an)]>
                  (<["trend_confirmation" := Log.VBool (trend_confirmation an)]> ∅))))]
  | Raise e =>
      [Log.log Log.Exception (strategy_logger env) "Error in trend analysis"
         (<["error" := Log.VStr (exn_str e)]> ∅)]
  end.

(** The record [_create_signal] writes for the signal it built. *)
Definition create_signal_log (env : option string) (sig : SignalData) : Log.record :=
  Log.log Log.Info (strategy_logger env)
    ("Signal generated: " ++ signal_type sig ++ " " ++ symbol sig)
    (<["symbol" := Log.VStr (symbol sig)]>
       (<["signal_type" := Log.VStr (signal_type sig)]>
          (<["strength" := Log.VFloat (strength sig)]>
             (<["session" := Log.VStr (session_value (session sig))]>
                (<["price" := Log.VFloat (Fin (price sig))]>
                   (<["stop_loss" := from_option Log.VFloat Log.VNone (stop_loss sig)]>
                      (<["take_profit" := from_option Log.VFloat Log.VNone (take_profit sig)]>
                         ∅))))))).

(** Every record one [generate_signal] call writes, in order; [duration] is
    the number of seconds the two clock readings are apart. *)
Definition generate_signal_log (st : Strategy) (env : option string) (now : Z)
    (duration : Q) (sym : string) (df_d1 df_h4 : DataFrame)
    (current_session : SessionType) (current_price : Q) : list Log.record :=
  analyze_trend_log (config st) env df_d1 df_h4 ++
  match analyze_trend (config st) df_d1 df_h4 with
  | Ok _ =>
      match fst (generate_signal st now sym df_d1 df_h4 current_session current_price) with
      | Some sig =>
          [create_signal_log env sig;
           Log.log_signal_generation (strategy_perf_logger env) sym (signal_type sig)
             (strength sig) (Fin duration)]
      | None =>
          [Log.log_signal_generation (strategy_perf_logger env) sym "hold" (Fin 0)
             (Fin duration)]
      end
  | Raise e =>
      [Log.log Log.Exception (strategy_logger env) "Error generating signal"
         (<["symbol" := Log.VStr sym]>
            (<["session" := Log.VStr (session_value current_session)]>
               (<["error" := Log.VStr (exn_str e)]> ∅)))]
  end.

(** The context keys a record shows when its call did not set them. *)
Definition carries_context (env : option string) (component : string)
    (r : Log.record) : Prop :=
  Log.rec_fields r !! "service" = Some (Log.VStr "trading-system") /\
  Log.rec_fields r !! "environment" = Some (Log.VStr (default "development" env)) /\
  Log.rec_fields r !! "version" = Some (Log.VStr "1.0.0") /\
  Log.rec_fields r !! "component" = Some (Log.VStr component).

(** ** Configuration ([utils/config.py]) *)

(** [ConfigManager] keeps the loaded YAML document in [_config_data] and
    merges environment variables into it.  The document is a mapping with
    string keys whose sections are separate dictionaries (no YAML alias
    makes two sections one object); [os.environ] is the map [env], so that
    [os.getenv(k)] is [env !! k].  Strings are byte strings, as elsewhere.
    [Obj], further down, keeps the dictionaries in a store and drops both
    assumptions: the document may be any value, and two keys may hold one
    dictionary. *)

Module Cfg.

#[warnings="-register-all"] Inductive value : Type :=
| VNone
| VBool (b : bool)
| VInt (n : Z)
| VFloat (x : Q)
| VStr (s : string)
| VList (l : list value)
| VDict (d : gmap string value).

Abbreviation environ := (gmap string string).
Abbreviation dict := (gmap string value).

(** [if os.getenv(k):] holds when the variable is set and not empty. *)
Definition truthy (v : option string) : bool :=
  match v with
  | Some s => negb (bool_decide (s = EmptyString))
  | None => false
  end.

(** The byte of the comma. *)
Definition comma : Ascii.ascii := Ascii.ascii_of_nat 44.

(** [s.split(",")]. *)
Fixpoint split_comma (s : string) : list string :=
  match s with
  | EmptyString => [EmptyString]
  | String c rest =>
      if Ascii.eqb c comma then EmptyString :: split_comma rest
      else match split_comma rest with
           | w :: ws => String c w :: ws
           | [] => [String c EmptyString]
           end
  end.

(** [",".join(l)], to say what [split_comma] returns. *)
Fixpoint join_comma (l : list string) : string :=
  match l with
  | [] => EmptyString
  | [w] => w
  | w :: ws => (w ++ String comma (join_comma ws))%string
  end.

(** [s.lower()] on the bytes of an ASCII string.  Compared with "true" it
    agrees with Python on every string: no character outside ASCII has t,
    r, u or e alone as its lower case. *)
Definition lower_ascii (c : Ascii.ascii) : Ascii.ascii :=
  let n := Ascii.nat_of_ascii c in
  if ((65 <=? n)%nat && (n <=? 90)%nat)%bool then Ascii.ascii_of_nat (n + 32) else c.

Fixpoint lower (s : string) : string :=
  match s with
  | EmptyString => EmptyString
  | String c rest => String (lower_ascii c) (lower rest)
  end.

(** [_merge_env_vars] returns, or raises [TypeError] part of the way; the
    dictionary is carried as the statement that raised left it. *)
Inductive outcome : Type :=
| Done (data : dict)
| TypeError (data : dict).

Definition and_then (o : outcome) (k : dict -> outcome) : outcome :=
  match o with
  | Done data => k data
  | TypeError data => TypeError data
  end.

(** [data.setdefault(section, {})[key] = v]: a missing section is created;
    a section that holds no dictionary does not take the assignment. *)
Definition set_in_section (section key : string) (v : value) (data : dict) : outcome :=
  match data !! section with
  | None => Done (<[section := VDict (<[key := v]> ∅)]> data)
  | Some (VDict d) => Done (<[section := VDict (<[key := v]> d)]> data)
  | Some _ => TypeError data
  end.

(** [if os.getenv(var): data.setdefault(section, {})[key] = conv(os.getenv(var))]. *)
Definition from_env (env : environ) (var section key : string)
    (conv : string -> value) (data : dict) : outcome :=
  match env !! var with
  | Some s => if truthy (Some s) then set_in_section section key (conv s) data
              else Done data
  | None => Done data
  end.

(** The value stored for [os.getenv(k)]: the string, or [None]. *)
Definition of_getenv (v : option string) : value := from_option VStr VNone v.

Definition symbols_of (s : string) : value := VList (VStr <$> split_comma s).

(** The six top-level keys the method always writes, in its order. *)
Definition set_top_level (env : environ) (data : dict) : dict :=
  <["debug" := VBool (bool_decide (lower (default "false" (env !! "DEBUG")) = "true"))]>
    (<["environment" := VStr (default "development" (env !! "ENVIRONMENT"))]>
       (<["alpha_vantage_api_key" := of_getenv (env !! "ALPHA_VANTAGE_API_KEY")]>
          (<["mt5_server" := of_getenv (env !! "MT5_SERVER")]>
             (<["mt5_password" := of_getenv (env !! "MT5_PASSWORD")]>
                (<["mt5_login" := of_getenv (env !! "MT5_LOGIN")]> data))))).

(** [ConfigManager._merge_env_vars] on [self._config_data]. *)
Definition _merge_env_vars (env : environ) (data : dict) : outcome :=
  and_then (from_env env "DATABASE_URL" "database" "url" VStr data) (fun data =>
  and_then (from_env env "TIMESCALE_DB_URL" "timescale_database" "url" VStr data) (fun data =>
  and_then (from_env env "KAFKA_BOOTSTRAP_SERVERS" "kafka" "bootstrap_servers" VStr data) (fun data =>
  and_then (from_env env "KAFKA_GROUP_ID" "kafka" "group_id" VStr data) (fun data =>
  and_then (from_env env "REDIS_URL" "redis" "url" VStr data) (fun data =>
  and_then (from_env env "SYMBOLS" "trading" "symbols" symbols_of data) (fun data =>
  and_then (from_env env "TIMEFRAMES" "trading" "timeframes" symbols_of data) (fun data =>
  Done (set_top_level env data)))))))).

(** [ConfigManager.get_section]. *)
Definition get_section (data : dict) (section : string) : dict :=
  match data !! section with
  | Some (VDict d) => d
  | _ => ∅
  end.

(** The head of [load_config]: the path it leaves in [self.config_path]
    before it looks for the file, from the path stored so far and the
    argument. *)
Definition config_path_of (env : environ) (stored config_file : option string) : string :=
  let stored := if truthy config_file then config_file else stored in
  match stored with
  | Some p => if truthy (Some p) then p
              else ("config/" ++ default "development" (env !! "ENVIRONMENT") ++ ".yaml")%string
  | None => ("config/" ++ default "development" (env !! "ENVIRONMENT") ++ ".yaml")%string
  end.

(** One conditional assignment of [_merge_env_vars], as data. *)
Record override : Type := mkOverride {
  var : string;
  section : string;
  key : string;
  conv : string -> value;
}.

Definition overrides : list override :=
  [ mkOverride "DATABASE_URL" "database" "url" VStr;
    mkOverride "TIMESCALE_DB_URL" "timescale_database" "url" VStr;
    mkOverride "KAFKA_BOOTSTRAP_SERVERS" "kafka" "bootstrap_servers" VStr;
    mkOverride "KAFKA_GROUP_ID" "kafka" "group_id" VStr;
    mkOverride "REDIS_URL" "redis" "url" VStr;
    mkOverride "SYMBOLS" "trading" "symbols" symbols_of;
    mkOverride "TIMEFRAMES" "trading" "timeframes" symbols_of ].

Definition top_level_keys : list string :=
  ["mt5_login"; "mt5_password"; "mt5_server"; "alpha_vantage_api_key";
   "environment"; "debug"].

(** The conditional assignments one after the other. *)
Fixpoint merge_sections (env : environ) (os : list override) (data : dict) : outcome :=
  match os with
  | [] => Done data
  | o :: os => and_then (from_env env (var o) (section o) (key o) (conv o) data)
                        (merge_sections env os)
  end.

(** A section that holds something else than a dictionary. *)
Definition not_a_dict (data : dict) (section : string) : Prop :=
  match data !! section with
  | Some (VDict _) | None => False
  | Some _ => True
  end.

End Cfg.

(** ** Sample inputs of the configuration manager *)

Definition sample_environ : Cfg.environ :=
  <["DATABASE_URL" := "postgresql://prod/trading"]>
    (<["SYMBOLS" := "EURUSD, GBPUSD,XAUUSD"]>
       (<["DEBUG" := "True"]> ∅)).

Definition sample_document : Cfg.dict :=
  <["database" := Cfg.VDict (<["url" := Cfg.VStr "sqlite:///dev.db"]>
                               (<["pool_size" := Cfg.VInt 5]> ∅))]>
    (<["mt5_login" := Cfg.VStr "12345"]>
       (<["trading" := Cfg.VDict (<["max_positions" := Cfg.VInt 3]> ∅)]> ∅)).

(** What [_merge_env_vars] leaves of [sample_document]. *)
Definition merged_sample : Cfg.dict :=
  match Cfg._merge_env_vars sample_environ sample_document with
  | Cfg.Done d | Cfg.TypeError d => d
  end.

(** ** Double-precision arithmetic, up to the rounding

    Python's floats are IEEE 754 doubles: [+], [-], [*] and [/] return the
    exact result rounded to a double, an infinity when it is out of range.
    [F] computes the exact result.  In [R] the rounding is a parameter
    [round], from the exact result to the double that is returned, so that
    what is proved for every [round] holds of the doubles whichever way
    they round.  [R.exact] rounds nothing and gives [F] back; [R.cents]
    keeps two decimals. *)

Module R.

Section Rounded.

Variable round : Q -> fval.

(** The result of an operation: a number is rounded, NaN and the
    infinities stay. *)
Definition rounded (x : fval) : fval :=
  match x with
  | Fin q => round q
  | _ => x
  end.

Definition add (x y : fval) : fval := rounded (F.add x y).
Definition sub (x y : fval) : fval := rounded (F.sub x y).
Definition mul (x y : fval) : fval := rounded (F.mul x y).
Definition div (x y : fval) : fval := rounded (F.div x y).

(** [TrendContinuationStrategy._create_signal] with every operation
    rounded. *)
Definition _create_signal (cfg : StrategyConfig) (now : Z) (sym : string)
    (trend : TrendDirection) (sess : SessionType) (current_price : Q)
    (atr_value adx_strength : fval) : SignalData :=
  let signal_type := if decide (trend = BULLISH) then "buy" else "sell" in
  let strength := F.py_min (div adx_strength (Fin 50)) (Fin 1) in
  let atr_multiplier := atr_multiplier cfg in
  let '(stop_loss, take_profit) :=
    if decide (trend = BULLISH) then
      (sub (Fin current_price) (mul atr_value (Fin atr_multiplier)),
       add (Fin current_price)
           (mul (mul atr_value (Fin atr_multiplier)) (Fin 2)))
    else
      (add (Fin current_price) (mul atr_value (Fin atr_multiplier)),
       sub (Fin current_price)
           (mul (mul atr_value (Fin atr_multiplier)) (Fin 2))) in
  {| symbol := sym; signal_type := signal_type; strength := strength;
     session := sess; timestamp := now; price := current_price;
     stop_loss := Some stop_loss; take_profit := Some take_profit;
     risk_amount := None;
     metadata := Some {| md_atr_value := atr_value;
                         md_adx_strength := adx_strength;
                         md_trend_d1 := trend_value trend;
                         md_atr_multiplier := atr_multiplier |} |}.

End Rounded.

(** No rounding. *)
Definition exact (q : Q) : fval := Fin q.


(** A number that [round] returns unchanged: a double. *)
Definition is_double (round : Q -> fval) (q : Q) : Prop :=
  F.leb (round q) (Fin q) = true /\ F.leb (Fin q) (round q) = true.

(** What the proofs use of the rounding: it keeps the order of the numbers
    (so it returns no NaN), and zero is a double.  Rounding to the nearest
    double, to the nearest even one on a tie, is such a rounding. *)
Record monotone (round : Q -> fval) : Prop := {
  round_le : forall a b : Q, (a <= b)%Q -> F.leb (round a) (round b) = true;
  round_zero : is_double round 0;
}.

End R.

(** ** The classifiers over the averages as computed

    [close.ewm(span=n).mean()] is computed by pandas on doubles, and so
    are the Series [_calculate_adx] and [_calculate_atr] return.  In [K]
    the two classifiers take these three computations as parameters: what
    is proved for every choice of them holds of the values the code really
    computes.  With [Pd.ewm_mean], [_calculate_adx] and [_calculate_atr]
    for them, [K._compute_trend_d1] and [K._compute_trend_h4] are the
    classifiers above. *)

Module K.

Section Kernels.

Variable ewm_mean : Z -> Series -> result Series.
Variables _calculate_adx _calculate_atr : DataFrame -> Z -> result Series.

Definition _compute_trend_d1 (cfg : StrategyConfig) (df_d1 : DataFrame)
  : result TrendDirection :=
  if df_len df_d1 <? Z.max (d1_ema_fast cfg) (d1_ema_slow cfg) then Ok SIDEWAYS
  else
    close ← getitem df_d1 "close";
    ema_fast ← ewm_mean (d1_ema_fast cfg) close;
    close' ← getitem df_d1 "close";
    ema_slow ← ewm_mean (d1_ema_slow cfg) close';
    latest_fast ← Pd.iloc_last ema_fast;
    latest_slow ← Pd.iloc_last ema_slow;
    Ok (crossover latest_fast latest_slow).

Definition _compute_trend_h4 (cfg : StrategyConfig) (df_h4 : DataFrame)
  : result (TrendDirection * fval * fval * fval * fval) :=
  if df_len df_h4 <? Z.max (Z.max (h4_ema_fast cfg) (h4_ema_slow cfg)) (adx_period cfg)
  then Ok (SIDEWAYS, Fin 0, Fin 0, Fin 0, Fin 0)
  else
    close ← getitem df_h4 "close";
    ema_fast ← ewm_mean (h4_ema_fast cfg) close;
    close' ← getitem df_h4 "close";
    ema_slow ← ewm_mean (h4_ema_slow cfg) close';
    adx_value ← _calculate_adx df_h4 (adx_period cfg);
    atr_value ← _calculate_atr df_h4 (atr_period cfg);
    latest_fast ← Pd.iloc_last ema_fast;
    latest_slow ← Pd.iloc_last ema_slow;
    latest_adx ← (if (0 <? length adx_value)%nat then Pd.iloc_last adx_value else Ok (Fin 0));
    latest_atr ← (if (0 <? length atr_value)%nat then Pd.iloc_last atr_value else Ok (Fin 0));
    Ok (crossover latest_fast latest_slow, latest_adx, latest_fast, latest_slow, latest_atr).

End Kernels.

End K.

(** ** The loaded document as objects ([utils/config.py])

    [Cfg] reads the loaded document as a tree.  What [yaml.safe_load]
    returns is any YAML value, [None] for an empty file, and an alias in
    the file makes two keys hold one and the same dictionary, into which
    [_merge_env_vars] assigns in place.  [Obj] keeps the dictionaries in a
    store and lets a value refer to a dictionary by its address, so that
    an assignment through one key shows under every key that holds the
    same dictionary.  Lists and scalars are never assigned into and stay
    values; [VOther] stands for the other objects the loader builds (a
    date, bytes, a set), none of which has [setdefault] or takes a string
    key.  The keys are the string keys: the method reads and writes no
    other. *)

Module Obj.

Abbreviation loc := positive.

#[warnings="-register-all"] Inductive value : Type :=
| VNone
| VBool (b : bool)
| VInt (n : Z)
| VFloat (x : Q)
| VStr (s : string)
| VList (l : list value)
| VOther (tag : string)
| VDict (a : loc).

Abbreviation dict := (gmap string value).
Abbreviation store := (gmap loc dict).

Inductive error : Type := TypeError | AttributeError.

(** A statement returns with the store it leaves, or raises with the store
    as it was left. *)
Inductive outcome : Type :=
| Done (h : store)
| Raised (e : error) (h : store).

Definition and_then (o : outcome) (k : store -> outcome) : outcome :=
  match o with
  | Done h => k h
  | Raised e h => Raised e h
  end.

(** The dictionary at an address. *)
Definition dict_at (h : store) (a : loc) : dict := default ∅ (h !! a).

(** [target[key] = v]: only a dictionary takes the assignment. *)
Definition setitem (target : value) (key : string) (v : value) (h : store) : outcome :=
  match target with
  | VDict a => Done (<[a := <[key := v]> (dict_at h a)]> h)
  | _ => Raised TypeError h
  end.

(** [data.setdefault(section, {})[key] = v].  Only a dictionary has
    [setdefault]; a missing section becomes a new, empty dictionary, and
    the assignment goes into whatever the section holds. *)
Definition set_in_section (data : value) (section key : string) (v : value)
    (h : store) : outcome :=
  match data with
  | VDict r =>
      match dict_at h r !! section with
      | Some target => setitem target key v h
      | None =>
          let a := fresh ({[r]} ∪ dom h) in
          setitem (VDict a) key v
            (<[r := <[section := VDict a]> (dict_at h r)]> (<[a := ∅]> h))
      end
  | _ => Raised AttributeError h
  end.

(** [if os.getenv(var): data.setdefault(section, {})[key] = conv(os.getenv(var))]. *)
Definition from_env (env : Cfg.environ) (var section key : string)
    (conv : string -> value) (data : value) (h : store) : outcome :=
  match env !! var with
  | Some s => if Cfg.truthy (Some s) then set_in_section data section key (conv s) h
              else Done h
  | None => Done h
  end.

Definition of_getenv (v : option string) : value := from_option VStr VNone v.

Definition symbols_of (s : string) : value := VList (VStr <$> Cfg.split_comma s).

(** [ConfigManager._merge_env_vars] on [self._config_data]. *)
Definition _merge_env_vars (env : Cfg.environ) (data : value) (h : store) : outcome :=
  and_then (from_env env "DATABASE_URL" "database" "url" VStr data h) (fun h =>
  and_then (from_env env "TIMESCALE_DB_URL" "timescale_database" "url" VStr data h) (fun h =>
  and_then (from_env env "KAFKA_BOOTSTRAP_SERVERS" "kafka" "bootstrap_servers" VStr data h)
    (fun h =>
  and_then (from_env env "KAFKA_GROUP_ID" "kafka" "group_id" VStr data h) (fun h =>
  and_then (from_env env "REDIS_URL" "redis" "url" VStr data h) (fun h =>
  and_then (from_env env "SYMBOLS" "trading" "symbols" symbols_of data h) (fun h =>
  and_then (from_env env "TIMEFRAMES" "trading" "timeframes" symbols_of data h) (fun h =>
  and_then (setitem data "mt5_login" (of_getenv (env !! "MT5_LOGIN")) h) (fun h =>
  and_then (setitem data "mt5_password" (of_getenv (env !! "MT5_PASSWORD")) h) (fun h =>
  and_then (setitem data "mt5_server" (of_getenv (env !! "MT5_SERVER")) h) (fun h =>
  and_then (setitem data "alpha_vantage_api_key"
              (of_getenv (env !! "ALPHA_VANTAGE_API_KEY")) h) (fun h =>
  and_then (setitem data "environment"
              (VStr (default "development" (env !! "ENVIRONMENT"))) h) (fun h =>
  setitem data "debug"
    (VBool (bool_decide (Cfg.lower (default "false" (env !! "DEBUG")) = "true")))
    h)))))))))))).

(** [ConfigManager.get_section]: [None] stands for the [AttributeError] of
    [self._config_data.get] on a document that is no dictionary. *)
Definition get_section (data : value) (h : store) (section : string) : option dict :=
  match data with
  | VDict r =>
      match dict_at h r !! section with
      | Some (VDict a) => Some (dict_at h a)
      | _ => Some ∅
      end
  | _ => None
  end.

(** One conditional assignment of [_merge_env_vars], as data. *)
Record override : Type := mkOverride {
  var : string;
  section : string;
  key : string;
  conv : string -> value;
}.

Definition overrides : list override :=
  [ mkOverride "DATABASE_URL" "database" "url" VStr;
    mkOverride "TIMESCALE_DB_URL" "timescale_database" "url" VStr;
    mkOverride "KAFKA_BOOTSTRAP_SERVERS" "kafka" "bootstrap_servers" VStr;
    mkOverride "KAFKA_GROUP_ID" "kafka" "group_id" VStr;
    mkOverride "REDIS_URL" "redis" "url" VStr;
    mkOverride "SYMBOLS" "trading" "symbols" symbols_of;
    mkOverride "TIMEFRAMES" "trading" "timeframes" symbols_of ].

(** A variable that is set and not empty. *)
Definition active (env : Cfg.environ) (o : override) : Prop :=
  Cfg.truthy (env !! var o) = true.

(** The conditional assignments one after the other. *)
Fixpoint merge_sections (env : Cfg.environ) (os : list override) (data : value)
    (h : store) : outcome :=
  match os with
  | [] => Done h
  | o :: os => and_then (from_env env (var o) (section o) (key o) (conv o) data h)
                        (merge_sections env os data)
  end.

(** The six assignments at the top level. *)
Definition set_top_level (env : Cfg.environ) (data : value) (h : store) : outcome :=
  and_then (setitem data "mt5_login" (of_getenv (env !! "MT5_LOGIN")) h) (fun h =>
  and_then (setitem data "mt5_password" (of_getenv (env !! "MT5_PASSWORD")) h) (fun h =>
  and_then (setitem data "mt5_server" (of_getenv (env !! "MT5_SERVER")) h) (fun h =>
  and_then (setitem data "alpha_vantage_api_key"
              (of_getenv (env !! "ALPHA_VANTAGE_API_KEY")) h) (fun h =>
  and_then (setitem data "environment"
              (VStr (default "development" (env !! "ENVIRONMENT"))) h) (fun h =>
  setitem data "debug"
    (VBool (bool_decide (Cfg.lower (default "false" (env !! "DEBUG")) = "true")))
    h))))).


(** A section of the dictionary at [r] that holds something else than a
    dictionary. *)
Definition not_a_dict (h : store) (r : loc) (section : string) : Prop :=
  match dict_at h r !! section with
  | Some (VDict _) | None => False
  | Some _ => True
  end.

(** The names [_merge_env_vars] uses: the sections it assigns into and
    the keys it assigns there. *)
Definition section_names : list string :=
  ["database"; "timescale_database"; "kafka"; "redis"; "trading"].

Definition key_names : list string :=
  ["url"; "bootstrap_servers"; "group_id"; "symbols"; "timeframes"].

(** No two of the five sections hold the same dictionary, and the
    dictionaries they hold are in the store: what [yaml.safe_load] returns
    for a file in which no alias joins two of these sections. *)
Definition separate (h : store) (r : loc) : Prop :=
  forall s a, s ∈ section_names -> dict_at h r !! s = Some (VDict a) ->
    a ∈ dom h /\
    forall s', s' ∈ section_names -> dict_at h r !! s' = Some (VDict a) -> s' = s.

(** The conditional assignments as [_merge_env_vars] has them: each is
    about one of the five sections and one of the five keys. *)
Definition plain (os : list override) : Prop :=
  Forall (fun o => section o ∈ section_names /\ key o ∈ key_names) os.

(** The store a statement leaves, returning or raising. *)
Definition store_of (out : outcome) : store :=
  match out with
  | Done h => h
  | Raised _ h => h
  end.

End Obj.

(** ** Sample documents in the store *)

(** [sample_document] as objects: the document at address 1, its
    [database] at 2, its [trading] at 3. *)
Definition sample_store : Obj.store :=
  <[1%positive := <["database" := Obj.VDict 2]>
                    (<["mt5_login" := Obj.VStr "12345"]>
                       (<["trading" := Obj.VDict 3]> ∅))]>
    (<[2%positive := <["url" := Obj.VStr "sqlite:///dev.db"]>
                       (<["pool_size" := Obj.VInt 5]> ∅)]>
       (<[3%positive := <["max_positions" := Obj.VInt 3]> ∅]> ∅)).

(** A file in which [timescale_database] is an alias of [database]: both
    keys hold the dictionary at address 2. *)
Definition aliased_store : Obj.store :=
  <[1%positive := <["database" := Obj.VDict 2]>
                    (<["timescale_database" := Obj.VDict 2]> ∅)]>
    (<[2%positive := <["url" := Obj.VStr "sqlite:///dev.db"]>
                       (<["pool_size" := Obj.VInt 5]> ∅)]> ∅).

(** A file whose [database] entry is a plain string. *)
Definition flat_store : Obj.store :=
  <[1%positive := <["database" := Obj.VStr "sqlite:///dev.db"]>
                    (<["environment" := Obj.VStr "staging"]> ∅)]> ∅.

(** What [_merge_env_vars] leaves of [sample_store]. *)
Definition merged_store : Obj.store :=
  Obj.store_of (Obj._merge_env_vars sample_environ (Obj.VDict 1) sample_store).

(** * Properties *)

(** ** Float comparisons *)

Lemma geb_meets_threshold (x : fval) (t : Q) :
  F.geb x (Fin t) = true <-> meets_threshold x t.
Proof.
  unfold F.geb, F.leb, meets_threshold.
  destruct x as [| | |a]; try (split; [discriminate|tauto]); try tauto.
  rewrite Qle_alt. destruct (t ?= a)%Q; split; congruence.
Qed.

(** ** Trend confirmation *)

(** C1: [_is_trend_confirmed] answers true exactly when the two trends are
    equal, the daily trend is not SIDEWAYS and the strength reaches the
    configured threshold; in every other combination it answers false. *)
Theorem is_trend_confirmed_iff (cfg : StrategyConfig) (d1 h4 : TrendDirection)
    (adx : fval) :
  (_is_trend_confirmed cfg d1 h4 adx = true <->
     d1 = h4 /\ d1 <> SIDEWAYS /\ meets_threshold adx (adx_threshold cfg)) /\
  (_is_trend_confirmed cfg d1 h4 adx = false <->
     ~ (d1 = h4 /\ d1 <> SIDEWAYS /\ meets_threshold adx (adx_threshold cfg))).
Proof.
  assert (Hiff : _is_trend_confirmed cfg d1 h4 adx = true <->
     d1 = h4 /\ d1 <> SIDEWAYS /\ meets_threshold adx (adx_threshold cfg)).
  { unfold _is_trend_confirmed.
    rewrite !andb_true_iff, !bool_decide_eq_true, geb_meets_threshold. tauto. }
  split; [exact Hiff|].
  rewrite <- Hiff. destruct (_is_trend_confirmed cfg d1 h4 adx); split; congruence.
Qed.

(** ** Failure paths *)

Lemma analyze_trend_reraises (cfg : StrategyConfig) (d1 h4 : DataFrame) :
  analyze_trend cfg d1 h4 = analyze_trend_body cfg d1 h4.
Proof. unfold analyze_trend, try_except. destruct (analyze_trend_body cfg d1 h4); reflexivity. Qed.

Lemma no_close_raises :
  analyze_trend_body short_config no_close_d1 stalled_h4 = Raise (KeyError "close").
Proof. vm_compute. reflexivity. Qed.

(** C4, as the code has it: when the indicator computation raises,
    [generate_signal] swallows the exception and hands back no signal, while
    [analyze_trend] hands the same exception on to its caller. *)
Theorem failure_boundary (st : Strategy) (now : Z) (sym : string)
    (d1 h4 : DataFrame) (sess : SessionType) (p : Q) (e : exn) :
  analyze_trend_body (config st) d1 h4 = Raise e ->
  fst (generate_signal st now sym d1 h4 sess p) = None /\
  analyze_trend (config st) d1 h4 = Raise e.
Proof.
  intros Hbody. unfold generate_signal.
  rewrite analyze_trend_reraises, Hbody. split; reflexivity.
Qed.

Lemma failure_boundary_witness :
  fst (generate_signal (init short_config) 0 "EURUSD" no_close_d1 stalled_h4 US 14) = None /\
  analyze_trend (config (init short_config)) no_close_d1 stalled_h4 = Raise (KeyError "close").
Proof.
  apply (failure_boundary (init short_config) 0 "EURUSD" no_close_d1 stalled_h4 US 14
           (KeyError "close")).
  vm_compute. reflexivity.
Defined.

(** C4 as written fails for [analyze_trend]: on a frame without its close
    column the indicator computation raises and [analyze_trend] does not
    return, it raises the same [KeyError]. *)
Lemma analyze_trend_propagates :
  analyze_trend_body short_config no_close_d1 stalled_h4 = Raise (KeyError "close") /\
  analyze_trend short_config no_close_d1 stalled_h4 = Raise (KeyError "close") /\
  ~ (exists r, analyze_trend short_config no_close_d1 stalled_h4 = Ok r).
Proof.
  split; [vm_compute; reflexivity|].
  split; [vm_compute; reflexivity|].
  intros [r Hr]. vm_compute in Hr. discriminate.
Qed.

(** C9: when [analyze_trend] raises, [generate_signal] returns no signal
    and the strategy object is the one it was given: neither cache is
    touched. *)
Theorem generate_signal_failure_atomic (st : Strategy) (now : Z) (sym : string)
    (d1 h4 : DataFrame) (sess : SessionType) (p : Q) (e : exn) :
  analyze_trend (config st) d1 h4 = Raise e ->
  generate_signal st now sym d1 h4 sess p = (None, st) /\
  trend_cache (snd (generate_signal st now sym d1 h4 sess p)) = trend_cache st /\
  active_signals (snd (generate_signal st now sym d1 h4 sess p)) = active_signals st.
Proof.
  intros Hraise. unfold generate_signal. rewrite Hraise. repeat split.
Qed.

Lemma generate_signal_failure_atomic_witness :
  generate_signal (init short_config) 7 "EURUSD" no_close_d1 stalled_h4 ASIAN 14
    = (None, init short_config).
Proof.
  apply (generate_signal_failure_atomic (init short_config) 7 "EURUSD"
           no_close_d1 stalled_h4 ASIAN 14 (KeyError "close")).
  vm_compute. reflexivity.
Defined.

(** ** The analysis cache *)

(** C7, as the code has it: whenever [analyze_trend] returns an analysis,
    [generate_signal] leaves exactly that analysis under the symbol,
    whatever was cached before and whether or not a signal comes out; the
    entries of other symbols stay as they were. *)
Theorem generate_signal_caches (st : Strategy) (now : Z) (sym : string)
    (d1 h4 : DataFrame) (sess : SessionType) (p : Q) (a : TrendAnalysis) :
  analyze_trend (config st) d1 h4 = Ok a ->
  trend_cache (snd (generate_signal st now sym d1 h4 sess p)) !! sym = Some a /\
  (forall other, other <> sym ->
     trend_cache (snd (generate_signal st now sym d1 h4 sess p)) !! other
       = trend_cache st !! other).
Proof.
  intros Hok. unfold generate_signal. rewrite Hok. cbn [snd trend_cache]. split.
  - apply lookup_insert_eq.
  - intros other Hne. apply lookup_insert_ne. congruence.
Qed.

(** C7 as written fails on the failure path: a fresh strategy that is given
    a frame without its close column has no cache entry for the symbol
    after the call. *)
Lemma cache_missing_after_failure :
  trend_cache (snd (generate_signal (init short_config) 0 "EURUSD"
                      no_close_d1 stalled_h4 US 14)) !! "EURUSD" = None.
Proof. vm_compute. reflexivity. Qed.

(** ** Active signals *)

Lemma step_active_signals (st : Strategy) (c : Call) :
  active_signals (step st c) = active_signals st.
Proof.
  destruct c as [d1 h4|now sym d1 h4 sess p|now]; cbn [step]; try reflexivity.
  unfold generate_signal. destruct (analyze_trend (config st) d1 h4); reflexivity.
Qed.

Lemma run_active_signals (calls : list Call) (st : Strategy) :
  active_signals (run st calls) = active_signals st.
Proof.
  revert st. induction calls as [|c calls IH]; intros st; [reflexivity|].
  cbn [run foldl]. fold (run (step st c) calls). rewrite IH. apply step_active_signals.
Qed.

(** C10: no public call writes [active_signals]; after any sequence of
    calls on a fresh strategy the registry is still empty and the status
    snapshot reports zero active signals. *)
Theorem active_signals_never_written (cfg : StrategyConfig) (calls : list Call)
    (now : Z) :
  (forall st c, active_signals (step st c) = active_signals st) /\
  active_signals (run (init cfg) calls) = ∅ /\
  get_strategy_status (run (init cfg) calls) now
    = {| status_name := name (config (run (init cfg) calls));
         status_active_signals := 0;
         status_cached_analysis := size (trend_cache (run (init cfg) calls));
         status_config := config (run (init cfg) calls);
         status_timestamp := now |}.
Proof.
  split; [apply step_active_signals|].
  assert (Hempty : active_signals (run (init cfg) calls) = ∅)
    by (rewrite run_active_signals; reflexivity).
  split; [exact Hempty|].
  unfold get_strategy_status. rewrite Hempty, map_size_empty. reflexivity.
Qed.

Lemma generate_signal_caches_witness :
  exists a,
    analyze_trend (config (init short_config)) rising_d1 stalled_h4 = Ok a /\
    trend_cache (snd (generate_signal (init short_config) 0 "EURUSD"
                        rising_d1 stalled_h4 US 14)) !! "EURUSD" = Some a.
Proof.
  eexists. split; [vm_compute; reflexivity|].
  apply (generate_signal_caches (init short_config) 0 "EURUSD" rising_d1 stalled_h4 US 14).
  vm_compute. reflexivity.
Defined.

(** ** Directional movement *)

Lemma shift1_lookup_S (s : Series) (i : nat) (x : fval) :
  s !! i = Some x -> (S i < length s)%nat -> Pd.shift1 s !! S i = Some x.
Proof.
  intros Hx Hlen. unfold Pd.shift1. rewrite lookup_take_lt by exact Hlen. exact Hx.
Qed.

Lemma shift1_lookup_0 (s : Series) :
  s <> [] -> Pd.shift1 s !! 0%nat = Some NaN.
Proof. destruct s; [congruence|reflexivity]. Qed.

Lemma shift1_length (s : Series) : length (Pd.shift1 s) = length s.
Proof. unfold Pd.shift1. rewrite length_take. cbn [length]. lia. Qed.

Lemma diff_lookup_S (qs : list Q) (i : nat) (a b : Q) :
  qs !! i = Some a -> qs !! S i = Some b ->
  Pd.diff (Fin <$> qs) !! S i = Some (Fin (b + - a)).
Proof.
  intros Ha Hb. unfold Pd.diff, Pd.sub.
  apply lookup_zip_with_Some. exists (Fin b), (Fin a). split; [reflexivity|]. split.
  - rewrite list_lookup_fmap, Hb. reflexivity.
  - apply shift1_lookup_S.
    + rewrite list_lookup_fmap, Ha. reflexivity.
    + rewrite length_fmap. apply lookup_lt_Some in Hb. exact Hb.
Qed.

Lemma diff_lookup_0 (qs : list Q) :
  qs <> [] -> Pd.diff (Fin <$> qs) !! 0%nat = Some NaN.
Proof. destruct qs; [congruence|reflexivity]. Qed.

Lemma dm_zeroing_lookup (dp dm : Series) (i : nat) (x y : fval) :
  dp !! i = Some x -> dm !! i = Some y ->
  fst (dm_zeroing dp dm) !! i = Some (zeroed_plus x y) /\
  snd (dm_zeroing dp dm) !! i = Some (zeroed_minus x y).
Proof.
  intros Hx Hy. unfold dm_zeroing. cbn [fst snd].
  assert (H1 : Pd.mask_assign dp (Pd.lt dp dm) (Fin 0) !! i
               = Some (if F.ltb x y then Fin 0 else x)).
  { apply lookup_zip_with_Some. exists x, (F.ltb x y). split; [reflexivity|].
    split; [exact Hx|]. apply lookup_zip_with_Some. eauto. }
  set (dp1 := Pd.mask_assign dp (Pd.lt dp dm) (Fin 0)) in *.
  assert (H2 : Pd.mask_assign dp1 (Pd.lt_scalar dp1 0) (Fin 0) !! i
               = Some (zeroed_plus x y)).
  { apply lookup_zip_with_Some. eexists _, _. split; [|split; [exact H1|]].
    2:{ unfold Pd.lt_scalar. rewrite list_lookup_fmap, H1. reflexivity. }
    reflexivity. }
  set (dp2 := Pd.mask_assign dp1 (Pd.lt_scalar dp1 0) (Fin 0)) in *.
  split; [exact H2|].
  assert (H3 : Pd.mask_assign dm (Pd.lt dm dp2) (Fin 0) !! i
               = Some (if F.ltb y (zeroed_plus x y) then Fin 0 else y)).
  { apply lookup_zip_with_Some. eexists _, _. split; [|split; [exact Hy|]].
    2:{ apply lookup_zip_with_Some. eauto. }
    reflexivity. }
  set (dm1 := Pd.mask_assign dm (Pd.lt dm dp2) (Fin 0)) in *.
  apply lookup_zip_with_Some. eexists _, _. split; [|split; [exact H3|]].
  2:{ unfold Pd.lt_scalar. rewrite list_lookup_fmap, H3. reflexivity. }
  reflexivity.
Qed.

Lemma ltb_Fin (a b : Q) : F.ltb (Fin a) (Fin b) = true <-> (a < b)%Q.
Proof.
  cbn [F.ltb]. destruct (Qcompare_spec a b) as [H|H|H]; split; intros; try congruence; try lra.
Qed.

Lemma ltb_Fin_false (a b : Q) : F.ltb (Fin a) (Fin b) = false <-> (b <= a)%Q.
Proof.
  cbn [F.ltb]. destruct (Qcompare_spec a b) as [H|H|H]; split; intros; try congruence; try lra.
Qed.

(** The two zeroed cells of a bar whose raw movements are [up] and [down]. *)
Lemma zeroed_cells (up down : Q) :
  exists p m,
    zeroed_plus (Fin up) (Fin down) = Fin p /\
    zeroed_minus (Fin up) (Fin down) = Fin m /\
    (0 <= p)%Q /\ (0 <= m)%Q /\
    ((p == 0)%Q \/ (m == 0)%Q \/
     ((0 < up)%Q /\ (up == down)%Q /\ p = up /\ m = down)).
Proof.
  unfold zeroed_minus, zeroed_plus.
  repeat match goal with
    | |- context [F.ltb (Fin ?a) (Fin ?b)] =>
        let E := fresh "E" in
        destruct (F.ltb (Fin a) (Fin b)) eqn:E;
        [apply ltb_Fin in E | apply ltb_Fin_false in E]
    end;
    eexists _, _; (split; [reflexivity|]); (split; [reflexivity|]);
    (split; [lra|]); (split; [lra|]);
    destruct (Qlt_le_dec 0 up);
    first [ left; lra | right; left; lra
          | right; right; repeat split; first [reflexivity | lra] ].
Qed.

(** The two zeroed cells of a position whose raw values are numbers. *)
Lemma zeroed_cells_apart (x y : fval) :
  F.is_nan x = false -> F.is_nan y = false ->
  nonneg (zeroed_plus x y) /\ nonneg (zeroed_minus x y) /\
  (F.ltb y x = true ->
     is_zero (zeroed_minus x y) /\
     zeroed_plus x y = (if F.ltb x (Fin 0) then Fin 0 else x)) /\
  (F.ltb x y = true ->
     is_zero (zeroed_plus x y) /\
     zeroed_minus x y = (if F.ltb y (Fin 0) then Fin 0 else y)).
Proof.
  intros Hx Hy. unfold zeroed_minus, zeroed_plus.
  destruct x as [| | |a], y as [| | |b]; try discriminate Hx; try discriminate Hy;
    cbn [F.ltb nonneg is_zero];
    try (repeat split; intros; first [discriminate | reflexivity | exact I | lra]).
  all: repeat match goal with
    | |- context [F.ltb (Fin ?a) (Fin ?b)] =>
        let E := fresh "E" in
        destruct (F.ltb (Fin a) (Fin b)) eqn:E;
        [apply ltb_Fin in E | apply ltb_Fin_false in E]
    | |- context [match (?a ?= ?b)%Q with _ => _ end] =>
        let E := fresh "E" in
        destruct (Qcompare_spec a b) as [E|E|E]
    end; cbn [nonneg is_zero F.ltb];
    repeat split; intros; first [discriminate | reflexivity | exact I | lra].
Qed.

(** C6, as the code has it: the zeroing step of [_calculate_adx] on any
    raw +DM and -DM series (there [high.diff()] and [-low.diff()], which
    are NaN at the first bar, where the step changes nothing, and numbers
    at every later bar).  At every position where both raw values are
    numbers the zeroed values are not below zero, and when the raw values
    differ at most one is nonzero: the smaller becomes zero, and the larger
    is kept unless it is negative, when it becomes zero too.  What the step
    does when the two raw values are equal is left open here. *)
Theorem dm_after_zeroing (dm_plus dm_minus : Series) (i : nat) (x y : fval) :
  dm_plus !! i = Some x -> dm_minus !! i = Some y ->
  F.is_nan x = false -> F.is_nan y = false ->
  exists p m,
    fst (dm_zeroing dm_plus dm_minus) !! i = Some p /\
    snd (dm_zeroing dm_plus dm_minus) !! i = Some m /\
    nonneg p /\ nonneg m /\
    (F.ltb y x = true ->
       is_zero m /\ p = (if F.ltb x (Fin 0) then Fin 0 else x)) /\
    (F.ltb x y = true ->
       is_zero p /\ m = (if F.ltb y (Fin 0) then Fin 0 else y)).
Proof.
  intros Hx Hy Nx Ny.
  destruct (dm_zeroing_lookup dm_plus dm_minus i x y Hx Hy) as [Hp Hm].
  exists (zeroed_plus x y), (zeroed_minus x y).
  split; [exact Hp|]. split; [exact Hm|].
  apply zeroed_cells_apart; assumption.
Qed.

Lemma dm_after_zeroing_witness :
  exists p m,
    fst (directional_movement (Fin <$> [10; 12; 11]%Q) (Fin <$> [8; 9; 7]%Q)) !! 2%nat
      = Some p /\
    snd (directional_movement (Fin <$> [10; 12; 11]%Q) (Fin <$> [8; 9; 7]%Q)) !! 2%nat
      = Some m /\
    nonneg p /\ nonneg m /\
    (F.ltb (Fin 2) (Fin (-1)) = true ->
       is_zero m /\ p = (if F.ltb (Fin (-1)) (Fin 0) then Fin 0 else Fin (-1))) /\
    (F.ltb (Fin (-1)) (Fin 2) = true ->
       is_zero p /\ m = (if F.ltb (Fin 2) (Fin 0) then Fin 0 else Fin 2)).
Proof.
  apply (dm_after_zeroing (Pd.diff (Fin <$> [10; 12; 11]%Q))
           (Pd.neg (Pd.diff (Fin <$> [8; 9; 7]%Q))) 2 (Fin (-1)) (Fin 2));
    reflexivity.
Defined.

(** C6 as written fails twice on a frame of two bars.  At the first bar
    both movements are NaN and stay NaN, so neither is >= 0.  The second is
    an outside bar: the high rises by 5 and the low falls by 5, and both
    +DM and -DM keep the value 5. *)
Lemma outside_bar_keeps_both_movements :
  fst (directional_movement (Fin <$> [10; 15]%Q) (Fin <$> [8; 3]%Q)) !! 0%nat = Some NaN /\
  snd (directional_movement (Fin <$> [10; 15]%Q) (Fin <$> [8; 3]%Q)) !! 0%nat = Some NaN /\
  ~ nonneg NaN /\
  fst (directional_movement (Fin <$> [10; 15]%Q) (Fin <$> [8; 3]%Q)) !! 1%nat
    = Some (Fin 5) /\
  snd (directional_movement (Fin <$> [10; 15]%Q) (Fin <$> [8; 3]%Q)) !! 1%nat
    = Some (Fin 5) /\
  ~ (is_zero (Fin 5) \/ is_zero (Fin 5)).
Proof.
  repeat (split; [vm_compute; reflexivity|]).
  split; [intros []|].
  repeat (split; [vm_compute; reflexivity|]).
  cbn [is_zero]. intros [H|H]; lra.
Qed.

(** ** Signal levels *)

Lemma create_signal_levels (cfg : StrategyConfig) (now : Z) (sym : string)
    (trend : TrendDirection) (sess : SessionType) (p a : Q) (adx : fval) :
  exists sl tp,
    stop_loss (_create_signal cfg now sym trend sess p (Fin a) adx) = Some (Fin sl) /\
    take_profit (_create_signal cfg now sym trend sess p (Fin a) adx) = Some (Fin tp) /\
    price (_create_signal cfg now sym trend sess p (Fin a) adx) = p /\
    (trend = BULLISH ->
       (tp - p == 2 * (p - sl))%Q /\
       ((0 < a * atr_multiplier cfg)%Q -> (sl < p)%Q /\ (p < tp)%Q)) /\
    (trend = BEARISH ->
       (p - tp == 2 * (sl - p))%Q /\
       ((0 < a * atr_multiplier cfg)%Q -> (tp < p)%Q /\ (p < sl)%Q)).
Proof.
  unfold _create_signal.
  destruct (decide (trend = BULLISH)) as [Hb|Hb]; cbn;
    eexists _, _; repeat split; try reflexivity; intros; try congruence; lra.
Qed.

(** ** Order of the floats *)

Lemma leb_Fin (a b : Q) : F.leb (Fin a) (Fin b) = true <-> (a <= b)%Q.
Proof.
  cbn [F.leb]. destruct (Qcompare_spec a b) as [H|H|H]; split; intros;
    try congruence; try lra.
Qed.



Lemma exact_monotone : R.monotone R.exact.
Proof.
  split.
  - intros a b Hab. apply leb_Fin. exact Hab.
  - split; apply leb_Fin; lra.
Qed.


Section Rounding.

Variable round : Q -> fval.
Hypothesis Hround : R.monotone round.




End Rounding.

(** Without rounding, [R._create_signal] is [_create_signal]. *)
Lemma rounded_exact (x : fval) : R.rounded R.exact x = x.
Proof. destruct x; reflexivity. Qed.

Lemma create_signal_exact (cfg : StrategyConfig) (now : Z) (sym : string)
    (trend : TrendDirection) (sess : SessionType) (p : Q) (atr adx : fval) :
  R._create_signal R.exact cfg now sym trend sess p atr adx
    = _create_signal cfg now sym trend sess p atr adx.
Proof.
  unfold R._create_signal, _create_signal, R.add, R.sub, R.mul, R.div.
  rewrite !rounded_exact. reflexivity.
Qed.



(** ** The exponentially weighted mean *)

Lemma div_Fin_pos (a b : Q) : (0 < b)%Q -> F.div (Fin a) (Fin b) = Fin (a / b).
Proof.
  intros Hb. cbn [F.div]. unfold F.sgn.
  apply Qgt_alt in Hb. rewrite Hb. reflexivity.
Qed.

Lemma decay_nonneg (span : Z) : 1 <= span -> (0 <= Pd.decay span)%Q.
Proof.
  intros Hs. unfold Pd.decay.
  assert (H2 : (2 <= inject_Z (span + 1))%Q).
  { change 2%Q with (inject_Z 2). rewrite <- Zle_Qle. lia. }
  assert (H : (2 / inject_Z (span + 1) <= 1)%Q).
  { apply Qle_shift_div_r; lra. }
  lra.
Qed.

Lemma decay_lt (fast slow : Z) :
  1 <= fast -> fast < slow -> (Pd.decay fast < Pd.decay slow)%Q.
Proof.
  intros Hf Hlt. unfold Pd.decay.
  assert (Ha : (2 <= inject_Z (fast + 1))%Q).
  { change 2%Q with (inject_Z 2). rewrite <- Zle_Qle. lia. }
  assert (Hb : (inject_Z (fast + 1) < inject_Z (slow + 1))%Q).
  { rewrite <- Zlt_Qlt. lia. }
  assert (Hinv : (/ inject_Z (slow + 1) < / inject_Z (fast + 1))%Q).
  { apply -> Qinv_lt_contravar; lra. }
  unfold Qdiv. lra.
Qed.

Lemma ewm_loop_last (f : Q) (xs : list Q) :
  (0 <= f)%Q ->
  forall w ow, (0 < ow)%Q ->
    last (Fin w :: Pd.ewm_loop f (Fin w) ow (Fin <$> xs))
      = Some (Fin (fst (ema_state f w ow xs))).
Proof.
  intros Hf. induction xs as [|x rest IH]; intros w ow How; [reflexivity|].
  cbn [fmap list_fmap Pd.ewm_loop F.is_nan ema_state F.mul F.add].
  assert (Hpos : (0 < ow * f + 1)%Q) by nra.
  rewrite div_Fin_pos by exact Hpos.
  rewrite last_cons_cons. apply IH. exact Hpos.
Qed.

Lemma ema_state_pos (f : Q) (xs : list Q) :
  (0 <= f)%Q -> forall w ow, (0 < ow)%Q -> (0 < snd (ema_state f w ow xs))%Q.
Proof.
  intros Hf. induction xs as [|x rest IH]; intros w ow How; [exact How|].
  cbn [ema_state]. apply IH. nra.
Qed.

(** The running pair carries the weighted sum and the total weight of the
    rows seen so far. *)
Lemma ema_state_closed_form (f : Q) (xs : list Q) :
  (0 <= f)%Q ->
  forall pre w ow, (0 < ow)%Q ->
    (w * ow == weighted_sum f (rev pre))%Q ->
    (ow == weight_total f (length pre))%Q ->
    (fst (ema_state f w ow xs) * snd (ema_state f w ow xs)
       == weighted_sum f (rev (pre ++ xs)))%Q /\
    (snd (ema_state f w ow xs) == weight_total f (length (pre ++ xs)))%Q.
Proof.
  intros Hf. induction xs as [|x rest IH]; intros pre w ow How Hsum Htot.
  - rewrite app_nil_r. cbn [ema_state fst snd]. split; assumption.
  - cbn [ema_state].
    assert (Hpos : (0 < ow * f + 1)%Q) by nra.
    replace (pre ++ x :: rest) with ((pre ++ [x]) ++ rest)
      by (rewrite <- app_assoc; reflexivity).
    apply IH; [exact Hpos| |].
    + rewrite rev_app_distr. cbn [rev app weighted_sum].
      rewrite <- Hsum. field. lra.
    + rewrite length_app. cbn [length]. rewrite Nat.add_1_r.
      cbn [weight_total]. rewrite <- Htot. ring.
Qed.

(** The last value of [ewm(span).mean()] on the closes is the closed-form
    average. *)
Lemma ewm_mean_latest (span : Z) (x : Q) (rest : list Q) :
  1 <= span ->
  exists s v,
    Pd.ewm_mean span (Fin <$> (x :: rest)) = Ok s /\
    Pd.iloc_last s = Ok (Fin v) /\
    v = fst (ema_state (Pd.decay span) x 1 rest) /\
    (v == ewma_latest span (x :: rest))%Q.
Proof.
  intros Hs. pose proof (decay_nonneg span Hs) as Hf.
  eexists _, _. split; [|split; [|split; [reflexivity|]]].
  - unfold Pd.ewm_mean. destruct (span <? 1) eqn:E; [apply Z.ltb_lt in E; lia|].
    reflexivity.
  - unfold Pd.iloc_last. cbn [fmap list_fmap Pd.ewm_values].
    rewrite (ewm_loop_last _ rest Hf x 1) by lra. reflexivity.
  - destruct (ema_state_closed_form (Pd.decay span) rest Hf [x] x 1) as [Hsum Htot].
    + lra.
    + cbn [rev app weighted_sum]. ring.
    + cbn [length weight_total]. ring.
    + pose proof (ema_state_pos (Pd.decay span) rest Hf x 1 ltac:(lra)) as Hpos.
      unfold ewma_latest. cbn [app] in Hsum, Htot.
      rewrite <- Hsum, <- Htot. field. lra.
Qed.

(** ** The trend classifiers *)

Lemma getitem_present (df : DataFrame) (col : string) (proj : Bar -> Q) :
  col ∈ df_columns df -> column_of col = Some proj ->
  getitem df col = Ok (Fin <$> (proj <$> df_rows df)).
Proof.
  intros Hin Hcol. unfold getitem. rewrite decide_True by exact Hin.
  rewrite Hcol, <- list_fmap_compose. reflexivity.
Qed.

Lemma getitem_close (df : DataFrame) :
  "close" ∈ df_columns df -> getitem df "close" = Ok (Fin <$> closes df).
Proof. intros Hin. apply getitem_present; [exact Hin|reflexivity]. Qed.

Lemma crossover_classified (f s f' s' : Q) :
  (f == f')%Q -> (s == s')%Q -> classified (crossover (Fin f) (Fin s)) f' s'.
Proof.
  intros Hf Hs. unfold classified, crossover, F.gtb.
  destruct (F.ltb (Fin s) (Fin f)) eqn:E1;
    [apply ltb_Fin in E1 | apply ltb_Fin_false in E1];
    (destruct (F.ltb (Fin f) (Fin s)) eqn:E2;
      [apply ltb_Fin in E2 | apply ltb_Fin_false in E2]);
    repeat split; intros; first [reflexivity | exfalso; lra].
Qed.

Lemma closes_nonempty (df : DataFrame) (n : Z) :
  1 <= n -> n <= df_len df -> exists x rest, closes df = x :: rest.
Proof.
  unfold df_len, closes. intros Hn Hlen.
  destruct (df_rows df) as [|b rows]; [cbn in Hlen; lia|].
  eexists _, _. reflexivity.
Qed.

(** With enough history the daily classifier is the crossover of the two
    running averages. *)
Lemma compute_trend_d1_enough (cfg : StrategyConfig) (df : DataFrame) (x : Q)
    (rest : list Q) :
  "close" ∈ df_columns df ->
  1 <= d1_ema_fast cfg -> 1 <= d1_ema_slow cfg ->
  Z.max (d1_ema_fast cfg) (d1_ema_slow cfg) <= df_len df ->
  closes df = x :: rest ->
  _compute_trend_d1 cfg df
    = Ok (crossover (Fin (fst (ema_state (Pd.decay (d1_ema_fast cfg)) x 1 rest)))
                    (Fin (fst (ema_state (Pd.decay (d1_ema_slow cfg)) x 1 rest)))).
Proof.
  intros Hcol Hf Hs Hlen Hcl. unfold _compute_trend_d1.
  destruct (df_len df <? Z.max (d1_ema_fast cfg) (d1_ema_slow cfg)) eqn:E;
    [apply Z.ltb_lt in E; lia|].
  rewrite getitem_close by exact Hcol. rewrite Hcl.
  destruct (ewm_mean_latest (d1_ema_fast cfg) x rest Hf) as (sf & vf & Ef & Lf & Vf & _).
  destruct (ewm_mean_latest (d1_ema_slow cfg) x rest Hs) as (ss & vs & Es & Ls & Vs & _).
  cbn [mbind result_bind]. rewrite Ef. cbn [mbind result_bind].
  rewrite Es. cbn [mbind result_bind]. rewrite Lf, Ls. cbn [mbind result_bind].
  subst vf vs. reflexivity.
Qed.

Lemma compute_trend_d1_spec (cfg : StrategyConfig) (df : DataFrame) :
  "close" ∈ df_columns df ->
  1 <= d1_ema_fast cfg -> 1 <= d1_ema_slow cfg ->
  exists t,
    _compute_trend_d1 cfg df = Ok t /\
    (df_len df < Z.max (d1_ema_fast cfg) (d1_ema_slow cfg) -> t = SIDEWAYS) /\
    (Z.max (d1_ema_fast cfg) (d1_ema_slow cfg) <= df_len df ->
       classified t (ewma_latest (d1_ema_fast cfg) (closes df))
                    (ewma_latest (d1_ema_slow cfg) (closes df))).
Proof.
  intros Hcol Hf Hs.
  destruct (Z_lt_le_dec (df_len df) (Z.max (d1_ema_fast cfg) (d1_ema_slow cfg)))
    as [Hshort|Hlong].
  - exists SIDEWAYS. split; [|split; [reflexivity|lia]].
    unfold _compute_trend_d1. apply Z.ltb_lt in Hshort. rewrite Hshort. reflexivity.
  - destruct (closes_nonempty df (Z.max (d1_ema_fast cfg) (d1_ema_slow cfg)))
      as (x & rest & Hcl); [lia|exact Hlong|].
    eexists. split; [apply (compute_trend_d1_enough cfg df x rest); assumption|].
    split; [lia|]. intros _. rewrite Hcl.
    destruct (ewm_mean_latest (d1_ema_fast cfg) x rest Hf) as (sf & vf & _ & _ & Vf & Qf).
    destruct (ewm_mean_latest (d1_ema_slow cfg) x rest Hs) as (ss & vs & _ & _ & Vs & Qs).
    subst vf vs. apply crossover_classified; assumption.
Qed.

Lemma rolling_mean_ok (w : Z) (s : Series) :
  0 <= w -> Pd.rolling_mean w s = Ok (Pd.rolling_values (Z.to_nat w) s).
Proof.
  intros Hw. unfold Pd.rolling_mean.
  destruct (w <? 0) eqn:E; [apply Z.ltb_lt in E; lia|reflexivity].
Qed.

Lemma ewm_mean_ok (span : Z) (s : Series) :
  1 <= span -> Pd.ewm_mean span s = Ok (Pd.ewm_values (Pd.decay span) s).
Proof.
  intros Hs. unfold Pd.ewm_mean.
  destruct (span <? 1) eqn:E; [apply Z.ltb_lt in E; lia|reflexivity].
Qed.

Lemma calculate_adx_ok (df : DataFrame) (period : Z) :
  "high" ∈ df_columns df -> "low" ∈ df_columns df -> "close" ∈ df_columns df ->
  0 <= period ->
  let w := Z.to_nat period in
  let tr := true_range (Fin <$> highs df) (Fin <$> lows df) (Fin <$> closes df) in
  let dm := directional_movement (Fin <$> highs df) (Fin <$> lows df) in
  _calculate_adx df period
    = Ok (Pd.fillna
            (Pd.rolling_values w
               (dx_of (Pd.rolling_values w (fst dm)) (Pd.rolling_values w (snd dm))
                      (Pd.rolling_values w tr))) 0).
Proof.
  intros Hh Hl Hc Hp. cbv zeta. unfold _calculate_adx.
  rewrite (getitem_present df "high" bar_high Hh eq_refl).
  rewrite (getitem_present df "low" bar_low Hl eq_refl).
  rewrite getitem_close by exact Hc.
  cbn [mbind result_bind]. fold (highs df). fold (lows df).
  destruct (directional_movement (Fin <$> highs df) (Fin <$> lows df)) as [dp dm].
  rewrite !rolling_mean_ok by exact Hp. cbn [mbind result_bind fst snd].
  rewrite rolling_mean_ok by exact Hp. reflexivity.
Qed.

Lemma calculate_atr_ok (df : DataFrame) (period : Z) :
  "high" ∈ df_columns df -> "low" ∈ df_columns df -> "close" ∈ df_columns df ->
  1 <= period ->
  _calculate_atr df period
    = Ok (Pd.fillna
            (Pd.ewm_values (Pd.decay period)
               (true_range (Fin <$> highs df) (Fin <$> lows df) (Fin <$> closes df))) 0).
Proof.
  intros Hh Hl Hc Hp. unfold _calculate_atr.
  rewrite (getitem_present df "high" bar_high Hh eq_refl).
  rewrite (getitem_present df "low" bar_low Hl eq_refl).
  rewrite getitem_close by exact Hc.
  cbn [mbind result_bind]. rewrite ewm_mean_ok by exact Hp. reflexivity.
Qed.

Lemma guarded_iloc_ok (s : Series) :
  exists v, (if (0 <? length s)%nat then Pd.iloc_last s else Ok (Fin 0)) = Ok v.
Proof.
  destruct s as [|x s]; [eexists; reflexivity|].
  cbn [length Nat.ltb Nat.leb]. unfold Pd.iloc_last.
  destruct (last (x :: s)) eqn:E; [eexists; reflexivity|].
  apply last_None in E. discriminate E.
Qed.

Lemma compute_trend_h4_spec (cfg : StrategyConfig) (df : DataFrame) :
  "high" ∈ df_columns df -> "low" ∈ df_columns df -> "close" ∈ df_columns df ->
  1 <= h4_ema_fast cfg -> 1 <= h4_ema_slow cfg ->
  0 <= adx_period cfg -> 1 <= atr_period cfg ->
  exists t adx fast slow atr,
    _compute_trend_h4 cfg df = Ok (t, adx, fast, slow, atr) /\
    (df_len df < Z.max (Z.max (h4_ema_fast cfg) (h4_ema_slow cfg)) (adx_period cfg) ->
       t = SIDEWAYS) /\
    (Z.max (Z.max (h4_ema_fast cfg) (h4_ema_slow cfg)) (adx_period cfg) <= df_len df ->
       classified t (ewma_latest (h4_ema_fast cfg) (closes df))
                    (ewma_latest (h4_ema_slow cfg) (closes df))).
Proof.
  intros Hh Hl Hc Hf Hs Hadx Hatr.
  destruct (Z_lt_le_dec (df_len df)
              (Z.max (Z.max (h4_ema_fast cfg) (h4_ema_slow cfg)) (adx_period cfg)))
    as [Hshort|Hlong].
  - exists SIDEWAYS, (Fin 0), (Fin 0), (Fin 0), (Fin 0).
    split; [|split; [reflexivity|lia]].
    unfold _compute_trend_h4. apply Z.ltb_lt in Hshort. rewrite Hshort. reflexivity.
  - destruct (closes_nonempty df (h4_ema_fast cfg)) as (x & rest & Hcl); [lia|lia|].
    destruct (ewm_mean_latest (h4_ema_fast cfg) x rest Hf) as (sf & vf & Ef & Lf & Vf & Qf).
    destruct (ewm_mean_latest (h4_ema_slow cfg) x rest Hs) as (ss & vs & Es & Ls & Vs & Qs).
    pose proof (calculate_adx_ok df (adx_period cfg) Hh Hl Hc Hadx) as Eadx.
    cbv zeta in Eadx.
    pose proof (calculate_atr_ok df (atr_period cfg) Hh Hl Hc Hatr) as Eatr.
    unfold _compute_trend_h4.
    destruct (df_len df <? _) eqn:E; [apply Z.ltb_lt in E; lia|].
    rewrite getitem_close by exact Hc. rewrite Hcl.
    cbn [mbind result_bind]. rewrite Ef. cbn [mbind result_bind].
    rewrite Es. cbn [mbind result_bind].
    rewrite Eadx. cbn [mbind result_bind]. rewrite Eatr. cbn [mbind result_bind].
    rewrite Lf, Ls. cbn [mbind result_bind].
    match goal with
    | |- context [if (0 <? length ?s)%nat then Pd.iloc_last ?s else _] =>
        destruct (guarded_iloc_ok s) as [vadx ->]
    end.
    cbn [mbind result_bind].
    match goal with
    | |- context [if (0 <? length ?s)%nat then Pd.iloc_last ?s else _] =>
        destruct (guarded_iloc_ok s) as [vatr ->]
    end.
    cbn [mbind result_bind].
    eexists _, _, _, _, _. split; [reflexivity|]. split; [lia|]. intros _.
    subst vf vs. apply crossover_classified; assumption.
Qed.

(** ** The classifiers over the averages as computed *)




(** With the exact averages the classifiers are those of the exact model. *)
Lemma compute_trend_d1_exact (cfg : StrategyConfig) (df : DataFrame) :
  K._compute_trend_d1 Pd.ewm_mean cfg df = _compute_trend_d1 cfg df.
Proof. reflexivity. Qed.

Lemma compute_trend_h4_exact (cfg : StrategyConfig) (df : DataFrame) :
  K._compute_trend_h4 Pd.ewm_mean _calculate_adx _calculate_atr cfg df
    = _compute_trend_h4 cfg df.
Proof. reflexivity. Qed.




(** ** Monotone closes *)

Lemma Qdiv_lt_cross (n1 d1 n2 d2 : Q) :
  (0 < d1)%Q -> (0 < d2)%Q -> (n1 * d2 < n2 * d1)%Q -> (n1 / d1 < n2 / d2)%Q.
Proof.
  intros H1 H2 H. apply Qlt_shift_div_r; [exact H1|].
  assert (E : (n2 / d2 * d1 == n2 * d1 / d2)%Q) by (field; lra).
  rewrite E. apply Qlt_shift_div_l; assumption.
Qed.

Lemma Qdiv_le_upper (n d x : Q) : (0 < d)%Q -> (n <= x * d)%Q -> (n / d <= x)%Q.
Proof. intros Hd H. apply Qle_shift_div_r; assumption. Qed.

Lemma Qdiv_ge_lower (n d x : Q) : (0 < d)%Q -> (x * d <= n)%Q -> (x <= n / d)%Q.
Proof. intros Hd H. apply Qle_shift_div_l; assumption. Qed.

(** On rising rows the average with the smaller decay ends above the one
    with the larger decay. *)
Lemma ema_rising (f1 f2 : Q) (xs : list Q) :
  (0 <= f1)%Q -> (f1 < f2)%Q ->
  forall prev w1 ow1 w2 ow2,
    (0 < ow1)%Q -> (ow1 <= ow2)%Q -> (w1 <= prev)%Q -> (w2 <= w1)%Q ->
    increasing (prev :: xs) -> xs <> [] ->
    (fst (ema_state f2 w2 ow2 xs) < fst (ema_state f1 w1 ow1 xs))%Q.
Proof.
  intros Hf1 Hf. induction xs as [|x rest IH];
    intros prev w1 ow1 w2 ow2 How1 Hle Hw1 Hw2 Hinc Hne; [congruence|].
  destruct Hinc as [Hx Hinc]. cbn [ema_state].
  set (a1 := (ow1 * f1)%Q). set (a2 := (ow2 * f2)%Q).
  assert (Ha1 : (0 <= a1)%Q) by (unfold a1; nra).
  assert (Ha : (a1 < a2)%Q) by (unfold a1, a2; nra).
  assert (Hup : ((a1 * w1 + x) / (a1 + 1) <= x)%Q).
  { apply Qdiv_le_upper; [lra|]. nra. }
  assert (Hlt : ((a2 * w2 + x) / (a2 + 1) < (a1 * w1 + x) / (a1 + 1))%Q).
  { apply Qdiv_lt_cross; [lra|lra|].
    assert (H1 : (0 <= a1 * a2 * (w1 - w2))%Q).
    { apply Qmult_le_0_compat; [|lra]. apply Qmult_le_0_compat; lra. }
    assert (H2 : (a1 * (x - w1) <= a1 * (x - w2))%Q) by nra.
    assert (H3 : (a1 * (x - w2) < a2 * (x - w2))%Q) by nra.
    nra. }
  destruct rest as [|y rest']; [exact Hlt|].
  apply (IH x); try lra; [exact Hinc|congruence].
Qed.

Lemma ema_falling (f1 f2 : Q) (xs : list Q) :
  (0 <= f1)%Q -> (f1 < f2)%Q ->
  forall prev w1 ow1 w2 ow2,
    (0 < ow1)%Q -> (ow1 <= ow2)%Q -> (prev <= w1)%Q -> (w1 <= w2)%Q ->
    decreasing (prev :: xs) -> xs <> [] ->
    (fst (ema_state f1 w1 ow1 xs) < fst (ema_state f2 w2 ow2 xs))%Q.
Proof.
  intros Hf1 Hf. induction xs as [|x rest IH];
    intros prev w1 ow1 w2 ow2 How1 Hle Hw1 Hw2 Hdec Hne; [congruence|].
  destruct Hdec as [Hx Hdec]. cbn [ema_state].
  set (a1 := (ow1 * f1)%Q). set (a2 := (ow2 * f2)%Q).
  assert (Ha1 : (0 <= a1)%Q) by (unfold a1; nra).
  assert (Ha : (a1 < a2)%Q) by (unfold a1, a2; nra).
  assert (Hlow : (x <= (a1 * w1 + x) / (a1 + 1))%Q).
  { apply Qdiv_ge_lower; [lra|]. nra. }
  assert (Hlt : ((a1 * w1 + x) / (a1 + 1) < (a2 * w2 + x) / (a2 + 1))%Q).
  { apply Qdiv_lt_cross; [lra|lra|].
    assert (H1 : (0 <= a1 * a2 * (w2 - w1))%Q).
    { apply Qmult_le_0_compat; [|lra]. apply Qmult_le_0_compat; lra. }
    assert (H2 : (a1 * (w1 - x) <= a1 * (w2 - x))%Q) by nra.
    assert (H3 : (a1 * (w2 - x) < a2 * (w2 - x))%Q) by nra.
    nra. }
  destruct rest as [|y rest']; [exact Hlt|].
  apply (IH x); try lra; [exact Hdec|congruence].
Qed.

(** With the exact averages of [Pd.ewm_mean]: when the fast period is
    smaller than the slow period and the frame has at least as many rows as
    the slow period, the fast average of strictly rising closes is above
    the slow one and the classifier answers BULLISH, and BEARISH on
    strictly falling closes.  This is a fact of exact arithmetic.  On
    doubles two averages of closes that are a few units in the last place
    apart can come out equal or in the other order, so it does not carry
    over to the answer of the code on every such series. *)
Theorem monotone_closes_classified (cfg : StrategyConfig) (df : DataFrame) :
  "close" ∈ df_columns df ->
  1 <= d1_ema_fast cfg -> d1_ema_fast cfg < d1_ema_slow cfg ->
  d1_ema_slow cfg <= df_len df ->
  (increasing (closes df) -> _compute_trend_d1 cfg df = Ok BULLISH) /\
  (decreasing (closes df) -> _compute_trend_d1 cfg df = Ok BEARISH).
Proof.
  intros Hcol Hf Hlt Hlen.
  assert (Hclen : Z.of_nat (length (closes df)) = df_len df).
  { unfold closes, df_len. rewrite length_fmap. reflexivity. }
  destruct (closes df) as [|x [|y rest]] eqn:Hcl; cbn [length] in Hclen; try lia.
  pose proof (decay_nonneg _ Hf) as Hd0.
  pose proof (decay_lt _ _ Hf Hlt) as Hd.
  rewrite (compute_trend_d1_enough cfg df x (y :: rest)); try assumption; try lia.
  unfold crossover, F.gtb. split; intros Hmono.
  - assert (H : (fst (ema_state (Pd.decay (d1_ema_slow cfg)) x 1 (y :: rest))
                 < fst (ema_state (Pd.decay (d1_ema_fast cfg)) x 1 (y :: rest)))%Q).
    { apply (ema_rising _ _ (y :: rest) Hd0 Hd x); try lra; [exact Hmono|congruence]. }
    apply ltb_Fin in H. rewrite H. reflexivity.
  - assert (H : (fst (ema_state (Pd.decay (d1_ema_fast cfg)) x 1 (y :: rest))
                 < fst (ema_state (Pd.decay (d1_ema_slow cfg)) x 1 (y :: rest)))%Q).
    { apply (ema_falling _ _ (y :: rest) Hd0 Hd x); try lra; [exact Hmono|congruence]. }
    assert (H' : F.ltb (Fin (fst (ema_state (Pd.decay (d1_ema_slow cfg)) x 1 (y :: rest))))
                       (Fin (fst (ema_state (Pd.decay (d1_ema_fast cfg)) x 1 (y :: rest))))
                 = false) by (apply ltb_Fin_false; lra).
    rewrite H'. apply ltb_Fin in H. rewrite H. reflexivity.
Qed.

Lemma monotone_closes_classified_witness :
  _compute_trend_d1 short_config rising_d1 = Ok BULLISH /\
  _compute_trend_d1 short_config falling_d1 = Ok BEARISH.
Proof.
  split.
  - apply (monotone_closes_classified short_config rising_d1);
      first [ solve [repeat constructor] | cbn; lia | apply Z.leb_le; reflexivity ].
  - apply (monotone_closes_classified short_config falling_d1);
      first [ solve [repeat constructor] | cbn; lia | apply Z.leb_le; reflexivity ].
Defined.

(** With the two periods exchanged the answer is the other way round:
    three strictly rising closes, more rows than either period, and the
    classifier answers BEARISH. *)
Lemma swapped_periods_invert_trend :
  increasing (closes rising_d1) /\
  Z.max (d1_ema_fast swapped_config) (d1_ema_slow swapped_config) < df_len rising_d1 /\
  _compute_trend_d1 swapped_config rising_d1 = Ok BEARISH.
Proof.
  split; [cbn; repeat split; reflexivity|]. split; [apply Z.ltb_lt; reflexivity|].
  vm_compute. reflexivity.
Qed.


(** ** The strength oscillator *)

Lemma Forall_zip_with_two {A B C} (P : A -> Prop) (R : B -> Prop) (S : C -> Prop)
    (f : A -> B -> C) (l : list A) (k : list B) :
  (forall x y, P x -> R y -> S (f x y)) ->
  Forall P l -> Forall R k -> Forall S (zip_with f l k).
Proof.
  intros Hf Hl. revert k. induction Hl as [|x l Hx Hl IH]; intros k Hk; [constructor|].
  destruct Hk as [|y k Hy Hk]; [constructor|].
  cbn [zip_with]. constructor; [apply Hf; assumption|apply IH; assumption].
Qed.

Lemma zip_with_fmap_same {A B C D} (f : B -> C -> D) (g : A -> B) (h : A -> C)
    (l : list A) :
  zip_with f (g <$> l) (h <$> l) = (fun x => f (g x) (h x)) <$> l.
Proof. induction l as [|x l IH]; [reflexivity|]. cbn. rewrite IH. reflexivity. Qed.

Lemma Fin_no_infinity (qs : list Q) : Forall no_infinity (Fin <$> qs).
Proof. apply Forall_fmap, Forall_forall. intros q _. exact I. Qed.

Lemma shift1_at_least_any (qs : list Q) :
  Forall no_infinity
         (Pd.shift1 (Fin <$> qs)).
Proof.
  unfold Pd.shift1. apply Forall_take. constructor; [exact I|]. apply Fin_no_infinity.
Qed.

Lemma nanmax_at_least (x y : fval) :
  at_least 0 x -> at_least 0 y -> at_least 0 (Pd.nanmax x y).
Proof.
  destruct x as [| | |a], y as [| | |b]; cbn; try tauto.
  intros Ha Hb. destruct (a ?= b)%Q; assumption.
Qed.

(** Every true range is missing or a number that is not negative. *)
Lemma true_range_at_least (df : DataFrame) :
  Forall valid_bar (df_rows df) ->
  Forall (at_least 0)
    (true_range (Fin <$> highs df) (Fin <$> lows df) (Fin <$> closes df)).
Proof.
  intros Hvalid. unfold true_range, Pd.row_max3.
  assert (Habs : forall qs : list Q,
            Forall (at_least 0) (Pd.abs (Pd.sub (Fin <$> qs) (Pd.shift1 (Fin <$> closes df))))).
  { intros qs. unfold Pd.abs, Pd.sub. apply Forall_fmap.
    apply (Forall_zip_with_two no_infinity no_infinity);
      [|apply Fin_no_infinity|apply shift1_at_least_any].
    intros x y Hx Hy. destruct x as [| | |a]; try contradiction; [exact I|].
    destruct y as [| | |c]; try contradiction; cbn [F.sub F.neg F.add F.abs at_least];
      [exact I|apply Qabs_nonneg]. }
  apply (Forall_zip_with_two (at_least 0) (at_least 0));
    [exact nanmax_at_least| |apply Habs].
  apply (Forall_zip_with_two (at_least 0) (at_least 0));
    [exact nanmax_at_least| |apply Habs].
  unfold Pd.sub, highs, lows. rewrite <- !list_fmap_compose, zip_with_fmap_same.
  apply Forall_fmap. eapply Forall_impl; [exact Hvalid|].
  intros b Hb. unfold valid_bar in Hb. cbn. lra.
Qed.

Lemma dm_zeroing_zip (dp dm : Series) :
  dm_zeroing dp dm = (zip_with zeroed_plus dp dm, zip_with zeroed_minus dp dm).
Proof.
  unfold dm_zeroing, Pd.mask_assign, Pd.lt, Pd.lt_scalar.
  f_equal; apply list_eq; intros i;
    repeat (rewrite lookup_zip_with || rewrite list_lookup_fmap);
    destruct (dp !! i) as [x|], (dm !! i) as [y|]; reflexivity.
Qed.

Lemma zeroed_at_least (x y : fval) :
  no_infinity x -> no_infinity y ->
  at_least 0 (zeroed_plus x y) /\ at_least 0 (zeroed_minus x y).
Proof.
  destruct x as [| | |u], y as [| | |d]; try contradiction; intros _ _.
  - split; exact I.
  - unfold zeroed_minus, zeroed_plus. cbn [F.ltb]. split; [exact I|].
    destruct (Qcompare_spec d 0) as [H|H|H]; cbn; lra.
  - unfold zeroed_minus, zeroed_plus. cbn [F.ltb]. split; [|exact I].
    destruct (Qcompare_spec u 0) as [H|H|H]; cbn; lra.
  - destruct (zeroed_cells u d) as (p & m & -> & -> & Hp & Hm & _). split; assumption.
Qed.

Lemma diff_cells (qs : list Q) :
  Forall no_infinity
         (Pd.diff (Fin <$> qs)).
Proof.
  unfold Pd.diff, Pd.sub.
  apply (Forall_zip_with_two no_infinity no_infinity);
    [|apply Fin_no_infinity|apply shift1_at_least_any].
  intros x y Hx Hy. destruct x as [| | |a]; try contradiction; [exact I|].
  destruct y as [| | |c]; try contradiction; exact I.
Qed.

(** Both directional movements are missing or not negative at every bar. *)
Lemma directional_movement_at_least (hs ls : list Q) :
  Forall (at_least 0) (fst (directional_movement (Fin <$> hs) (Fin <$> ls))) /\
  Forall (at_least 0) (snd (directional_movement (Fin <$> hs) (Fin <$> ls))).
Proof.
  unfold directional_movement. rewrite dm_zeroing_zip. cbn [fst snd].
  assert (Hneg : Forall no_infinity
                   (Pd.neg (Pd.diff (Fin <$> ls)))).
  { unfold Pd.neg. apply Forall_fmap. eapply Forall_impl; [apply diff_cells|].
    intros [| | |q] H; try contradiction; exact I. }
  split; (apply (Forall_zip_with_two no_infinity no_infinity);
          [|apply diff_cells|exact Hneg]);
    intros x y Hx Hy; apply zeroed_at_least; assumption.
Qed.

Lemma finite_values_Forall (P : Q -> Prop) (win : list fval) (qs : list Q) :
  Forall (fun x => match x with Fin q => P q | _ => True end) win ->
  Pd.finite_values win = Some qs -> Forall P qs.
Proof.
  revert qs. induction win as [|x win IH]; intros qs Hall Hfin.
  - cbn in Hfin. injection Hfin as <-. constructor.
  - destruct x as [| | |q]; cbn in Hfin; try discriminate.
    destruct (Pd.finite_values win) as [qs'|] eqn:E; [|discriminate].
    injection Hfin as <-. inversion Hall; subst. constructor; [assumption|].
    apply IH; [assumption|reflexivity].
Qed.

Lemma Qsum_lower (lo : Q) (qs : list Q) :
  Forall (fun q => lo <= q)%Q qs ->
  (inject_Z (Z.of_nat (length qs)) * lo <= Pd.Qsum qs)%Q.
Proof.
  induction 1 as [|q qs Hq _ IH];
    [unfold Pd.Qsum; cbn [length foldr]; change (inject_Z (Z.of_nat 0)) with 0%Q; lra|].
  cbn [length Pd.Qsum foldr]. fold (Pd.Qsum qs).
  rewrite Nat2Z.inj_succ, <- Z.add_1_r, inject_Z_plus. change (inject_Z 1) with 1%Q. lra.
Qed.

Lemma Qsum_upper (hi : Q) (qs : list Q) :
  Forall (fun q => q <= hi)%Q qs ->
  (Pd.Qsum qs <= inject_Z (Z.of_nat (length qs)) * hi)%Q.
Proof.
  induction 1 as [|q qs Hq _ IH];
    [unfold Pd.Qsum; cbn [length foldr]; change (inject_Z (Z.of_nat 0)) with 0%Q; lra|].
  cbn [length Pd.Qsum foldr]. fold (Pd.Qsum qs).
  rewrite Nat2Z.inj_succ, <- Z.add_1_r, inject_Z_plus. change (inject_Z 1) with 1%Q. lra.
Qed.

Lemma window_mean_cases (w : nat) (win : list fval) :
  Pd.window_mean w win = NaN \/
  exists qs, Pd.finite_values win = Some qs /\ length qs = w /\ (0 < w)%nat /\
             Pd.window_mean w win = Fin (Pd.Qsum qs / inject_Z (Z.of_nat w)).
Proof.
  unfold Pd.window_mean. destruct w as [|w]; [left; reflexivity|].
  destruct (Pd.finite_values win) as [qs|]; [|left; reflexivity].
  destruct (length qs =? S w)%nat eqn:E; [|left; reflexivity].
  apply Nat.eqb_eq in E. right. exists qs. repeat split; [exact E|lia].
Qed.

Lemma inject_nat_pos (w : nat) : (0 < w)%nat -> (0 < inject_Z (Z.of_nat w))%Q.
Proof. intros Hw. change 0%Q with (inject_Z 0). rewrite <- Zlt_Qlt. lia. Qed.

Lemma window_mean_at_least (lo : Q) (w : nat) (win : list fval) :
  Forall (at_least lo) win -> at_least lo (Pd.window_mean w win).
Proof.
  intros Hall. destruct (window_mean_cases w win) as [->|(qs & Hfin & Hlen & Hw & ->)];
    [exact I|].
  cbn [at_least]. pose proof (inject_nat_pos w Hw) as Hpos.
  apply Qle_shift_div_l; [exact Hpos|].
  assert (Hqs : Forall (fun q => lo <= q)%Q qs).
  { apply (finite_values_Forall _ win); [|exact Hfin].
    eapply Forall_impl; [exact Hall|]. intros [| | |q] H; try exact I. exact H. }
  pose proof (Qsum_lower lo qs Hqs) as Hsum. rewrite Hlen in Hsum. lra.
Qed.

Lemma window_mean_at_most (hi : Q) (w : nat) (win : list fval) :
  Forall (at_most hi) win -> at_most hi (Pd.window_mean w win).
Proof.
  intros Hall. destruct (window_mean_cases w win) as [->|(qs & Hfin & Hlen & Hw & ->)];
    [exact I|].
  cbn [at_most]. pose proof (inject_nat_pos w Hw) as Hpos.
  apply Qle_shift_div_r; [exact Hpos|].
  assert (Hqs : Forall (fun q => q <= hi)%Q qs).
  { apply (finite_values_Forall _ win); [|exact Hfin].
    eapply Forall_impl; [exact Hall|]. intros [| | |q] H; try exact I. exact H. }
  pose proof (Qsum_upper hi qs Hqs) as Hsum. rewrite Hlen in Hsum. lra.
Qed.

(** A rolling mean stays within the range of its input. *)
Lemma rolling_values_Forall (P : fval -> Prop) (w : nat) (s : Series) :
  (forall win, Forall P win -> P (Pd.window_mean w win)) ->
  Forall P s -> Forall P (Pd.rolling_values w s).
Proof.
  intros Hmean Hs. unfold Pd.rolling_values. apply Forall_fmap, Forall_forall.
  intros i _. cbn. apply Hmean. unfold Pd.window. apply Forall_drop, Forall_take, Hs.
Qed.

Lemma rolling_values_length (w : nat) (s : Series) :
  length (Pd.rolling_values w s) = length s.
Proof. unfold Pd.rolling_values. rewrite length_fmap, length_seq. reflexivity. Qed.

Lemma div_nonneg_cases (n d : Q) :
  (0 <= n)%Q -> (0 <= d)%Q ->
  ((d == 0)%Q /\ (n == 0)%Q /\ F.div (Fin n) (Fin d) = NaN) \/
  ((d == 0)%Q /\ (0 < n)%Q /\ F.div (Fin n) (Fin d) = PInf) \/
  ((0 < d)%Q /\ F.div (Fin n) (Fin d) = Fin (n / d)).
Proof.
  intros Hn Hd. cbn [F.div]. unfold F.sgn.
  destruct (Qcompare_spec d 0) as [Ed|Ed|Ed].
  - destruct (Qcompare_spec n 0) as [En|En|En].
    + left. repeat split; assumption.
    + exfalso. lra.
    + right; left. repeat split; assumption.
  - exfalso. lra.
  - right; right. split; [exact Ed|reflexivity].
Qed.

(** One directional indicator: missing, infinite over a zero range, or a
    number that is not negative over a positive range. *)
Lemma di_cases (a t : fval) :
  at_least 0 a -> at_least 0 t ->
  F.mul (F.div a t) (Fin 100) = NaN \/
  (F.mul (F.div a t) (Fin 100) = PInf /\ exists tq, t = Fin tq /\ (tq == 0)%Q) \/
  (exists x tq, F.mul (F.div a t) (Fin 100) = Fin x /\ (0 <= x)%Q /\
                t = Fin tq /\ (0 < tq)%Q).
Proof.
  intros Ha Ht. destruct a as [| | |aq]; try contradiction; [left; reflexivity|].
  destruct t as [| | |tq]; try contradiction; [left; reflexivity|].
  cbn [at_least] in Ha, Ht.
  destruct (div_nonneg_cases aq tq Ha Ht) as [(_ & _ & ->)|[(Hz & _ & ->)|(Hpos & ->)]].
  - left. reflexivity.
  - right; left. split; [reflexivity|]. exists tq. split; [reflexivity|exact Hz].
  - right; right. exists (aq / tq * 100)%Q, tq. split; [reflexivity|].
    split; [|split; [reflexivity|exact Hpos]].
    assert (0 <= aq / tq)%Q by (apply Qle_shift_div_l; lra). lra.
Qed.

(** One cell of [dx] is missing or lies between 0 and 100. *)
Lemma dx_cell_within (a b t : fval) :
  at_least 0 a -> at_least 0 b -> at_least 0 t ->
  at_least 0 (dx_cell a b t) /\ at_most 100 (dx_cell a b t).
Proof.
  intros Ha Hb Ht. unfold dx_cell.
  destruct (di_cases a t Ha Ht) as [->|[(-> & tq & Et & Hz)|(x & tq & -> & Hx & Et & Hpos)]];
    [split; exact I| |].
  - destruct (di_cases b t Hb Ht)
      as [->|[(-> & _)|(y & tq' & -> & Hy & Et' & Hpos')]]; [split; exact I..|].
    rewrite Et in Et'. injection Et' as <-. exfalso. lra.
  - destruct (di_cases b t Hb Ht)
      as [->|[(-> & tq' & Et' & Hz')|(y & tq' & -> & Hy & _)]]; [split; exact I| |].
    + rewrite Et in Et'. injection Et' as <-. exfalso. lra.
    + cbn [F.sub F.neg F.add F.abs].
      assert (Hn : (0 <= Qabs (x + - y))%Q) by apply Qabs_nonneg.
      assert (Hle : (Qabs (x + - y) <= x + y)%Q)
        by (apply Qabs_Qle_condition; split; lra).
      destruct (div_nonneg_cases (Qabs (x + - y)) (x + y) Hn ltac:(lra))
        as [(_ & _ & ->)|[(Hd & Hnum & _)|(Hd & ->)]].
      * split; exact I.
      * exfalso. lra.
      * cbn [F.mul at_least at_most].
        assert (0 <= Qabs (x + - y) / (x + y))%Q by (apply Qle_shift_div_l; lra).
        assert (Qabs (x + - y) / (x + y) <= 1)%Q by (apply Qle_shift_div_r; lra).
        split; lra.
Qed.

Lemma dx_of_zip (A B T : Series) :
  forall i, dx_of A B T !! i
            = match A !! i, B !! i, T !! i with
              | Some a, Some b, Some t => Some (dx_cell a b t)
              | _, _, _ => None
              end.
Proof.
  intros i. unfold dx_of, Pd.mul_scalar, Pd.div, Pd.abs, Pd.sub, Pd.add.
  repeat (rewrite lookup_zip_with || rewrite list_lookup_fmap).
  destruct (A !! i) as [a|], (B !! i) as [b|], (T !! i) as [t|]; reflexivity.
Qed.

Lemma dx_of_within (A B T : Series) :
  Forall (at_least 0) A -> Forall (at_least 0) B -> Forall (at_least 0) T ->
  Forall (fun x => at_least 0 x /\ at_most 100 x) (dx_of A B T).
Proof.
  intros HA HB HT. apply Forall_lookup. intros i v Hv.
  rewrite dx_of_zip in Hv.
  destruct (A !! i) as [a|] eqn:Ea; [|discriminate].
  destruct (B !! i) as [b|] eqn:Eb; [|discriminate].
  destruct (T !! i) as [t|] eqn:Et; [|discriminate].
  injection Hv as <-.
  apply dx_cell_within; [eapply (proj1 (Forall_lookup _ _) HA); exact Ea
                        |eapply (proj1 (Forall_lookup _ _) HB); exact Eb
                        |eapply (proj1 (Forall_lookup _ _) HT); exact Et].
Qed.

Lemma shift1_fmap_length (qs : list Q) : length (Pd.shift1 (Fin <$> qs)) = length qs.
Proof. rewrite shift1_length, length_fmap. reflexivity. Qed.

Lemma dx_of_length (A B T : Series) (n : nat) :
  length A = n -> length B = n -> length T = n -> length (dx_of A B T) = n.
Proof.
  intros HA HB HT. unfold dx_of, Pd.mul_scalar, Pd.div, Pd.abs, Pd.sub, Pd.add.
  repeat (rewrite length_fmap || rewrite length_zip_with). lia.
Qed.

Lemma directional_movement_length (hs ls : list Q) (n : nat) :
  length hs = n -> length ls = n ->
  length (fst (directional_movement (Fin <$> hs) (Fin <$> ls))) = n /\
  length (snd (directional_movement (Fin <$> hs) (Fin <$> ls))) = n.
Proof.
  intros Hh Hl. unfold directional_movement. rewrite dm_zeroing_zip. cbn [fst snd].
  unfold Pd.neg, Pd.diff, Pd.sub.
  repeat (rewrite length_fmap || rewrite length_zip_with || rewrite shift1_length).
  lia.
Qed.

Lemma true_range_length (hs ls cs : list Q) (n : nat) :
  length hs = n -> length ls = n -> length cs = n ->
  length (true_range (Fin <$> hs) (Fin <$> ls) (Fin <$> cs)) = n.
Proof.
  intros Hh Hl Hc. unfold true_range, Pd.row_max3, Pd.abs, Pd.sub.
  repeat (rewrite length_fmap || rewrite length_zip_with || rewrite shift1_length).
  lia.
Qed.

(** C5: on a frame with its columns whose bars have low <= high, and for
    every period of at least 1, [_calculate_adx] returns one value per bar
    and each value is a number between 0 and 100. *)
Theorem adx_within_bounds (df : DataFrame) (period : Z) :
  "high" ∈ df_columns df -> "low" ∈ df_columns df -> "close" ∈ df_columns df ->
  Forall valid_bar (df_rows df) ->
  1 <= period ->
  exists adx,
    _calculate_adx df period = Ok adx /\
    length adx = length (df_rows df) /\
    Forall (fun x => exists q, x = Fin q /\ (0 <= q)%Q /\ (q <= 100)%Q) adx.
Proof.
  intros Hh Hl Hc Hvalid Hp.
  pose proof (calculate_adx_ok df period Hh Hl Hc ltac:(lia)) as Hadx. cbv zeta in Hadx.
  eexists. split; [exact Hadx|].
  set (n := length (df_rows df)).
  assert (Hhs : length (highs df) = n) by (unfold highs; apply length_fmap).
  assert (Hls : length (lows df) = n) by (unfold lows; apply length_fmap).
  assert (Hcs : length (closes df) = n) by (unfold closes; apply length_fmap).
  destruct (directional_movement_length (highs df) (lows df) n Hhs Hls) as [Lp Lm].
  destruct (directional_movement_at_least (highs df) (lows df)) as [Fp Fm].
  pose proof (true_range_at_least df Hvalid) as Ft.
  pose proof (true_range_length (highs df) (lows df) (closes df) n Hhs Hls Hcs) as Lt.
  split.
  - unfold Pd.fillna. rewrite length_fmap, rolling_values_length.
    apply dx_of_length; rewrite rolling_values_length; assumption.
  - unfold Pd.fillna. apply Forall_fmap.
    eapply Forall_impl.
    + apply (rolling_values_Forall (fun x => at_least 0 x /\ at_most 100 x)).
      * intros win Hwin. split.
        -- apply window_mean_at_least. eapply Forall_impl; [exact Hwin|]. intros x H; apply H.
        -- apply window_mean_at_most. eapply Forall_impl; [exact Hwin|]. intros x H; apply H.
      * apply dx_of_within;
          apply (rolling_values_Forall (at_least 0));
          try (intros win Hwin; apply window_mean_at_least; exact Hwin); assumption.
    + intros x [Hlo Hhi]. cbn.
      destruct x as [| | |q]; try contradiction; cbn.
      * exists 0%Q. repeat split; lra.
      * exists q. repeat split; assumption.
Qed.

Lemma adx_within_bounds_witness :
  exists adx,
    _calculate_adx rising_h4 2 = Ok adx /\
    length adx = length (df_rows rising_h4) /\
    Forall (fun x => exists q, x = Fin q /\ (0 <= q)%Q /\ (q <= 100)%Q) adx.
Proof.
  apply (adx_within_bounds rising_h4 2).
  - repeat constructor.
  - repeat constructor.
  - repeat constructor.
  - unfold rising_h4, valid_bar, bar. cbn [df_rows bar_low bar_high].
    repeat (apply List.Forall_cons;
            [cbn [bar_low bar_high]; rewrite <- Zle_Qle; lia|]).
    apply List.Forall_nil.
  - lia.
Defined.

(** ** The repository's unit tests, replayed *)

Example test_is_trend_confirmed_true :
  _is_trend_confirmed test_config BULLISH BULLISH (Fin 30) = true.
Proof. reflexivity. Qed.

Example test_is_trend_confirmed_false_misaligned_trends :
  _is_trend_confirmed test_config BULLISH BEARISH (Fin 30) = false.
Proof. reflexivity. Qed.

Example test_is_trend_confirmed_false_weak_adx :
  _is_trend_confirmed test_config BULLISH BULLISH (Fin 20) = false.
Proof. reflexivity. Qed.

Example test_compute_trend_d1_insufficient_data :
  _compute_trend_d1 test_config rising_d1 = Ok SIDEWAYS.
Proof. reflexivity. Qed.

Example test_create_signal_bullish :
  let signal := _create_signal test_config 0 "EURUSD" BULLISH US (11 # 10)
                  (Fin (1 # 1000)) (Fin 30) in
  signal_type signal = "buy" /\ F.ltb (default NaN (stop_loss signal)) (Fin (11 # 10)) = true /\
  F.gtb (default NaN (take_profit signal)) (Fin (11 # 10)) = true /\
  F.leb (Fin 0) (strength signal) = true /\ F.leb (strength signal) (Fin 1) = true.
Proof. vm_compute. repeat split. Qed.

Example test_create_signal_bearish :
  let signal := _create_signal test_config 0 "EURUSD" BEARISH EUROPEAN (11 # 10)
                  (Fin (1 # 1000)) (Fin 35) in
  signal_type signal = "sell" /\ F.gtb (default NaN (stop_loss signal)) (Fin (11 # 10)) = true /\
  F.ltb (default NaN (take_profit signal)) (Fin (11 # 10)) = true.
Proof. vm_compute. repeat split. Qed.

Example test_get_strategy_status :
  status_active_signals (get_strategy_status (init test_config) 0) = 0%nat /\
  status_cached_analysis (get_strategy_status (init test_config) 0) = 0%nat /\
  status_name (get_strategy_status (init test_config) 0) = "TestStrategy".
Proof. repeat split. Qed.


(** * Further properties of the strategy *)

(** ** What an analysis that returned tells about its parts *)

Lemma analyze_trend_inv (cfg : StrategyConfig) (d1 h4 : DataFrame) (an : TrendAnalysis) :
  analyze_trend cfg d1 h4 = Ok an ->
  _compute_trend_d1 cfg d1 = Ok (d1_trend an) /\
  _compute_trend_h4 cfg h4
    = Ok (h4_trend an, adx_strength an, ema_fast an, ema_slow an, atr_value an) /\
  trend_confirmation an
    = _is_trend_confirmed cfg (d1_trend an) (h4_trend an) (adx_strength an).
Proof.
  rewrite analyze_trend_reraises. unfold analyze_trend_body. intros H.
  destruct (_compute_trend_d1 cfg d1) as [t1|e]; [|discriminate H].
  destruct (_compute_trend_h4 cfg h4) as [[[[[t4 adx] fast] slow] atr]|e];
    [|discriminate H].
  cbn in H. injection H as <-. cbn. repeat split.
Qed.

Lemma getitem_ok_inv (df : DataFrame) (col : string) (s : Series) :
  getitem df col = Ok s -> col ∈ df_columns df.
Proof.
  unfold getitem. destruct (decide (col ∈ df_columns df)) as [Hin|Hin]; [auto|discriminate].
Qed.

Lemma ewm_mean_ok_inv (span : Z) (s r : Series) :
  Pd.ewm_mean span s = Ok r -> 1 <= span /\ r = Pd.ewm_values (Pd.decay span) s.
Proof.
  unfold Pd.ewm_mean. destruct (span <? 1) eqn:E; [discriminate|].
  apply Z.ltb_ge in E. intros H. injection H as <-. split; [exact E|reflexivity].
Qed.

Lemma rolling_mean_ok_inv (w : Z) (s r : Series) :
  Pd.rolling_mean w s = Ok r -> 0 <= w /\ r = Pd.rolling_values (Z.to_nat w) s.
Proof.
  unfold Pd.rolling_mean. destruct (w <? 0) eqn:E; [discriminate|].
  apply Z.ltb_ge in E. intros H. injection H as <-. split; [exact E|reflexivity].
Qed.

Lemma calculate_adx_ok_inv (df : DataFrame) (period : Z) (adx : Series) :
  _calculate_adx df period = Ok adx ->
  "high" ∈ df_columns df /\ "low" ∈ df_columns df /\ "close" ∈ df_columns df /\
  0 <= period.
Proof.
  unfold _calculate_adx. intros H.
  destruct (getitem df "high") as [hs|e] eqn:Eh; [|discriminate H].
  destruct (getitem df "low") as [ls|e] eqn:El; [|discriminate H].
  destruct (getitem df "close") as [cs|e] eqn:Ec; [|discriminate H].
  cbn [mbind result_bind] in H.
  destruct (directional_movement hs ls) as [dp dm].
  destruct (Pd.rolling_mean period (true_range hs ls cs)) as [atr|e] eqn:Er;
    [|discriminate H].
  apply rolling_mean_ok_inv in Er. destruct Er as [Hp _].
  repeat split; [eapply getitem_ok_inv; eassumption..|exact Hp].
Qed.

Lemma calculate_atr_ok_inv (df : DataFrame) (period : Z) (atr : Series) :
  _calculate_atr df period = Ok atr ->
  "high" ∈ df_columns df /\ "low" ∈ df_columns df /\ "close" ∈ df_columns df /\
  1 <= period.
Proof.
  unfold _calculate_atr. intros H.
  destruct (getitem df "high") as [hs|e] eqn:Eh; [|discriminate H].
  destruct (getitem df "low") as [ls|e] eqn:El; [|discriminate H].
  destruct (getitem df "close") as [cs|e] eqn:Ec; [|discriminate H].
  cbn [mbind result_bind] in H.
  destruct (Pd.ewm_mean period (true_range hs ls cs)) as [r|e] eqn:Er; [|discriminate H].
  apply ewm_mean_ok_inv in Er. destruct Er as [Hp _].
  repeat split; [eapply getitem_ok_inv; eassumption..|exact Hp].
Qed.

(** The H4 pass, once it returned, in terms of the Series it read. *)
Lemma compute_trend_h4_inv (cfg : StrategyConfig) (df : DataFrame)
    (t : TrendDirection) (adx fast slow atr : fval) :
  _compute_trend_h4 cfg df = Ok (t, adx, fast, slow, atr) ->
  (df_len df < Z.max (Z.max (h4_ema_fast cfg) (h4_ema_slow cfg)) (adx_period cfg) /\
   t = SIDEWAYS /\ adx = Fin 0 /\ fast = Fin 0 /\ slow = Fin 0 /\ atr = Fin 0) \/
  (Z.max (Z.max (h4_ema_fast cfg) (h4_ema_slow cfg)) (adx_period cfg) <= df_len df /\
   "high" ∈ df_columns df /\ "low" ∈ df_columns df /\ "close" ∈ df_columns df /\
   1 <= h4_ema_fast cfg /\ 1 <= h4_ema_slow cfg /\
   0 <= adx_period cfg /\ 1 <= atr_period cfg /\
   t = crossover fast slow /\
   exists adx_value atr_value,
     _calculate_adx df (adx_period cfg) = Ok adx_value /\
     _calculate_atr df (atr_period cfg) = Ok atr_value /\
     Pd.iloc_last (Pd.ewm_values (Pd.decay (h4_ema_fast cfg)) (Fin <$> closes df))
       = Ok fast /\
     Pd.iloc_last (Pd.ewm_values (Pd.decay (h4_ema_slow cfg)) (Fin <$> closes df))
       = Ok slow /\
     (if (0 <? length adx_value)%nat then Pd.iloc_last adx_value else Ok (Fin 0)) = Ok adx /\
     (if (0 <? length atr_value)%nat then Pd.iloc_last atr_value else Ok (Fin 0)) = Ok atr).
Proof.
  unfold _compute_trend_h4. intros H.
  destruct (df_len df <? _) eqn:E.
  - apply Z.ltb_lt in E. injection H as <- <- <- <- <-. left. repeat split. exact E.
  - apply Z.ltb_ge in E. right.
    destruct (getitem df "close") as [cs|e] eqn:Ec; [|discriminate H].
    pose proof (getitem_ok_inv _ _ _ Ec) as Hc.
    rewrite getitem_close in Ec by exact Hc. injection Ec as <-.
    cbn [mbind result_bind] in H.
    destruct (Pd.ewm_mean (h4_ema_fast cfg) _) as [sf|e] eqn:Ef; [|discriminate H].
    apply ewm_mean_ok_inv in Ef. destruct Ef as [Hf ->].
    cbn [mbind result_bind] in H.
    destruct (Pd.ewm_mean (h4_ema_slow cfg) _) as [ss|e] eqn:Es; [|discriminate H].
    apply ewm_mean_ok_inv in Es. destruct Es as [Hs ->].
    cbn [mbind result_bind] in H.
    destruct (_calculate_adx df (adx_period cfg)) as [adx_value|e] eqn:Eadx;
      [|discriminate H].
    cbn [mbind result_bind] in H.
    destruct (_calculate_atr df (atr_period cfg)) as [atr_v|e] eqn:Eatr;
      [|discriminate H].
    cbn [mbind result_bind] in H.
    destruct (Pd.iloc_last (Pd.ewm_values (Pd.decay (h4_ema_fast cfg)) _))
      as [lf|e] eqn:Elf; [|discriminate H].
    cbn [mbind result_bind] in H.
    destruct (Pd.iloc_last (Pd.ewm_values (Pd.decay (h4_ema_slow cfg)) _))
      as [ls|e] eqn:Els; [|discriminate H].
    cbn [mbind result_bind] in H.
    destruct (if (0 <? length adx_value)%nat then _ else _) as [la|e] eqn:Ela;
      [|discriminate H].
    cbn [mbind result_bind] in H.
    destruct (if (0 <? length atr_v)%nat then _ else _) as [lt|e] eqn:Elt;
      [|discriminate H].
    cbn [mbind result_bind] in H. injection H as <- <- <- <- <-.
    destruct (calculate_adx_ok_inv _ _ _ Eadx) as (Hh & Hl & _ & Hadx).
    destruct (calculate_atr_ok_inv _ _ _ Eatr) as (_ & _ & _ & Hatr).
    repeat split; try assumption.
    exists adx_value, atr_v. repeat split; assumption.
Qed.

(** The parts of a returned analysis agree with each other. *)
Lemma analysis_parts_consistent (cfg : StrategyConfig) (d1 h4 : DataFrame)
    (an : TrendAnalysis) :
  analyze_trend cfg d1 h4 = Ok an ->
  h4_trend an = crossover (ema_fast an) (ema_slow an) /\
  trend_confirmation an
    = _is_trend_confirmed cfg (d1_trend an) (h4_trend an) (adx_strength an) /\
  (trend_confirmation an = true ->
     d1_trend an = h4_trend an /\ d1_trend an <> SIDEWAYS /\
     meets_threshold (adx_strength an) (adx_threshold cfg)).
Proof.
  intros Hok. destruct (analyze_trend_inv _ _ _ _ Hok) as (_ & H4 & Hconf).
  split; [|split; [exact Hconf|]].
  - destruct (compute_trend_h4_inv _ _ _ _ _ _ _ H4)
      as [(_ & -> & _ & -> & -> & _)|(_ & _ & _ & _ & _ & _ & _ & _ & Ht & _)];
      [reflexivity|exact Ht].
  - rewrite Hconf. unfold _is_trend_confirmed.
    rewrite !andb_true_iff, !bool_decide_eq_true, geb_meets_threshold. tauto.
Qed.

(** X: every analysis [analyze_trend] returns is consistent with itself:
    its H4 trend is the crossover of the two averages it reports, its
    confirmation flag is the confirmation rule on its own fields, and a
    confirmed analysis has equal, non-SIDEWAYS trends. *)
Theorem analysis_consistent (cfg : StrategyConfig) (d1 h4 : DataFrame)
    (an : TrendAnalysis) :
  analyze_trend cfg d1 h4 = Ok an ->
  h4_trend an = crossover (ema_fast an) (ema_slow an) /\
  trend_confirmation an
    = _is_trend_confirmed cfg (d1_trend an) (h4_trend an) (adx_strength an) /\
  (trend_confirmation an = true ->
     d1_trend an = h4_trend an /\ d1_trend an <> SIDEWAYS /\
     meets_threshold (adx_strength an) (adx_threshold cfg)).
Proof. apply analysis_parts_consistent. Qed.

Lemma analysis_consistent_witness :
  exists an,
    analyze_trend short_config rising_d1 rising_h4 = Ok an /\
    h4_trend an = crossover (ema_fast an) (ema_slow an) /\
    trend_confirmation an
      = _is_trend_confirmed short_config (d1_trend an) (h4_trend an) (adx_strength an).
Proof.
  eexists. split; [vm_compute; reflexivity|].
  match goal with
  | |- h4_trend ?a = _ /\ _ =>
      destruct (analysis_consistent short_config rising_d1 rising_h4 a) as (H1 & H2 & _);
      [vm_compute; reflexivity|split; assumption]
  end.
Defined.

(** ** Not enough history *)

(** X: when both frames are shorter than their history thresholds,
    [analyze_trend] reads no column at all and returns the neutral
    analysis; [generate_signal] then emits nothing and caches it. *)
Theorem short_history_is_neutral (st : Strategy) (now : Z) (sym : string)
    (d1 h4 : DataFrame) (sess : SessionType) (p : Q) :
  df_len d1 < Z.max (d1_ema_fast (config st)) (d1_ema_slow (config st)) ->
  df_len h4 < Z.max (Z.max (h4_ema_fast (config st)) (h4_ema_slow (config st)))
                    (adx_period (config st)) ->
  analyze_trend (config st) d1 h4 = Ok neutral_analysis /\
  fst (generate_signal st now sym d1 h4 sess p) = None /\
  trend_cache (snd (generate_signal st now sym d1 h4 sess p)) !! sym
    = Some neutral_analysis.
Proof.
  intros H1 H4.
  assert (Hok : analyze_trend (config st) d1 h4 = Ok neutral_analysis).
  { rewrite analyze_trend_reraises. unfold analyze_trend_body, _compute_trend_d1,
      _compute_trend_h4.
    apply Z.ltb_lt in H1, H4. rewrite H1, H4. reflexivity. }
  split; [exact Hok|]. unfold generate_signal. rewrite Hok. cbn. split; [reflexivity|].
  apply lookup_insert_eq.
Qed.

Lemma short_history_is_neutral_witness :
  analyze_trend (config (init test_config)) empty_frame rising_d1 = Ok neutral_analysis /\
  fst (generate_signal (init test_config) 0 "EURUSD" empty_frame rising_d1 US 1) = None /\
  trend_cache (snd (generate_signal (init test_config) 0 "EURUSD" empty_frame rising_d1
                      US 1)) !! "EURUSD" = Some neutral_analysis.
Proof.
  apply (short_history_is_neutral (init test_config) 0 "EURUSD" empty_frame rising_d1 US 1);
    apply Z.ltb_lt; reflexivity.
Defined.

(** ** What a signal carries *)

(** X: [generate_signal] emits a signal exactly when the analysis returned
    and is confirmed; the signal is "buy" for a BULLISH and "sell" for a
    BEARISH daily trend (a confirmed trend is never SIDEWAYS), carries the
    caller's symbol, session, price and clock reading unchanged, leaves
    [risk_amount] unset and snapshots the analysis in its metadata. *)
Theorem signal_iff_confirmed (st : Strategy) (now : Z) (sym : string)
    (d1 h4 : DataFrame) (sess : SessionType) (p : Q) (sig : SignalData) :
  fst (generate_signal st now sym d1 h4 sess p) = Some sig <->
  exists an,
    analyze_trend (config st) d1 h4 = Ok an /\
    trend_confirmation an = true /\
    d1_trend an <> SIDEWAYS /\
    signal_type sig = (if decide (d1_trend an = BULLISH) then "buy" else "sell") /\
    symbol sig = sym /\ session sig = sess /\ price sig = p /\ timestamp sig = now /\
    risk_amount sig = None /\
    metadata sig = Some {| md_atr_value := atr_value an;
                           md_adx_strength := adx_strength an;
                           md_trend_d1 := trend_value (d1_trend an);
                           md_atr_multiplier := atr_multiplier (config st) |} /\
    sig = _create_signal (config st) now sym (d1_trend an) sess p
            (atr_value an) (adx_strength an).
Proof.
  unfold generate_signal. split.
  - destruct (analyze_trend (config st) d1 h4) as [an|e] eqn:Hok; [|discriminate].
    cbn [fst]. destruct (trend_confirmation an) eqn:Hconf; [|discriminate].
    intros H. injection H as <-. exists an.
    destruct (analysis_parts_consistent _ _ _ _ Hok) as (_ & _ & Himp).
    destruct (Himp Hconf) as (_ & Hside & _).
    split; [reflexivity|]. split; [exact Hconf|]. split; [exact Hside|].
    unfold _create_signal.
    destruct (decide (d1_trend an = BULLISH)); cbn; repeat split.
  - intros (an & Hok & Hconf & _ & _ & _ & _ & _ & _ & _ & _ & ->).
    rewrite Hok. cbn [fst]. rewrite Hconf. reflexivity.
Qed.

(** ** Calling twice *)

(** X: a second [generate_signal] call with the same inputs returns the
    same signal and leaves the strategy exactly as the first call left it. *)
Theorem generate_signal_idempotent (st : Strategy) (now : Z) (sym : string)
    (d1 h4 : DataFrame) (sess : SessionType) (p : Q) :
  let first := generate_signal st now sym d1 h4 sess p in
  generate_signal (snd first) now sym d1 h4 sess p = first.
Proof.
  cbv zeta. unfold generate_signal.
  destruct (analyze_trend (config st) d1 h4) as [an|e] eqn:Hok; cbn [snd config].
  - rewrite Hok. cbn [trend_cache active_signals]. rewrite insert_insert_eq. reflexivity.
  - rewrite Hok. reflexivity.
Qed.

(** The configuration of a strategy never changes, whatever is called
    on it. *)
Lemma step_config (st : Strategy) (c : Call) : config (step st c) = config st.
Proof.
  destruct c as [d1 h4|now sym d1 h4 sess p|now]; cbn [step]; try reflexivity.
  unfold generate_signal. destruct (analyze_trend (config st) d1 h4); reflexivity.
Qed.

Lemma run_config (calls : list Call) (st : Strategy) : config (run st calls) = config st.
Proof.
  revert st. induction calls as [|c calls IH]; intros st; [reflexivity|].
  cbn [run foldl]. fold (run (step st c) calls). rewrite IH. apply step_config.
Qed.

(** ** The status snapshot *)

Lemma run_cache_dom (calls : list Call) (st : Strategy) :
  dom (trend_cache (run st calls))
    = dom (trend_cache st) ∪ cached_symbols (config st) calls.
Proof.
  revert st. induction calls as [|c calls IH]; intros st.
  - cbn. set_solver.
  - cbn [run foldl]. fold (run (step st c) calls). rewrite IH, step_config.
    destruct c as [d1 h4|now sym d1 h4 sess p|now]; cbn [step cached_symbols];
      try reflexivity.
    unfold generate_signal.
    destruct (analyze_trend (config st) d1 h4) as [an|e]; cbn [snd trend_cache];
      [|reflexivity].
    rewrite dom_insert_L. set_solver.
Qed.

Lemma cached_symbols_size (cfg : StrategyConfig) (calls : list Call) :
  (size (cached_symbols cfg calls) <= generate_calls calls)%nat.
Proof.
  induction calls as [|c calls IH]; [cbn; rewrite size_empty; lia|].
  destruct c as [d1 h4|now sym d1 h4 sess p|now]; cbn [cached_symbols generate_calls];
    try exact IH.
  destruct (analyze_trend cfg d1 h4); [|lia].
  pose proof (size_union_alt {[sym]} (cached_symbols cfg calls)) as Hu.
  assert (Hd : (size (cached_symbols cfg calls ∖ {[sym]}) <= size (cached_symbols cfg calls))%nat)
    by (apply subseteq_size; set_solver).
  rewrite Hu, size_singleton. lia.
Qed.

(** X: after any sequence of calls on a fresh strategy, the status snapshot
    reports as [cached_analysis] the number of distinct symbols whose
    analysis succeeded, which is at most the number of [generate_signal]
    calls; the reported name and configuration are the ones given at
    construction. *)
Theorem status_counts_cached_symbols (cfg : StrategyConfig) (calls : list Call)
    (now : Z) :
  let status := get_strategy_status (run (init cfg) calls) now in
  status_cached_analysis status = size (cached_symbols cfg calls) /\
  (status_cached_analysis status <= generate_calls calls)%nat /\
  status_config status = cfg /\ status_name status = name cfg.
Proof.
  cbv zeta. unfold get_strategy_status. cbn [status_cached_analysis status_config status_name].
  rewrite run_config. cbn [init config].
  assert (Hsize : size (trend_cache (run (init cfg) calls)) = size (cached_symbols cfg calls)).
  { rewrite <- size_dom, run_cache_dom. cbn [init trend_cache config].
    rewrite dom_empty_L, (left_id_L ∅ (∪)). reflexivity. }
  rewrite Hsize. repeat split. apply cached_symbols_size.
Qed.

(** ** Exceptions of the classifiers *)

(** X: the daily classifier raises exactly when the frame has enough rows
    and either lacks its close column ([KeyError "close"]) or one of the two
    EMA periods is below 1 ([ValueError]); on a short frame it never raises,
    whatever the columns and periods, and it never raises [IndexError]. *)
Theorem compute_trend_d1_exceptions (cfg : StrategyConfig) (df : DataFrame) :
  match _compute_trend_d1 cfg df with
  | Ok _ =>
      df_len df < Z.max (d1_ema_fast cfg) (d1_ema_slow cfg) \/
      ("close" ∈ df_columns df /\ 1 <= d1_ema_fast cfg /\ 1 <= d1_ema_slow cfg)
  | Raise (KeyError key) =>
      key = "close" /\ ("close" ∉ df_columns df) /\
      Z.max (d1_ema_fast cfg) (d1_ema_slow cfg) <= df_len df
  | Raise (ValueError _) =>
      "close" ∈ df_columns df /\ (d1_ema_fast cfg < 1 \/ d1_ema_slow cfg < 1) /\
      Z.max (d1_ema_fast cfg) (d1_ema_slow cfg) <= df_len df
  | Raise (IndexError _) => False
  end.
Proof.
  destruct (Z_lt_le_dec (df_len df) (Z.max (d1_ema_fast cfg) (d1_ema_slow cfg)))
    as [Hshort|Hlong].
  { unfold _compute_trend_d1. pose proof Hshort as Hb. apply Z.ltb_lt in Hb.
    rewrite Hb. left. exact Hshort. }
  destruct (decide ("close" ∈ df_columns df)) as [Hc|Hc].
  2:{ unfold _compute_trend_d1.
      destruct (df_len df <? _) eqn:E; [apply Z.ltb_lt in E; lia|].
      unfold getitem. rewrite decide_False by exact Hc. cbn. repeat split; assumption. }
  destruct (Z_lt_le_dec (d1_ema_fast cfg) 1) as [Hf|Hf].
  { unfold _compute_trend_d1.
    destruct (df_len df <? _) eqn:E; [apply Z.ltb_lt in E; lia|].
    rewrite getitem_close by exact Hc. cbn [mbind result_bind].
    unfold Pd.ewm_mean. pose proof Hf as Hb. apply Z.ltb_lt in Hb. rewrite Hb. cbn.
    repeat split; [exact Hc|left; exact Hf|exact Hlong]. }
  destruct (Z_lt_le_dec (d1_ema_slow cfg) 1) as [Hs|Hs].
  { unfold _compute_trend_d1.
    destruct (df_len df <? _) eqn:E; [apply Z.ltb_lt in E; lia|].
    rewrite getitem_close by exact Hc. cbn [mbind result_bind].
    rewrite (ewm_mean_ok (d1_ema_fast cfg)) by exact Hf. cbn [mbind result_bind].
    unfold Pd.ewm_mean. pose proof Hs as Hb. apply Z.ltb_lt in Hb. rewrite Hb. cbn.
    repeat split; [exact Hc|right; exact Hs|exact Hlong]. }
  destruct (compute_trend_d1_spec cfg df Hc Hf Hs) as (t & -> & _).
  right. repeat split; assumption.
Qed.

(** X: with the columns in place and every period at least 1,
    [analyze_trend] returns an analysis for frames of any length, the
    empty frame included, and [generate_signal] caches it. *)
Theorem analyze_trend_returns (st : Strategy) (now : Z) (sym : string)
    (d1 h4 : DataFrame) (sess : SessionType) (p : Q) :
  "close" ∈ df_columns d1 ->
  "high" ∈ df_columns h4 -> "low" ∈ df_columns h4 -> "close" ∈ df_columns h4 ->
  1 <= d1_ema_fast (config st) -> 1 <= d1_ema_slow (config st) ->
  1 <= h4_ema_fast (config st) -> 1 <= h4_ema_slow (config st) ->
  1 <= adx_period (config st) -> 1 <= atr_period (config st) ->
  exists an,
    analyze_trend (config st) d1 h4 = Ok an /\
    trend_cache (snd (generate_signal st now sym d1 h4 sess p)) !! sym = Some an.
Proof.
  intros Hc1 Hh Hl Hc Hf1 Hs1 Hf4 Hs4 Hadx Hatr.
  destruct (compute_trend_d1_spec (config st) d1 Hc1 Hf1 Hs1) as (t1 & E1 & _).
  destruct (compute_trend_h4_spec (config st) h4 Hh Hl Hc Hf4 Hs4 ltac:(lia) Hatr)
    as (t4 & adx & fast & slow & atr & E4 & _).
  eexists. split.
  - rewrite analyze_trend_reraises. unfold analyze_trend_body.
    rewrite E1. cbn [mbind result_bind]. rewrite E4. cbn [mbind result_bind]. reflexivity.
  - unfold generate_signal. rewrite analyze_trend_reraises. unfold analyze_trend_body.
    rewrite E1. cbn [mbind result_bind]. rewrite E4. cbn [mbind result_bind snd trend_cache].
    apply lookup_insert_eq.
Qed.

Lemma analyze_trend_returns_witness :
  exists an,
    analyze_trend (config (init short_config))
      {| df_columns := ohlc; df_rows := [] |} rising_h4 = Ok an /\
    trend_cache (snd (generate_signal (init short_config) 0 "EURUSD"
                        {| df_columns := ohlc; df_rows := [] |} rising_h4 US 16))
      !! "EURUSD" = Some an.
Proof.
  apply (analyze_trend_returns (init short_config) 0 "EURUSD"
           {| df_columns := ohlc; df_rows := [] |} rising_h4 US 16);
    first [ solve [repeat constructor] | apply Z.leb_le; reflexivity ].
Defined.

(** ** The risk metric *)

Lemma nanmax_Fin (a b : Q) : Pd.nanmax (Fin a) (Fin b) = Fin (qmax a b).
Proof. unfold Pd.nanmax, qmax. cbn [F.ltb]. destruct (a ?= b)%Q; reflexivity. Qed.

Lemma qmax_ge_l (a b : Q) : (a <= qmax a b)%Q.
Proof. unfold qmax. destruct (Qcompare_spec a b); lra. Qed.

Lemma qmax_ge_r (a b : Q) : (b <= qmax a b)%Q.
Proof. unfold qmax. destruct (Qcompare_spec a b); lra. Qed.

Lemma qmax_cases (a b : Q) : qmax a b = a \/ qmax a b = b.
Proof. unfold qmax. destruct (a ?= b)%Q; auto. Qed.

Lemma true_range_from (rows : list Bar) :
  forall pc : Q,
    Pd.row_max3
      (Pd.sub (Fin <$> (bar_high <$> rows)) (Fin <$> (bar_low <$> rows)))
      (Pd.abs (Pd.sub (Fin <$> (bar_high <$> rows))
                 (take (length rows) (Fin pc :: (Fin <$> (bar_close <$> rows))))))
      (Pd.abs (Pd.sub (Fin <$> (bar_low <$> rows))
                 (take (length rows) (Fin pc :: (Fin <$> (bar_close <$> rows))))))
    = Fin <$> tr_from pc rows.
Proof.
  induction rows as [|b rows IH]; intros pc; [reflexivity|].
  specialize (IH (bar_close b)).
  unfold Pd.row_max3, Pd.sub, Pd.abs in *.
  cbn [fmap list_fmap length take zip_with tr_from F.sub F.neg F.add F.abs].
  rewrite !nanmax_Fin. f_equal. exact IH.
Qed.

(** The true range the two indicators compute is a Series of numbers. *)
Lemma true_range_values (df : DataFrame) :
  true_range (Fin <$> highs df) (Fin <$> lows df) (Fin <$> closes df)
    = Fin <$> tr_values (df_rows df).
Proof.
  unfold true_range, highs, lows, closes, Pd.shift1.
  destruct (df_rows df) as [|b rows]; [reflexivity|].
  pose proof (true_range_from rows (bar_close b)) as Haux.
  unfold Pd.row_max3, Pd.sub, Pd.abs in *.
  cbn [fmap list_fmap length take zip_with tr_values F.sub F.neg F.add F.abs Pd.nanmax].
  rewrite !length_fmap. f_equal. exact Haux.
Qed.

Lemma tr_from_nonneg (rows : list Bar) :
  forall pc, Forall (fun t => 0 <= t)%Q (tr_from pc rows).
Proof.
  induction rows as [|b rows IH]; intros pc; cbn [tr_from]; constructor; [|apply IH].
  pose proof (Qabs_nonneg (bar_low b + - pc)).
  pose proof (qmax_ge_r (qmax (bar_high b + - bar_low b) (Qabs (bar_high b + - pc)))
                (Qabs (bar_low b + - pc))).
  lra.
Qed.

Lemma tr_values_nonneg (rows : list Bar) :
  Forall valid_bar rows -> Forall (fun t => 0 <= t)%Q (tr_values rows).
Proof.
  intros Hvalid. destruct Hvalid as [|b rows Hb _]; cbn [tr_values]; constructor.
  - unfold valid_bar in Hb. lra.
  - apply tr_from_nonneg.
Qed.

Lemma tr_from_length (rows : list Bar) : forall pc, length (tr_from pc rows) = length rows.
Proof. induction rows as [|b rows IH]; intros pc; cbn; [reflexivity|]. rewrite IH. reflexivity. Qed.

Lemma tr_values_length (rows : list Bar) : length (tr_values rows) = length rows.
Proof. destruct rows as [|b rows]; cbn; [reflexivity|]. rewrite tr_from_length. reflexivity. Qed.

Lemma ewm_loop_trace (f : Q) (xs : list Q) :
  (0 <= f)%Q ->
  forall w ow, (0 < ow)%Q ->
    Pd.ewm_loop f (Fin w) ow (Fin <$> xs) = Fin <$> ema_trace f w ow xs.
Proof.
  intros Hf. induction xs as [|x rest IH]; intros w ow How; [reflexivity|].
  cbn [fmap list_fmap Pd.ewm_loop F.is_nan ema_trace F.mul F.add].
  assert (Hpos : (0 < ow * f + 1)%Q) by nra.
  rewrite div_Fin_pos by exact Hpos. f_equal. apply IH. exact Hpos.
Qed.

Lemma ewm_values_Fin (f : Q) (xs : list Q) :
  (0 <= f)%Q -> Pd.ewm_values f (Fin <$> xs) = Fin <$> ema_values f xs.
Proof.
  intros Hf. destruct xs as [|x rest]; [reflexivity|].
  cbn [fmap list_fmap Pd.ewm_values ema_values]. f_equal.
  apply ewm_loop_trace; [exact Hf|lra].
Qed.

Lemma ema_trace_length (f : Q) (xs : list Q) :
  forall w ow, length (ema_trace f w ow xs) = length xs.
Proof.
  induction xs as [|x rest IH]; intros w ow; cbn; [reflexivity|]. rewrite IH. reflexivity.
Qed.

Lemma ema_values_length (f : Q) (xs : list Q) : length (ema_values f xs) = length xs.
Proof. destruct xs; cbn; [reflexivity|]. rewrite ema_trace_length. reflexivity. Qed.

(** A running average stays between bounds that hold for every row. *)
Lemma ema_trace_within (f lo hi : Q) (xs : list Q) :
  (0 <= f)%Q ->
  forall w ow, (0 < ow)%Q -> (lo <= w <= hi)%Q ->
    Forall (fun x => lo <= x <= hi)%Q xs ->
    Forall (fun x => lo <= x <= hi)%Q (ema_trace f w ow xs).
Proof.
  intros Hf. induction xs as [|x rest IH]; intros w ow How Hw Hxs; [constructor|].
  inversion Hxs as [|? ? Hx Hrest]; subst. cbn [ema_trace].
  assert (Ha : (0 <= ow * f)%Q) by nra.
  set (a := (ow * f)%Q) in *.
  assert (Hpos : (0 < a + 1)%Q) by lra.
  destruct Hw as [Hw1 Hw2]. destruct Hx as [Hx1 Hx2].
  assert (Hnew : (lo <= (a * w + x) / (a + 1) <= hi)%Q).
  { split; [apply Qle_shift_div_l|apply Qle_shift_div_r]; try exact Hpos; nra. }
  constructor; [exact Hnew|]. apply IH; assumption.
Qed.

Lemma fillna_Fin (qs : list Q) (v : Q) : Pd.fillna (Fin <$> qs) v = Fin <$> qs.
Proof.
  unfold Pd.fillna. rewrite <- list_fmap_compose. apply list_fmap_ext. reflexivity.
Qed.

(** The whole risk-metric Series, as numbers. *)
Lemma calculate_atr_values (df : DataFrame) (period : Z) :
  "high" ∈ df_columns df -> "low" ∈ df_columns df -> "close" ∈ df_columns df ->
  1 <= period ->
  _calculate_atr df period
    = Ok (Fin <$> ema_values (Pd.decay period) (tr_values (df_rows df))).
Proof.
  intros Hh Hl Hc Hp. rewrite calculate_atr_ok by assumption.
  rewrite true_range_values, ewm_values_Fin by (apply decay_nonneg; exact Hp).
  rewrite fillna_Fin. reflexivity.
Qed.

Lemma Forall_le_trans (lo hi : Q) (xs : list Q) :
  Forall (fun x => lo <= x)%Q xs -> Forall (fun x => x <= hi)%Q xs ->
  Forall (fun x => lo <= x <= hi)%Q xs.
Proof.
  intros Hlo Hhi. apply Forall_forall. intros x Hx. split.
  - exact (proj1 (Forall_forall _ _) Hlo x Hx).
  - exact (proj1 (Forall_forall _ _) Hhi x Hx).
Qed.

(** A running average of values that are not negative is not negative. *)
Lemma ema_trace_nonneg (f : Q) (xs : list Q) :
  (0 <= f)%Q ->
  forall w ow, (0 < ow)%Q -> (0 <= w)%Q ->
    Forall (fun x => 0 <= x)%Q xs ->
    Forall (fun x => 0 <= x)%Q (ema_trace f w ow xs).
Proof.
  intros Hf. induction xs as [|x rest IH]; intros w ow How Hw Hxs; [constructor|].
  inversion Hxs as [|? ? Hx Hrest]; subst. cbn [ema_trace].
  assert (Ha : (0 <= ow * f)%Q) by nra.
  set (a := (ow * f)%Q) in *.
  assert (Hpos : (0 < a + 1)%Q) by lra.
  assert (Haw : (0 <= a * w)%Q) by nra.
  assert (Hnew : (0 <= (a * w + x) / (a + 1))%Q).
  { apply Qle_shift_div_l; [exact Hpos|]. lra. }
  constructor; [exact Hnew|]. apply IH; [lra|exact Hnew|exact Hrest].
Qed.

(** X: on a frame with its columns whose bars have low <= high, and for
    every period of at least 1, [_calculate_atr] returns one value per bar,
    none of them missing and none below zero. *)
Theorem atr_nonnegative (df : DataFrame) (period : Z) :
  "high" ∈ df_columns df -> "low" ∈ df_columns df -> "close" ∈ df_columns df ->
  Forall valid_bar (df_rows df) ->
  1 <= period ->
  exists atr,
    _calculate_atr df period = Ok atr /\
    length atr = length (df_rows df) /\
    Forall nonneg atr.
Proof.
  intros Hh Hl Hc Hvalid Hp.
  exists (Fin <$> ema_values (Pd.decay period) (tr_values (df_rows df))).
  split; [apply calculate_atr_values; assumption|].
  split; [rewrite length_fmap, ema_values_length; apply tr_values_length|].
  apply Forall_fmap.
  pose proof (tr_values_nonneg _ Hvalid) as Hall.
  destruct (tr_values (df_rows df)) as [|t ts]; [constructor|].
  inversion Hall as [|? ? Ht Hts]; subst.
  cbn [ema_values]. constructor; [exact Ht|].
  apply (ema_trace_nonneg _ ts (decay_nonneg _ Hp)); [lra|exact Ht|exact Hts].
Qed.

Lemma atr_nonnegative_witness :
  exists atr,
    _calculate_atr rising_h4 14 = Ok atr /\
    length atr = length (df_rows rising_h4) /\
    Forall nonneg atr.
Proof.
  apply (atr_nonnegative rising_h4 14).
  - repeat constructor.
  - repeat constructor.
  - repeat constructor.
  - unfold rising_h4, valid_bar, bar. cbn [df_rows bar_low bar_high].
    repeat (apply List.Forall_cons;
            [cbn [bar_low bar_high]; rewrite <- Zle_Qle; lia|]).
    apply List.Forall_nil.
  - lia.
Defined.

(** ** Warm-up of the strength oscillator *)

Lemma finite_values_nan (l : list fval) : NaN ∈ l -> Pd.finite_values l = None.
Proof.
  induction l as [|x l IH]; intros Hin; [inversion Hin|].
  destruct x as [| | |q]; try reflexivity.
  cbn [Pd.finite_values]. rewrite IH; [reflexivity|].
  apply elem_of_cons in Hin as [Hin|Hin]; [discriminate Hin|exact Hin].
Qed.

Lemma window_mean_nan (w : nat) (win : list fval) :
  NaN ∈ win -> Pd.window_mean w win = NaN.
Proof.
  intros Hin. unfold Pd.window_mean. rewrite finite_values_nan by exact Hin.
  destruct w; reflexivity.
Qed.

Lemma window_elem (w i j : nat) (s : Series) (x : fval) :
  s !! j = Some x -> (S i - w <= j)%nat -> (j <= i)%nat -> x ∈ Pd.window w i s.
Proof.
  intros Hx Hlo Hhi. unfold Pd.window. apply list_elem_of_lookup.
  exists (j - (S i - w))%nat. rewrite lookup_drop.
  replace (S i - w + (j - (S i - w)))%nat with j by lia.
  rewrite lookup_take_lt by lia. exact Hx.
Qed.

Lemma rolling_values_lookup (w i : nat) (s : Series) :
  (i < length s)%nat ->
  Pd.rolling_values w s !! i = Some (Pd.window_mean w (Pd.window w i s)).
Proof.
  intros Hi. unfold Pd.rolling_values.
  rewrite list_lookup_fmap, lookup_seq_lt by exact Hi. reflexivity.
Qed.

(** A missing value blanks every window that covers it. *)
Lemma rolling_values_nan (w i j : nat) (s : Series) :
  s !! j = Some NaN -> (i < length s)%nat -> (S i - w <= j)%nat -> (j <= i)%nat ->
  Pd.rolling_values w s !! i = Some NaN.
Proof.
  intros Hj Hi Hlo Hhi. rewrite rolling_values_lookup by exact Hi.
  rewrite window_mean_nan; [reflexivity|]. eapply window_elem; eassumption.
Qed.

Lemma directional_movement_first (hs ls : list Q) :
  hs <> [] -> ls <> [] ->
  fst (directional_movement (Fin <$> hs) (Fin <$> ls)) !! 0%nat = Some NaN.
Proof.
  intros Hh Hl. unfold directional_movement.
  assert (Hneg : Pd.neg (Pd.diff (Fin <$> ls)) !! 0%nat = Some NaN).
  { unfold Pd.neg. rewrite list_lookup_fmap, diff_lookup_0 by exact Hl. reflexivity. }
  destruct (dm_zeroing_lookup _ _ 0%nat NaN NaN (diff_lookup_0 hs Hh) Hneg) as [Hp _].
  exact Hp.
Qed.

(** The oscillator before [fillna], its length and the range of its cells. *)
Lemma calculate_adx_cells (df : DataFrame) (period : Z) :
  "high" ∈ df_columns df -> "low" ∈ df_columns df -> "close" ∈ df_columns df ->
  0 <= period ->
  let w := Z.to_nat period in
  let dm := directional_movement (Fin <$> highs df) (Fin <$> lows df) in
  let tr := true_range (Fin <$> highs df) (Fin <$> lows df) (Fin <$> closes df) in
  let dx := dx_of (Pd.rolling_values w (fst dm)) (Pd.rolling_values w (snd dm))
                  (Pd.rolling_values w tr) in
  _calculate_adx df period = Ok (Pd.fillna (Pd.rolling_values w dx) 0) /\
  length dx = length (df_rows df) /\
  length (fst dm) = length (df_rows df) /\
  (Forall valid_bar (df_rows df) ->
   Forall (fun x => exists q, x = Fin q /\ (0 <= q)%Q /\ (q <= 100)%Q)
          (Pd.fillna (Pd.rolling_values w dx) 0)).
Proof.
  intros Hh Hl Hc Hp. cbv zeta.
  pose proof (calculate_adx_ok df period Hh Hl Hc Hp) as Hadx. cbv zeta in Hadx.
  set (n := length (df_rows df)).
  assert (Hhs : length (highs df) = n) by (unfold highs; apply length_fmap).
  assert (Hls : length (lows df) = n) by (unfold lows; apply length_fmap).
  assert (Hcs : length (closes df) = n) by (unfold closes; apply length_fmap).
  destruct (directional_movement_length (highs df) (lows df) n Hhs Hls) as [Lp Lm].
  destruct (directional_movement_at_least (highs df) (lows df)) as [Fp Fm].
  pose proof (true_range_length (highs df) (lows df) (closes df) n Hhs Hls Hcs) as Lt.
  split; [exact Hadx|]. split.
  { apply dx_of_length; rewrite rolling_values_length; assumption. }
  split; [exact Lp|].
  intros Hvalid. pose proof (true_range_at_least df Hvalid) as Ft.
  unfold Pd.fillna. apply Forall_fmap. eapply Forall_impl.
  - apply (rolling_values_Forall (fun x => at_least 0 x /\ at_most 100 x)).
    + intros win Hwin. split.
      * apply window_mean_at_least. eapply Forall_impl; [exact Hwin|]. intros x H; apply H.
      * apply window_mean_at_most. eapply Forall_impl; [exact Hwin|]. intros x H; apply H.
    + apply dx_of_within;
        apply (rolling_values_Forall (at_least 0));
        try (intros win Hwin; apply window_mean_at_least; exact Hwin); assumption.
  - intros x [Hlo Hhi]. cbn.
    destruct x as [| | |q]; try contradiction; cbn.
    + exists 0%Q. repeat split; lra.
    + exists q. repeat split; assumption.
Qed.

Lemma adx_warm_up_cells (df : DataFrame) (period : Z) (i : nat) :
  "high" ∈ df_columns df -> "low" ∈ df_columns df -> "close" ∈ df_columns df ->
  1 <= period ->
  (i < length (df_rows df))%nat -> Z.of_nat i < 2 * period - 1 ->
  exists adx, _calculate_adx df period = Ok adx /\
              length adx = length (df_rows df) /\ adx !! i = Some (Fin 0).
Proof.
  intros Hh Hl Hc Hp Hi Hwarm.
  destruct (calculate_adx_cells df period Hh Hl Hc ltac:(lia)) as (Hadx & Ldx & Lp & _).
  cbv zeta in Hadx, Ldx, Lp.
  set (w := Z.to_nat period) in *. set (n := length (df_rows df)) in *.
  set (dm := directional_movement (Fin <$> highs df) (Fin <$> lows df)) in *.
  set (tr := true_range (Fin <$> highs df) (Fin <$> lows df) (Fin <$> closes df)) in *.
  set (dx := dx_of (Pd.rolling_values w (fst dm)) (Pd.rolling_values w (snd dm))
               (Pd.rolling_values w tr)) in *.
  assert (Hw : (1 <= w)%nat) by (unfold w; lia).
  eexists. split; [exact Hadx|].
  split; [unfold Pd.fillna; rewrite length_fmap, rolling_values_length; exact Ldx|].
  assert (Hfirst : fst dm !! 0%nat = Some NaN).
  { apply directional_movement_first.
    - unfold highs. destruct (df_rows df); [cbn in Hi; lia|discriminate].
    - unfold lows. destruct (df_rows df); [cbn in Hi; lia|discriminate]. }
  assert (Hdx : forall k, (k < n)%nat -> (k < w)%nat -> dx !! k = Some NaN).
  { intros k Hk Hkw. unfold dx. rewrite dx_of_zip.
    rewrite (rolling_values_nan w k 0 (fst dm) Hfirst) by lia.
    assert (Hb : is_Some (Pd.rolling_values w (snd dm) !! k)).
    { apply lookup_lt_is_Some. rewrite rolling_values_length.
      pose proof (dx_of_length (Pd.rolling_values w (fst dm))
                    (Pd.rolling_values w (snd dm)) (Pd.rolling_values w tr)) as _.
      unfold dm.
      destruct (directional_movement_length (highs df) (lows df) n) as [_ Lm];
        [unfold highs; apply length_fmap|unfold lows; apply length_fmap|].
      rewrite Lm. exact Hk. }
    assert (Ht : is_Some (Pd.rolling_values w tr !! k)).
    { apply lookup_lt_is_Some. rewrite rolling_values_length. unfold tr.
      rewrite (true_range_length (highs df) (lows df) (closes df) n);
        [exact Hk|unfold highs|unfold lows|unfold closes]; apply length_fmap. }
    destruct Hb as [b ->]. destruct Ht as [t ->]. reflexivity. }
  unfold Pd.fillna. rewrite list_lookup_fmap.
  rewrite (rolling_values_nan w i (S i - w) dx); [reflexivity|apply Hdx; lia|lia|lia|lia].
Qed.

(** X: the first [2 * period - 1] values of the oscillator are 0: every
    window that reaches back to those bars contains a missing directional
    movement, and [fillna] turns the missing average into 0. *)
Theorem adx_warm_up (df : DataFrame) (period : Z) (i : nat) :
  "high" ∈ df_columns df -> "low" ∈ df_columns df -> "close" ∈ df_columns df ->
  1 <= period ->
  (i < length (df_rows df))%nat -> Z.of_nat i < 2 * period - 1 ->
  exists adx, _calculate_adx df period = Ok adx /\ adx !! i = Some (Fin 0).
Proof.
  intros Hh Hl Hc Hp Hi Hwarm.
  destruct (adx_warm_up_cells df period i Hh Hl Hc Hp Hi Hwarm) as (adx & H1 & _ & H2).
  exists adx. split; assumption.
Qed.

Lemma adx_warm_up_witness :
  exists adx, _calculate_adx rising_h4 2 = Ok adx /\ adx !! 2%nat = Some (Fin 0).
Proof.
  apply (adx_warm_up rising_h4 2 2);
    first [ solve [repeat constructor] | lia | cbn; lia ].
Defined.

(** ** The latest values of an analysis *)

Lemma generate_signal_some_inv (st : Strategy) (now : Z) (sym : string)
    (d1 h4 : DataFrame) (sess : SessionType) (p : Q) (sig : SignalData) :
  fst (generate_signal st now sym d1 h4 sess p) = Some sig ->
  exists an,
    analyze_trend (config st) d1 h4 = Ok an /\ trend_confirmation an = true /\
    sig = _create_signal (config st) now sym (d1_trend an) sess p
            (atr_value an) (adx_strength an).
Proof.
  unfold generate_signal.
  destruct (analyze_trend (config st) d1 h4) as [an|e]; [|discriminate].
  cbn [fst]. destruct (trend_confirmation an) eqn:Hconf; [|discriminate].
  intros H. injection H as <-. exists an. repeat split. exact Hconf.
Qed.

Lemma guarded_last_Forall (P : fval -> Prop) (s : Series) (v : fval) :
  (if (0 <? length s)%nat then Pd.iloc_last s else Ok (Fin 0)) = Ok v ->
  Forall P s -> P (Fin 0) -> P v.
Proof.
  intros Hv Hall H0. destruct s as [|x s]; [cbn in Hv; injection Hv as <-; exact H0|].
  cbn [length Nat.ltb Nat.leb] in Hv. unfold Pd.iloc_last in Hv.
  destruct (last (x :: s)) as [y|] eqn:E; [|discriminate Hv]. injection Hv as <-.
  rewrite last_lookup in E. eapply (proj1 (Forall_lookup _ _) Hall). exact E.
Qed.

Lemma guarded_last_lookup (s : Series) (v : fval) (i : nat) :
  (if (0 <? length s)%nat then Pd.iloc_last s else Ok (Fin 0)) = Ok v ->
  length s = S i -> s !! i = Some v.
Proof.
  intros Hv Hlen. destruct s as [|x s]; [discriminate Hlen|].
  cbn [length Nat.ltb Nat.leb] in Hv. unfold Pd.iloc_last in Hv.
  destruct (last (x :: s)) as [y|] eqn:E; [|discriminate Hv]. injection Hv as <-.
  rewrite last_lookup, Hlen in E. exact E.
Qed.

(** The strength an analysis reports lies between 0 and 100. *)
Lemma analysis_adx_range (cfg : StrategyConfig) (d1 h4 : DataFrame) (an : TrendAnalysis) :
  Forall valid_bar (df_rows h4) ->
  analyze_trend cfg d1 h4 = Ok an ->
  exists a, adx_strength an = Fin a /\ (0 <= a)%Q /\ (a <= 100)%Q.
Proof.
  intros Hvalid Hok. destruct (analyze_trend_inv _ _ _ _ Hok) as (_ & H4 & _).
  destruct (compute_trend_h4_inv _ _ _ _ _ _ _ H4)
    as [(_ & _ & -> & _)
       |(_ & Hh & Hl & Hc & _ & _ & Hadx & _ & _ & adx_v & atr_v & Eadx & _ & _ & _ & Ela & _)].
  - exists 0%Q. repeat split; lra.
  - destruct (calculate_adx_cells h4 (adx_period cfg) Hh Hl Hc Hadx) as (Eadx' & _ & _ & Hall).
    cbv zeta in Eadx', Hall. rewrite Eadx' in Eadx. injection Eadx as <-.
    apply (guarded_last_Forall
             (fun x => exists q, x = Fin q /\ (0 <= q)%Q /\ (q <= 100)%Q) _ _ Ela).
    + apply Hall. exact Hvalid.
    + exists 0%Q. repeat split; lra.
Qed.

(** ** Signal strength *)

Lemma strength_normalised (a : Q) :
  (0 <= a)%Q ->
  exists s,
    F.py_min (F.div (Fin a) (Fin 50)) (Fin 1) = Fin s /\
    (0 <= s)%Q /\ (s <= 1)%Q /\
    ((a <= 50)%Q -> (s == a / 50)%Q) /\ ((50 <= a)%Q -> (s == 1)%Q).
Proof.
  intros Ha. rewrite div_Fin_pos by lra. unfold F.py_min.
  assert (Hdiv : (a / 50 == a * (1 # 50))%Q) by (field).
  destruct (F.ltb (Fin 1) (Fin (a / 50))) eqn:E.
  - apply ltb_Fin in E. exists 1%Q. split; [reflexivity|].
    repeat split; try lra; intros; lra.
  - apply ltb_Fin_false in E. exists (a / 50)%Q. split; [reflexivity|].
    repeat split; try lra; intros; lra.
Qed.

(** X: every signal [generate_signal] emits on an H4 frame whose bars have
    low <= high carries a strength between 0 and 1: the oscillator value,
    which lies between the configured threshold and 100, divided by 50 and
    capped at 1. *)
Theorem signal_strength_normalised (st : Strategy) (now : Z) (sym : string)
    (d1 h4 : DataFrame) (sess : SessionType) (p : Q) (sig : SignalData) :
  Forall valid_bar (df_rows h4) ->
  fst (generate_signal st now sym d1 h4 sess p) = Some sig ->
  exists a s md,
    metadata sig = Some md /\ md_adx_strength md = Fin a /\
    (adx_threshold (config st) <= a)%Q /\ (0 <= a)%Q /\ (a <= 100)%Q /\
    strength sig = Fin s /\ (0 <= s)%Q /\ (s <= 1)%Q /\
    ((a <= 50)%Q -> (s == a / 50)%Q) /\ ((50 <= a)%Q -> (s == 1)%Q).
Proof.
  intros Hvalid Hsig.
  destruct (generate_signal_some_inv _ _ _ _ _ _ _ _ Hsig) as (an & Hok & Hconf & ->).
  destruct (analysis_adx_range _ _ _ _ Hvalid Hok) as (a & Ea & Ha0 & Ha100).
  destruct (analysis_parts_consistent _ _ _ _ Hok) as (_ & _ & Himp).
  destruct (Himp Hconf) as (_ & _ & Hthr). rewrite Ea in Hthr. cbn [meets_threshold] in Hthr.
  destruct (strength_normalised a Ha0) as (s & Es & Hs0 & Hs1 & Hlow & Hhigh).
  exists a, s. eexists. unfold _create_signal.
  destruct (decide (d1_trend an = BULLISH)); cbn [metadata md_adx_strength strength];
    rewrite Ea, Es; repeat split; assumption.
Qed.

Lemma signal_strength_normalised_witness :
  exists sig a s md,
    fst (generate_signal (init short_config) 0 "EURUSD" rising_d1 rising_h4 US 16)
      = Some sig /\
    metadata sig = Some md /\ md_adx_strength md = Fin a /\
    (adx_threshold short_config <= a)%Q /\ (0 <= a)%Q /\ (a <= 100)%Q /\
    strength sig = Fin s /\ (0 <= s)%Q /\ (s <= 1)%Q.
Proof.
  assert (Hvalid : Forall valid_bar (df_rows rising_h4)).
  { unfold rising_h4, valid_bar, bar. cbn [df_rows bar_low bar_high].
    repeat (apply List.Forall_cons;
            [cbn [bar_low bar_high]; rewrite <- Zle_Qle; lia|]).
    apply List.Forall_nil. }
  eexists.
  assert (Hsig : fst (generate_signal (init short_config) 0 "EURUSD" rising_d1 rising_h4
                        US 16) = Some _) by (vm_compute; reflexivity).
  destruct (signal_strength_normalised (init short_config) 0 "EURUSD" rising_d1 rising_h4
              US 16 _ Hvalid Hsig)
    as (a & s & md & H1 & H2 & H3 & H4 & H5 & H6 & H7 & H8 & _).
  exists a, s, md. split; [exact Hsig|]. repeat split; assumption.
Defined.

(** ** A young H4 frame *)

(** X: while the H4 frame has fewer than [2 * adx_period] bars and the
    threshold is positive, [generate_signal] emits nothing: the latest
    oscillator value is still the 0 of the warm-up, so no analysis is
    confirmed. *)
Theorem no_signal_during_warm_up (st : Strategy) (now : Z) (sym : string)
    (d1 h4 : DataFrame) (sess : SessionType) (p : Q) :
  df_len h4 < 2 * adx_period (config st) ->
  (0 < adx_threshold (config st))%Q ->
  fst (generate_signal st now sym d1 h4 sess p) = None.
Proof.
  intros Hyoung Hthr.
  destruct (fst (generate_signal st now sym d1 h4 sess p)) as [sig|] eqn:Hsig;
    [exfalso|reflexivity].
  destruct (generate_signal_some_inv _ _ _ _ _ _ _ _ Hsig) as (an & Hok & Hconf & _).
  destruct (analysis_parts_consistent _ _ _ _ Hok) as (_ & _ & Himp).
  destruct (Himp Hconf) as (_ & _ & Hmeets).
  assert (Hadx0 : adx_strength an = Fin 0).
  { destruct (analyze_trend_inv _ _ _ _ Hok) as (_ & H4 & _).
    destruct (compute_trend_h4_inv _ _ _ _ _ _ _ H4)
      as [(_ & _ & -> & _)
         |(Hlen & Hh & Hl & Hc & Hf & _ & Hadx & _ & _ & adx_v & atr_v & Eadx & _ & _ & _
           & Ela & _)]; [reflexivity|].
    unfold df_len in *.
    destruct (df_rows h4) as [|b rows] eqn:Hrows; [cbn [length] in Hlen; lia|].
    destruct (adx_warm_up_cells h4 (adx_period (config st)) (length rows) Hh Hl Hc)
      as (adx' & Eadx' & Hlen' & Hlast).
    - cbn [length] in Hlen, Hyoung. lia.
    - rewrite Hrows. cbn [length]. lia.
    - cbn [length] in Hyoung. lia.
    - rewrite Eadx' in Eadx. injection Eadx as <-.
      rewrite Hrows in Hlen'. cbn [length] in Hlen'.
      pose proof (guarded_last_lookup _ _ _ Ela Hlen') as Hv.
      rewrite Hlast in Hv. injection Hv as <-. reflexivity. }
  rewrite Hadx0 in Hmeets. cbn [meets_threshold] in Hmeets. lra.
Qed.

Lemma no_signal_during_warm_up_witness :
  fst (generate_signal (init test_config) 0 "EURUSD" rising_d1 rising_h4 US 16) = None.
Proof.
  apply (no_signal_during_warm_up (init test_config) 0 "EURUSD" rising_d1 rising_h4 US 16).
  - apply Z.ltb_lt. reflexivity.
  - reflexivity.
Defined.

(** ** A confirmed signal has a positive risk metric *)

Lemma ema_trace_last (f : Q) (xs : list Q) :
  forall w ow, last (w :: ema_trace f w ow xs) = Some (fst (ema_state f w ow xs)).
Proof.
  induction xs as [|x rest IH]; intros w ow; [reflexivity|].
  cbn [ema_trace ema_state]. rewrite last_cons_cons. apply IH.
Qed.

(** With a positive decay every row keeps some weight: the average of rows
    that are not negative is positive as soon as one of them is. *)
Lemma ema_state_positive (f : Q) (xs : list Q) :
  (0 < f)%Q ->
  forall w ow, (0 < ow)%Q -> (0 <= w)%Q -> Forall (fun x => 0 <= x)%Q xs ->
    (0 < w)%Q \/ Exists (fun x => 0 < x)%Q xs ->
    (0 < fst (ema_state f w ow xs))%Q.
Proof.
  intros Hf. induction xs as [|x rest IH]; intros w ow How Hw Hxs Hpos.
  - destruct Hpos as [H|H]; [exact H|inversion H].
  - inversion Hxs as [|? ? Hx Hrest]; subst. cbn [ema_state].
    assert (Ha : (0 < ow * f)%Q) by nra.
    set (a := (ow * f)%Q) in *.
    assert (Hnew0 : (0 <= (a * w + x) / (a + 1))%Q).
    { apply Qle_shift_div_l; [lra|]. nra. }
    apply IH; [lra|exact Hnew0|exact Hrest|].
    destruct Hpos as [H|H].
    + left. apply Qlt_shift_div_l; [lra|]. nra.
    + inversion H as [? ? Hx0|? ? Hex]; subst.
      * left. apply Qlt_shift_div_l; [lra|]. nra.
      * right. exact Hex.
Qed.

(** The average of equal rows is that value. *)
Lemma ema_state_constant (f c : Q) (xs : list Q) :
  (0 <= f)%Q ->
  forall w ow, (0 < ow)%Q -> (w == c)%Q -> Forall (fun x => x == c)%Q xs ->
    (fst (ema_state f w ow xs) == c)%Q.
Proof.
  intros Hf. induction xs as [|x rest IH]; intros w ow How Hw Hxs; [exact Hw|].
  inversion Hxs as [|? ? Hx Hrest]; subst. cbn [ema_state].
  assert (Ha : (0 <= ow * f)%Q) by nra.
  apply IH; [lra| |exact Hrest].
  rewrite Hw, Hx. field. lra.
Qed.

Lemma Qabs_zero (x : Q) : (Qabs x <= 0)%Q -> (x == 0)%Q.
Proof. intros H. apply Qabs_Qle_condition in H. lra. Qed.

(** On bars whose close lies between low and high, true ranges that are all
    zero mean that no bar closed away from the close before it. *)
Lemma tr_from_zero_closes (rows : list Bar) :
  Forall valid_ohlc rows ->
  forall pc, Forall (fun t => t <= 0)%Q (tr_from pc rows) ->
             Forall (fun c => c == pc)%Q (bar_close <$> rows).
Proof.
  induction 1 as [|b rows [Hlo Hhi] _ IH]; intros pc Hz; [constructor|].
  cbn [tr_from] in Hz. apply Forall_cons in Hz as [Ht Hrest]. cbv beta in Ht.
  set (m := qmax (bar_high b + - bar_low b) (Qabs (bar_high b + - pc))) in *.
  pose proof (qmax_ge_r m (Qabs (bar_low b + - pc))) as H1.
  pose proof (qmax_ge_l m (Qabs (bar_low b + - pc))) as H2.
  pose proof (qmax_ge_r (bar_high b + - bar_low b) (Qabs (bar_high b + - pc))) as H3.
  fold m in H3.
  assert (Hl : (bar_low b + - pc == 0)%Q) by (apply Qabs_zero; lra).
  assert (Hh : (bar_high b + - pc == 0)%Q) by (apply Qabs_zero; lra).
  assert (Hc : (bar_close b == pc)%Q) by lra.
  cbn [fmap list_fmap]. constructor; [exact Hc|].
  eapply Forall_impl; [apply IH; exact Hrest|]. intros c Hcc. cbn in Hcc. lra.
Qed.

Lemma nonpositive_or_exists (xs : list Q) :
  Forall (fun x => x <= 0)%Q xs \/ Exists (fun x => 0 < x)%Q xs.
Proof.
  induction xs as [|x xs [IH|IH]].
  - left. constructor.
  - destruct (Qlt_le_dec 0 x) as [H|H].
    + right. constructor. exact H.
    + left. constructor; assumption.
  - right. apply List.Exists_cons_tl. exact IH.
Qed.

Lemma crossover_equal (a b : Q) : (a == b)%Q -> crossover (Fin a) (Fin b) = SIDEWAYS.
Proof.
  intros Hab.
  destruct (crossover_classified a b a b (Qeq_refl a) (Qeq_refl b)) as (_ & _ & H).
  apply H. exact Hab.
Qed.

(** The latest risk metric of a confirmed analysis is a positive number
    when the ATR span is at least 2 and every H4 close lies between its
    bar's low and high. *)
Lemma confirmed_atr_positive (cfg : StrategyConfig) (d1 h4 : DataFrame)
    (an : TrendAnalysis) :
  Forall valid_ohlc (df_rows h4) ->
  2 <= atr_period cfg ->
  analyze_trend cfg d1 h4 = Ok an ->
  trend_confirmation an = true ->
  exists a, atr_value an = Fin a /\ (0 < a)%Q.
Proof.
  intros Hvalid Hspan Hok Hconf.
  destruct (analysis_parts_consistent _ _ _ _ Hok) as (_ & _ & Himp).
  destruct (Himp Hconf) as (Heq & Hside & _).
  destruct (analyze_trend_inv _ _ _ _ Hok) as (_ & H4 & _).
  destruct (compute_trend_h4_inv _ _ _ _ _ _ _ H4)
    as [(_ & Ht & _)
       |(Hlen & Hh & Hl & Hc & Hf & Hs & _ & Hatr & Ht & adx_v & atr_v & _ & Eatr & Elf
         & Els & _ & Elt)]; [congruence|].
  unfold df_len in Hlen.
  destruct (df_rows h4) as [|b rows] eqn:Hrows; [cbn [length] in Hlen; lia|].
  rewrite calculate_atr_values in Eatr by assumption. injection Eatr as <-.
  rewrite Hrows in Elt. cbn [tr_values ema_values fmap list_fmap length] in Elt.
  cbn [Nat.ltb Nat.leb] in Elt. unfold Pd.iloc_last in Elt.
  change (Fin (bar_high b + - bar_low b)
            :: (Fin <$> ema_trace (Pd.decay (atr_period cfg)) (bar_high b + - bar_low b) 1
                          (tr_from (bar_close b) rows)))
    with (Fin <$> ((bar_high b + - bar_low b)%Q
                     :: ema_trace (Pd.decay (atr_period cfg)) (bar_high b + - bar_low b) 1
                          (tr_from (bar_close b) rows))) in Elt.
  rewrite fmap_last, ema_trace_last in Elt. cbn in Elt. injection Elt as Elt.
  eexists. split; [symmetry; exact Elt|].
  assert (Hd0 : (0 <= Pd.decay (atr_period cfg))%Q) by (apply decay_nonneg; lia).
  assert (Hd : (0 < Pd.decay (atr_period cfg))%Q).
  { pose proof (decay_lt 1 (atr_period cfg) ltac:(lia) ltac:(lia)) as Hlt.
    pose proof (decay_nonneg 1 ltac:(lia)). lra. }
  inversion Hvalid as [|? ? [Hlo Hhi] Hvrest]; subst.
  assert (Ht0 : (0 <= bar_high b + - bar_low b)%Q) by lra.
  destruct (Qlt_le_dec 0 (bar_high b + - bar_low b)) as [Hpos|Hzero].
  { apply (ema_state_positive _ _ Hd _ 1 ltac:(lra) Ht0 (tr_from_nonneg _ _)).
    left. exact Hpos. }
  destruct (nonpositive_or_exists (tr_from (bar_close b) rows)) as [Hall|Hex].
  2:{ apply (ema_state_positive _ _ Hd _ 1 ltac:(lra) Ht0 (tr_from_nonneg _ _)).
      right. exact Hex. }
  exfalso.
  pose proof (tr_from_zero_closes rows Hvrest (bar_close b) Hall) as Hcl.
  unfold closes in Elf, Els. rewrite Hrows in Elf, Els.
  cbn [fmap list_fmap Pd.ewm_values] in Elf, Els. unfold Pd.iloc_last in Elf, Els.
  rewrite (ewm_loop_last _ (bar_close <$> rows) (decay_nonneg _ Hf) (bar_close b) 1) in Elf
    by lra.
  rewrite (ewm_loop_last _ (bar_close <$> rows) (decay_nonneg _ Hs) (bar_close b) 1) in Els
    by lra.
  injection Elf as Elf. injection Els as Els. rewrite <- Elf, <- Els in Ht.
  rewrite crossover_equal in Ht; [congruence|].
  rewrite (ema_state_constant _ (bar_close b) _ (decay_nonneg _ Hf) (bar_close b) 1)
    by (try lra; try reflexivity; exact Hcl).
  rewrite (ema_state_constant _ (bar_close b) _ (decay_nonneg _ Hs) (bar_close b) 1)
    by (try lra; try reflexivity; exact Hcl).
  reflexivity.
Qed.

(** X: with an ATR span of at least 2, a positive multiplier and H4 bars
    whose close lies between low and high, every signal [generate_signal]
    emits has its stop on one side of the price and its target on the
    other: the stop no higher and the target no lower than the price for a
    buy, the other way round for a sell. *)
Theorem emitted_signal_straddles (st : Strategy) (now : Z) (sym : string)
    (d1 h4 : DataFrame) (sess : SessionType) (p : Q) (sig : SignalData) :
  Forall valid_ohlc (df_rows h4) ->
  2 <= atr_period (config st) ->
  (0 < atr_multiplier (config st))%Q ->
  fst (generate_signal st now sym d1 h4 sess p) = Some sig ->
  exists sl tp,
    stop_loss sig = Some sl /\ take_profit sig = Some tp /\
    (signal_type sig = "buy" \/ signal_type sig = "sell") /\
    (signal_type sig = "buy" -> F.leb sl (Fin p) = true /\ F.leb (Fin p) tp = true) /\
    (signal_type sig = "sell" -> F.leb tp (Fin p) = true /\ F.leb (Fin p) sl = true).
Proof.
  intros Hvalid Hspan Hmult Hsig.
  destruct (generate_signal_some_inv _ _ _ _ _ _ _ _ Hsig) as (an & Hok & Hconf & ->).
  destruct (confirmed_atr_positive _ _ _ _ Hvalid Hspan Hok Hconf) as (a & Ea & Ha).
  destruct (analysis_parts_consistent _ _ _ _ Hok) as (_ & _ & Himp).
  destruct (Himp Hconf) as (_ & Hside & _).
  rewrite Ea.
  destruct (create_signal_levels (config st) now sym (d1_trend an) sess p a
              (adx_strength an)) as (sl & tp & Hsl & Htp & _ & Hbull & Hbear).
  assert (Hprod : (0 < a * atr_multiplier (config st))%Q) by nra.
  exists (Fin sl), (Fin tp). split; [exact Hsl|]. split; [exact Htp|].
  unfold _create_signal.
  destruct (decide (d1_trend an = BULLISH)) as [Hb|Hb]; cbn [signal_type].
  - split; [left; reflexivity|]. split; [|discriminate].
    intros _. destruct (Hbull Hb) as [Heq Hlt]. destruct (Hlt Hprod).
    split; apply leb_Fin; lra.
  - split; [right; reflexivity|]. split; [discriminate|].
    intros _. assert (Hbe : d1_trend an = BEARISH) by (destruct (d1_trend an); congruence).
    destruct (Hbear Hbe) as [Heq Hlt]. destruct (Hlt Hprod).
    split; apply leb_Fin; lra.
Qed.

Lemma emitted_signal_straddles_witness :
  exists sig sl tp,
    fst (generate_signal (init two_span_config) 0 "EURUSD" rising_d1 rising_h4 US 16)
      = Some sig /\
    stop_loss sig = Some sl /\ take_profit sig = Some tp /\
    signal_type sig = "buy" /\
    F.leb sl (Fin 16) = true /\ F.leb (Fin 16) tp = true.
Proof.
  assert (Hvalid : Forall valid_ohlc (df_rows rising_h4)).
  { unfold rising_h4, valid_ohlc, bar. cbn [df_rows].
    repeat (apply List.Forall_cons;
            [cbn [bar_low bar_high bar_close]; rewrite <- !Zle_Qle; lia|]).
    apply List.Forall_nil. }
  eexists.
  assert (Hsig : fst (generate_signal (init two_span_config) 0 "EURUSD" rising_d1 rising_h4
                        US 16) = Some _) by (vm_compute; reflexivity).
  destruct (emitted_signal_straddles (init two_span_config) 0 "EURUSD" rising_d1 rising_h4
              US 16 _ Hvalid ltac:(cbn; lia) eq_refl Hsig)
    as (sl & tp & H1 & H2 & _ & Hbuy & _).
  destruct (Hbuy eq_refl) as (H3 & H4).
  exists sl, tp. split; [exact Hsig|]. repeat split; assumption.
Defined.

(** * Properties of the loggers *)

Lemma default_context_lookup (env : option string) (k : string) :
  Log.default_context env !! k
    = if decide (k = "service") then Some (Log.VStr "trading-system")
      else if decide (k = "environment") then Some (Log.VStr (default "development" env))
      else if decide (k = "version") then Some (Log.VStr "1.0.0")
      else None.
Proof.
  unfold Log.default_context.
  destruct (decide (k = "service")) as [->|H1]; [apply lookup_insert_eq|].
  rewrite lookup_insert_ne by congruence.
  destruct (decide (k = "environment")) as [->|H2]; [apply lookup_insert_eq|].
  rewrite lookup_insert_ne by congruence.
  destruct (decide (k = "version")) as [->|H3]; [apply lookup_insert_eq|].
  rewrite lookup_insert_ne by congruence. apply lookup_empty.
Qed.

Lemma new_context_lookup (env : option string) (name : string)
    (ctx : option (gmap string Log.value)) (k : string) :
  Log.context (Log.new env name ctx) !! k
    = match Log.default_context env !! k with
      | Some v => Some v
      | None => default ∅ ctx !! k
      end.
Proof.
  unfold Log.new. cbn [Log.context]. rewrite lookup_union.
  destruct (Log.default_context env !! k), (default ∅ ctx !! k); reflexivity.
Qed.

(** X: whatever context a [TradingLogger] is constructed with, its context
    maps service, environment and version to the fixed defaults (the
    environment variable, or "development" when it is unset), overwriting
    the caller's values for these keys; every other key of the supplied
    context is kept, and nothing else is added. *)
Theorem logger_defaults_overwrite (env : option string) (name : string)
    (ctx : option (gmap string Log.value)) (k : string) :
  let lg := Log.new env name ctx in
  Log.context lg !! "service" = Some (Log.VStr "trading-system") /\
  Log.context lg !! "environment" = Some (Log.VStr (default "development" env)) /\
  Log.context lg !! "version" = Some (Log.VStr "1.0.0") /\
  (k <> "service" -> k <> "environment" -> k <> "version" ->
   Log.context lg !! k = default ∅ ctx !! k).
Proof.
  cbv zeta. rewrite !new_context_lookup, !default_context_lookup.
  repeat split. intros H1 H2 H3.
  rewrite !decide_False by assumption. reflexivity.
Qed.

Lemma with_context_lookup (env : option string) (lg : Log.TradingLogger)
    (kwargs : gmap string Log.value) (k : string) :
  Log.context (Log.with_context env lg kwargs) !! k
    = match Log.default_context env !! k with
      | Some v => Some v
      | None => match kwargs !! k with
                | Some v => Some v
                | None => Log.context lg !! k
                end
      end.
Proof.
  unfold Log.with_context. rewrite new_context_lookup.
  change (default ∅ (Some (kwargs ∪ Log.context lg))) with (kwargs ∪ Log.context lg).
  rewrite lookup_union.
  destruct (Log.default_context env !! k), (kwargs !! k), (Log.context lg !! k);
    reflexivity.
Qed.

(** X: keywords given to [with_context] overwrite the old context but not
    the three defaults, which the constructor writes again; keywords given
    to a single log call overwrite everything, the defaults included.  Keys
    that are not given come from the old context in both cases.  The
    keywords are any that Python accepts: none is called [self] or
    [message]. *)
Theorem keyword_precedence (env : option string) (lg : Log.TradingLogger)
    (kwargs : gmap string Log.value) (lvl : Log.level) (msg : string) (k : string) :
  kwargs !! "self" = None -> kwargs !! "message" = None ->
  Log.context (Log.with_context env lg kwargs) !! k
    = match Log.default_context env !! k with
      | Some v => Some v
      | None => match kwargs !! k with
                | Some v => Some v
                | None => Log.context lg !! k
                end
      end /\
  Log.rec_fields (Log.log lvl lg msg kwargs) !! k
    = match kwargs !! k with
      | Some v => Some v
      | None => Log.context lg !! k
      end.
Proof.
  intros _ _. split.
  - apply with_context_lookup.
  - unfold Log.log. cbn [Log.rec_fields]. rewrite lookup_union.
    destruct (kwargs !! k), (Log.context lg !! k); reflexivity.
Qed.

Lemma keyword_precedence_witness :
  Log.context (Log.with_context None (strategy_logger None)
                 {["service" := Log.VStr "backtest"]}) !! "service"
    = Some (Log.VStr "trading-system") /\
  Log.rec_fields (Log.log Log.Info (strategy_logger None) "started"
                    {["service" := Log.VStr "backtest"]}) !! "service"
    = Some (Log.VStr "backtest").
Proof.
  destruct (keyword_precedence None (strategy_logger None)
              {["service" := Log.VStr "backtest"]} Log.Info "started" "service")
    as [Hctx Hrec]; [reflexivity..|].
  rewrite Hctx, Hrec. split; reflexivity.
Defined.

(** X: deriving a logger twice with the same keywords (none of them called
    [self]) gives the same context as deriving it once, and deriving with
    no keywords from a logger built in the same environment changes nothing
    in its context. *)
Theorem with_context_idempotent (env : option string) (name : string)
    (ctx : option (gmap string Log.value)) (kwargs : gmap string Log.value) :
  kwargs !! "self" = None ->
  let lg := Log.new env name ctx in
  Log.context (Log.with_context env (Log.with_context env lg kwargs) kwargs)
    = Log.context (Log.with_context env lg kwargs) /\
  Log.context (Log.with_context env lg ∅) = Log.context lg.
Proof.
  intros _. cbv zeta. split; apply map_eq; intros k.
  - rewrite !with_context_lookup.
    destruct (Log.default_context env !! k), (kwargs !! k); reflexivity.
  - rewrite with_context_lookup, lookup_empty.
    rewrite new_context_lookup. destruct (Log.default_context env !! k); reflexivity.
Qed.

Lemma with_context_idempotent_witness :
  Log.context (Log.with_context None
                 (Log.with_context None (Log.new None "strategy" None)
                    {["symbol" := Log.VStr "EURUSD"]})
                 {["symbol" := Log.VStr "EURUSD"]})
    = Log.context (Log.with_context None (Log.new None "strategy" None)
                     {["symbol" := Log.VStr "EURUSD"]}) /\
  Log.context (Log.with_context None (Log.new None "strategy" None) ∅)
    = Log.context (Log.new None "strategy" None).
Proof.
  apply (with_context_idempotent None "strategy" None {["symbol" := Log.VStr "EURUSD"]}).
  reflexivity.
Defined.

Lemma log_fields_lookup (lvl : Log.level) (lg : Log.TradingLogger) (msg : string)
    (kwargs : gmap string Log.value) (k : string) :
  Log.rec_fields (Log.log lvl lg msg kwargs) !! k
    = match kwargs !! k with
      | Some v => Some v
      | None => Log.context lg !! k
      end.
Proof.
  unfold Log.log. cbn [Log.rec_fields]. rewrite lookup_union.
  destruct (kwargs !! k), (Log.context lg !! k); reflexivity.
Qed.

Lemma performance_context (env : option string) (name : string) :
  Log.context (Log.get_performance_logger env name)
    = <["component" := Log.VStr "performance"]> (Log.default_context env).
Proof.
  apply map_eq. intros k. unfold Log.get_performance_logger, Log.get_logger.
  rewrite with_context_lookup, new_context_lookup. cbn [default].
  destruct (decide (k = "component")) as [->|Hk].
  - rewrite lookup_insert_eq, lookup_singleton_eq, default_context_lookup. reflexivity.
  - rewrite lookup_insert_ne, lookup_singleton_ne by congruence. rewrite lookup_empty.
    destruct (Log.default_context env !! k); reflexivity.
Qed.

(** X: a performance logger, whatever name it was asked for, carries the
    component "performance" beside the three defaults and nothing else, and
    the record [log_signal_generation] writes has exactly the four call
    fields (with the time in milliseconds) and those four context fields. *)
Theorem performance_record_fields (env : option string) (name sym ty : string)
    (strength generation_time : fval) :
  let perf := Log.get_performance_logger env name in
  let r := Log.log_signal_generation perf sym ty strength generation_time in
  dom (Log.context perf)
    = {["component"; "service"; "environment"; "version"]} /\
  Log.rec_level r = Log.Info /\
  Log.rec_message r = ("Signal generated: " ++ ty ++ " for " ++ sym)%string /\
  Log.rec_fields r
    = <["symbol" := Log.VStr sym]>
        (<["signal_type" := Log.VStr ty]>
           (<["signal_strength" := Log.VFloat strength]>
              (<["generation_time_ms" := Log.VFloat (F.mul generation_time (Fin 1000))]>
                 (<["component" := Log.VStr "performance"]>
                    (Log.default_context env))))).
Proof.
  cbv zeta. split; [|split; [reflexivity|split; [reflexivity|]]].
  - rewrite performance_context. unfold Log.default_context.
    rewrite !dom_insert_L, dom_empty_L. set_solver.
  - unfold Log.log_signal_generation, Log.log. cbn [Log.rec_fields].
    rewrite performance_context. apply map_eq. intros k.
    rewrite lookup_union.
    repeat match goal with
           | |- context [<[?j := _]> _ !! k] =>
               destruct (decide (j = k)) as [<-|?];
               [rewrite !lookup_insert_eq; try reflexivity
               |rewrite !(lookup_insert_ne _ j k) by assumption]
           end.
    all: rewrite ?lookup_empty; try reflexivity;
      destruct (Log.default_context env !! k); reflexivity.
Qed.

(** X: a logger derived with [with_context] is created under the name
    "trading" whatever the name of the logger it derives from, because the
    structlog logger is bound to no "logger" key; so every performance and
    audit logger writes under that name. *)
Theorem derived_logger_name (env : option string) (name : string)
    (ctx : option (gmap string Log.value)) (kwargs : gmap string Log.value) :
  kwargs !! "self" = None ->
  Log.logger_name (Log.with_context env (Log.get_logger env name ctx) kwargs) = "trading" /\
  Log.logger_name (Log.get_performance_logger env name) = "trading" /\
  Log.logger_name (Log.get_audit_logger env name) = "trading" /\
  Log.logger_name (Log.get_logger env name ctx) = name.
Proof. intros _. repeat split. Qed.

Lemma derived_logger_name_witness :
  Log.logger_name (Log.with_context None (Log.get_logger None "strategy" None)
                     {["symbol" := Log.VStr "EURUSD"]}) = "trading" /\
  Log.logger_name (Log.get_performance_logger None "strategy") = "trading" /\
  Log.logger_name (Log.get_audit_logger None "strategy") = "trading" /\
  Log.logger_name (Log.get_logger None "strategy" None) = "strategy".
Proof.
  apply (derived_logger_name None "strategy" None {["symbol" := Log.VStr "EURUSD"]}).
  reflexivity.
Defined.


(** ** The records of one call *)

Lemma generate_signal_none_inv (st : Strategy) (now : Z) (sym : string)
    (d1 h4 : DataFrame) (sess : SessionType) (p : Q) (an : TrendAnalysis) :
  analyze_trend (config st) d1 h4 = Ok an ->
  fst (generate_signal st now sym d1 h4 sess p) = None ->
  trend_confirmation an = false.
Proof.
  intros Hok. unfold generate_signal. rewrite Hok. cbn [fst].
  destruct (trend_confirmation an); [discriminate|reflexivity].
Qed.

(** X: the records of one [generate_signal] call.  When the analysis
    raises, exactly two exception records are written, one by
    [analyze_trend] and one by [generate_signal], both with the text of the
    same exception, and no performance record.  Otherwise the analysis is
    reported at debug level and the last record is the performance record,
    which names the returned signal's type and strength, or "hold" and 0
    when nothing is returned; an emitted signal is reported once in
    between. *)
Theorem generate_signal_records (st : Strategy) (env : option string) (now : Z)
    (duration : Q) (sym : string) (d1 h4 : DataFrame) (sess : SessionType) (p : Q) :
  let records := generate_signal_log st env now duration sym d1 h4 sess p in
  let perf := strategy_perf_logger env in
  match analyze_trend (config st) d1 h4,
        fst (generate_signal st now sym d1 h4 sess p) with
  | Raise e, _ =>
      Log.rec_level <$> records = [Log.Exception; Log.Exception] /\
      Forall (fun r => Log.rec_fields r !! "error" = Some (Log.VStr (exn_str e))) records /\
      fst (generate_signal st now sym d1 h4 sess p) = None
  | Ok an, Some sig =>
      Log.rec_level <$> records = [Log.Debug; Log.Info; Log.Info] /\
      records !! 1%nat = Some (create_signal_log env sig) /\
      records !! 2%nat
        = Some (Log.log_signal_generation perf sym (signal_type sig) (strength sig)
                  (Fin duration))
  | Ok an, None =>
      Log.rec_level <$> records = [Log.Debug; Log.Info] /\
      records !! 1%nat = Some (Log.log_signal_generation perf sym "hold" (Fin 0)
                                 (Fin duration))
  end.
Proof.
  cbv zeta. unfold generate_signal_log, analyze_trend_log.
  rewrite <- analyze_trend_reraises.
  destruct (analyze_trend (config st) d1 h4) as [an|e] eqn:Hok.
  - destruct (fst (generate_signal st now sym d1 h4 sess p)) as [sig|] eqn:Hsig;
      repeat split.
  - split; [reflexivity|]. split.
    + repeat constructor.
    + unfold generate_signal. rewrite Hok. reflexivity.
Qed.

Lemma strategy_logger_context (env : option string) :
  Log.context (strategy_logger env)
    = <["component" := Log.VStr "trend_continuation"]> (Log.default_context env).
Proof.
  apply map_eq. intros k. unfold strategy_logger, Log.get_logger.
  rewrite new_context_lookup.
  change (default ∅ (Some ?m)) with m.
  destruct (decide (k = "component")) as [->|Hk].
  - rewrite lookup_insert_eq, lookup_singleton_eq, default_context_lookup. reflexivity.
  - rewrite lookup_insert_ne by congruence.
    rewrite lookup_singleton_ne by congruence.
    destruct (Log.default_context env !! k); reflexivity.
Qed.


Lemma log_carries_context (lvl : Log.level) (lg : Log.TradingLogger) (msg : string)
    (kwargs : gmap string Log.value) (env : option string) (component : string) :
  kwargs !! "service" = None -> kwargs !! "environment" = None ->
  kwargs !! "version" = None -> kwargs !! "component" = None ->
  Log.context lg = <["component" := Log.VStr component]> (Log.default_context env) ->
  carries_context env component (Log.log lvl lg msg kwargs).
Proof.
  intros H1 H2 H3 H4 Hctx. unfold carries_context.
  rewrite !log_fields_lookup, H1, H2, H3, H4, Hctx.
  rewrite lookup_insert_eq.
  rewrite !(lookup_insert_ne _ "component") by (intros E; discriminate E).
  rewrite !default_context_lookup. repeat split.
Qed.

Ltac absent_key :=
  repeat match goal with
         | |- <[?j := _]> _ !! ?k = None =>
             rewrite (lookup_insert_ne _ j k) by (intros E; discriminate E)
         end;
  match goal with |- ∅ !! _ = None => apply lookup_empty end.

(** X: every record a [generate_signal] call writes is written through
    one of the strategy's two loggers, and carries the service name, the
    environment and the version of the logger defaults together with the
    component of the logger that wrote it: a record of the strategy's own
    logger (named "strategy") carries "trend_continuation", a record of
    the performance logger (named "trading") carries "performance". *)
Theorem generate_signal_records_context (st : Strategy) (env : option string)
    (now : Z) (duration : Q) (sym : string) (d1 h4 : DataFrame) (sess : SessionType)
    (p : Q) :
  Forall (fun r =>
            exists lvl msg kwargs,
              (r = Log.log lvl (strategy_logger env) msg kwargs /\
               Log.rec_logger r = "strategy" /\
               carries_context env "trend_continuation" r) \/
              (r = Log.log lvl (strategy_perf_logger env) msg kwargs /\
               Log.rec_logger r = "trading" /\
               carries_context env "performance" r))
         (generate_signal_log st env now duration sym d1 h4 sess p).
Proof.
  unfold generate_signal_log, analyze_trend_log.
  assert (Hs : forall lvl msg kwargs,
            kwargs !! "service" = None -> kwargs !! "environment" = None ->
            kwargs !! "version" = None -> kwargs !! "component" = None ->
            exists lvl' msg' kwargs',
              (Log.log lvl (strategy_logger env) msg kwargs
                 = Log.log lvl' (strategy_logger env) msg' kwargs' /\
               Log.rec_logger (Log.log lvl (strategy_logger env) msg kwargs) = "strategy" /\
               carries_context env "trend_continuation"
                 (Log.log lvl (strategy_logger env) msg kwargs)) \/
              (Log.log lvl (strategy_logger env) msg kwargs
                 = Log.log lvl' (strategy_perf_logger env) msg' kwargs' /\
               Log.rec_logger (Log.log lvl (strategy_logger env) msg kwargs) = "trading" /\
               carries_context env "performance"
                 (Log.log lvl (strategy_logger env) msg kwargs))).
  { intros lvl msg kwargs H1 H2 H3 H4. exists lvl, msg, kwargs. left.
    split; [reflexivity|]. split; [reflexivity|].
    apply log_carries_context; try assumption. apply strategy_logger_context. }
  assert (Hp : forall ty strength,
            exists lvl' msg' kwargs',
              (Log.log_signal_generation (strategy_perf_logger env) sym ty strength
                 (Fin duration)
                 = Log.log lvl' (strategy_logger env) msg' kwargs' /\
               Log.rec_logger (Log.log_signal_generation (strategy_perf_logger env) sym ty
                                 strength (Fin duration)) = "strategy" /\
               carries_context env "trend_continuation"
                 (Log.log_signal_generation (strategy_perf_logger env) sym ty strength
                    (Fin duration))) \/
              (Log.log_signal_generation (strategy_perf_logger env) sym ty strength
                 (Fin duration)
                 = Log.log lvl' (strategy_perf_logger env) msg' kwargs' /\
               Log.rec_logger (Log.log_signal_generation (strategy_perf_logger env) sym ty
                                 strength (Fin duration)) = "trading" /\
               carries_context env "performance"
                 (Log.log_signal_generation (strategy_perf_logger env) sym ty strength
                    (Fin duration)))).
  { intros ty strength. unfold Log.log_signal_generation, strategy_perf_logger.
    eexists _, _, _. right. split; [reflexivity|]. split; [reflexivity|].
    apply (log_carries_context Log.Info _ _ _ env "performance");
      [absent_key..|].
    apply performance_context. }
  apply Forall_app. split.
  - destruct (analyze_trend_body (config st) d1 h4);
      (apply List.Forall_cons; [apply Hs; absent_key|apply List.Forall_nil]).
  - destruct (analyze_trend (config st) d1 h4).
    + destruct (fst (generate_signal st now sym d1 h4 sess p)).
      * apply List.Forall_cons; [unfold create_signal_log; apply Hs; absent_key|].
        apply List.Forall_cons; [apply Hp|apply List.Forall_nil].
      * apply List.Forall_cons; [apply Hp|apply List.Forall_nil].
    + apply List.Forall_cons; [apply Hs; absent_key|apply List.Forall_nil].
Qed.

(** * Properties of the configuration manager *)

Lemma merge_env_vars_sections (env : Cfg.environ) (d : Cfg.dict) :
  Cfg._merge_env_vars env d
    = Cfg.and_then (Cfg.merge_sections env Cfg.overrides d)
        (fun d => Cfg.Done (Cfg.set_top_level env d)).
Proof.
  unfold Cfg._merge_env_vars, Cfg.overrides, Cfg.merge_sections.
  cbn [Cfg.var Cfg.section Cfg.key Cfg.conv].
  repeat match goal with
         | |- context [Cfg.from_env ?e ?v ?s ?k ?c ?x] =>
             destruct (Cfg.from_env e v s k c x); cbn [Cfg.and_then]; try reflexivity
         end.
Qed.

Lemma get_section_lookup (d : Cfg.dict) (s k : string) (v : Cfg.value) :
  Cfg.get_section d s !! k = Some v ->
  exists m, d !! s = Some (Cfg.VDict m) /\ m !! k = Some v.
Proof.
  unfold Cfg.get_section. destruct (d !! s) as [[]|]; try (rewrite lookup_empty; discriminate).
  intros H. eexists. split; [reflexivity|exact H].
Qed.

(** One conditional assignment that returns. *)
Lemma from_env_done (env : Cfg.environ) (v s k : string) (c : string -> Cfg.value)
    (d d' : Cfg.dict) :
  Cfg.from_env env v s k c d = Cfg.Done d' ->
  (Cfg.truthy (env !! v) = false /\ d' = d) \/
  (exists x, env !! v = Some x /\ Cfg.truthy (env !! v) = true /\
             ~ Cfg.not_a_dict d s /\
             d' = <[s := Cfg.VDict (<[k := c x]> (Cfg.get_section d s))]> d).
Proof.
  unfold Cfg.from_env. destruct (env !! v) as [x|] eqn:Hx.
  - destruct (Cfg.truthy (Some x)) eqn:Ht.
    + unfold Cfg.set_in_section, Cfg.not_a_dict, Cfg.get_section.
      destruct (d !! s) as [[]|]; try discriminate;
        intros [= <-]; right; exists x; repeat split; tauto.
    + intros [= <-]. left. split; reflexivity.
  - intros [= <-]. left. split; reflexivity.
Qed.

(** What the assignment changes. *)
Lemma assigned_lookup (d m : Cfg.dict) (s j : string) :
  s <> j -> <[s := Cfg.VDict m]> d !! j = d !! j.
Proof. intros. apply lookup_insert_ne. assumption. Qed.

Lemma assigned_section (d : Cfg.dict) (s k s' k' : string) (v : Cfg.value) :
  Cfg.get_section (<[s := Cfg.VDict (<[k := v]> (Cfg.get_section d s))]> d) s' !! k'
    = if decide ((s, k) = (s', k')) then Some v else Cfg.get_section d s' !! k'.
Proof.
  unfold Cfg.get_section at 1.
  destruct (decide (s = s')) as [<-|Hs].
  - rewrite lookup_insert_eq.
    destruct (decide (k = k')) as [<-|Hk].
    + rewrite lookup_insert_eq, decide_True; reflexivity.
    + rewrite lookup_insert_ne, decide_False by congruence. reflexivity.
  - rewrite lookup_insert_ne, decide_False by congruence. reflexivity.
Qed.

Lemma assigned_not_a_dict (d m : Cfg.dict) (s j : string) :
  ~ Cfg.not_a_dict d s ->
  Cfg.not_a_dict (<[s := Cfg.VDict m]> d) j <-> Cfg.not_a_dict d j.
Proof.
  intros Hs. unfold Cfg.not_a_dict in *.
  destruct (decide (s = j)) as [<-|Hj].
  - rewrite lookup_insert_eq. tauto.
  - rewrite lookup_insert_ne by assumption. tauto.
Qed.

(** The conditional assignments together, when they return. *)
Lemma merge_sections_done (env : Cfg.environ) (os : list Cfg.override) (d d' : Cfg.dict) :
  Cfg.merge_sections env os d = Cfg.Done d' ->
  (forall o, o ∈ os -> Cfg.truthy (env !! Cfg.var o) = true ->
             ~ Cfg.not_a_dict d (Cfg.section o)) /\
  (forall j, (forall o, o ∈ os -> Cfg.truthy (env !! Cfg.var o) = true ->
                        Cfg.section o <> j) ->
             d' !! j = d !! j) /\
  (forall s k, (forall o, o ∈ os -> Cfg.truthy (env !! Cfg.var o) = true ->
                          (Cfg.section o, Cfg.key o) <> (s, k)) ->
               Cfg.get_section d' s !! k = Cfg.get_section d s !! k).
Proof.
  revert d. induction os as [|o os IH]; intros d Hm.
  - injection Hm as <-. repeat split; intros; try reflexivity.
    exfalso. eapply not_elem_of_nil. eassumption.
  - cbn [Cfg.merge_sections] in Hm.
    destruct (Cfg.from_env env (Cfg.var o) (Cfg.section o) (Cfg.key o) (Cfg.conv o) d)
      as [d1|d1] eqn:Hstep; [|discriminate].
    cbn [Cfg.and_then] in Hm. destruct (IH d1 Hm) as (Hok & Htop & Hsec).
    apply from_env_done in Hstep as [[Hoff ->]|(x & Hx & Hon & Hd & ->)].
    + repeat split.
      * intros o' [->|Ho']%elem_of_cons Ht; [congruence|]. apply Hok; assumption.
      * intros j Hj. apply Htop. intros o' Ho'. apply Hj. right. assumption.
      * intros s k Hsk. apply Hsec. intros o' Ho'. apply Hsk. right. assumption.
    + repeat split.
      * intros o' [->|Ho']%elem_of_cons Ht; [assumption|].
        specialize (Hok o' Ho' Ht). rewrite assigned_not_a_dict in Hok; assumption.
      * intros j Hj. rewrite Htop by (intros o' Ho'; apply Hj; right; assumption).
        apply assigned_lookup. apply Hj; [left|assumption].
      * intros s k Hsk. rewrite Hsec by (intros o' Ho'; apply Hsk; right; assumption).
        rewrite assigned_section, decide_False; [reflexivity|].
        apply Hsk; [left|assumption].
Qed.

(** Each variable that is set ends up in its section. *)
Lemma merge_sections_sets (env : Cfg.environ) (os : list Cfg.override) (d d' : Cfg.dict) :
  NoDup ((fun o => (Cfg.section o, Cfg.key o)) <$> os) ->
  Cfg.merge_sections env os d = Cfg.Done d' ->
  forall o x, o ∈ os -> env !! Cfg.var o = Some x -> Cfg.truthy (Some x) = true ->
    Cfg.get_section d' (Cfg.section o) !! Cfg.key o = Some (Cfg.conv o x).
Proof.
  revert d. induction os as [|o os IH]; intros d Hnd Hm o' x Ho' Hx Ht.
  - exfalso. eapply not_elem_of_nil. eassumption.
  - rewrite fmap_cons in Hnd. apply NoDup_cons in Hnd as [Hfresh Hnd].
    cbn [Cfg.merge_sections] in Hm.
    destruct (Cfg.from_env env (Cfg.var o) (Cfg.section o) (Cfg.key o) (Cfg.conv o) d)
      as [d1|d1] eqn:Hstep; [|discriminate].
    cbn [Cfg.and_then] in Hm.
    apply elem_of_cons in Ho' as [->|Ho'].
    + destruct (merge_sections_done env os d1 d' Hm) as (_ & _ & Hsec).
      rewrite Hsec.
      * apply from_env_done in Hstep as [[Hoff _]|(y & Hy & _ & _ & ->)].
        -- rewrite Hx in Hoff. congruence.
        -- rewrite assigned_section, decide_True by reflexivity. congruence.
      * intros o2 Ho2 _ Heq. apply Hfresh. rewrite <- Heq.
        apply (list_elem_of_fmap_2 (fun o => (Cfg.section o, Cfg.key o))). assumption.
    + apply (IH d1); assumption.
Qed.

(** Assignments that are in place already change nothing. *)
Lemma merge_sections_fixed (env : Cfg.environ) (os : list Cfg.override) (d : Cfg.dict) :
  (forall o x, o ∈ os -> env !! Cfg.var o = Some x -> Cfg.truthy (Some x) = true ->
     Cfg.get_section d (Cfg.section o) !! Cfg.key o = Some (Cfg.conv o x)) ->
  Cfg.merge_sections env os d = Cfg.Done d.
Proof.
  induction os as [|o os IH]; intros Hset; [reflexivity|].
  cbn [Cfg.merge_sections].
  assert (Hstep : Cfg.from_env env (Cfg.var o) (Cfg.section o) (Cfg.key o) (Cfg.conv o) d
                  = Cfg.Done d).
  { unfold Cfg.from_env. destruct (env !! Cfg.var o) as [x|] eqn:Hx; [|reflexivity].
    destruct (Cfg.truthy (Some x)) eqn:Ht; [|reflexivity].
    destruct (get_section_lookup _ _ _ _ (Hset o x ltac:(left) Hx Ht)) as (m & Hm & Hk).
    unfold Cfg.set_in_section. rewrite Hm.
    rewrite (insert_id m) by assumption. rewrite insert_id by assumption. reflexivity. }
  rewrite Hstep. cbn [Cfg.and_then]. apply IH.
  intros o' x Ho'. apply Hset. right. assumption.
Qed.

Lemma overrides_cells_NoDup :
  NoDup ((fun o => (Cfg.section o, Cfg.key o)) <$> Cfg.overrides).
Proof.
  unfold Cfg.overrides. cbn [fmap list_fmap Cfg.section Cfg.key].
  repeat (apply NoDup_cons; split;
          [rewrite ?elem_of_cons, elem_of_nil; intros H;
           repeat (destruct H as [H|H]; [discriminate H|]); exact H|]).
  apply NoDup_nil. exact I.
Qed.

(** ** The keys written last *)

Ltac lookup_inserts :=
  repeat (rewrite lookup_insert_eq || rewrite lookup_insert_ne by discriminate).

Lemma set_top_level_other (env : Cfg.environ) (d : Cfg.dict) (j : string) :
  j ∉ Cfg.top_level_keys -> Cfg.set_top_level env d !! j = d !! j.
Proof.
  unfold Cfg.top_level_keys, Cfg.set_top_level. intros Hj.
  rewrite !lookup_insert_ne; [reflexivity|..];
    intros <-; apply Hj; rewrite !elem_of_cons; tauto.
Qed.

Lemma set_top_level_section (env : Cfg.environ) (d : Cfg.dict) (s : string) :
  s ∉ Cfg.top_level_keys -> Cfg.get_section (Cfg.set_top_level env d) s = Cfg.get_section d s.
Proof.
  intros Hs. unfold Cfg.get_section. rewrite set_top_level_other by assumption. reflexivity.
Qed.

Lemma set_top_level_twice (env : Cfg.environ) (d : Cfg.dict) :
  Cfg.set_top_level env (Cfg.set_top_level env d) = Cfg.set_top_level env d.
Proof.
  apply map_eq. intros j.
  destruct (decide (j ∈ Cfg.top_level_keys)) as [Hj|Hj].
  - unfold Cfg.top_level_keys in Hj. rewrite !elem_of_cons, elem_of_nil in Hj.
    unfold Cfg.set_top_level.
    repeat (destruct Hj as [->|Hj]; [lookup_inserts; reflexivity|]).
    contradiction.
  - rewrite set_top_level_other by assumption. reflexivity.
Qed.

Lemma override_section_not_top_level (o : Cfg.override) :
  o ∈ Cfg.overrides -> Cfg.section o ∉ Cfg.top_level_keys.
Proof.
  unfold Cfg.overrides, Cfg.top_level_keys. rewrite !elem_of_cons, !elem_of_nil.
  intros Ho Hs.
  repeat (destruct Ho as [->|Ho];
          [cbn [Cfg.section] in Hs;
           repeat (destruct Hs as [Hs|Hs]; [discriminate Hs|]); exact Hs|]).
  exact Ho.
Qed.

Lemma merge_env_vars_done (env : Cfg.environ) (d d' : Cfg.dict) :
  Cfg._merge_env_vars env d = Cfg.Done d' ->
  exists d1, Cfg.merge_sections env Cfg.overrides d = Cfg.Done d1 /\
             d' = Cfg.set_top_level env d1.
Proof.
  rewrite merge_env_vars_sections.
  destruct (Cfg.merge_sections env Cfg.overrides d) as [d1|d1]; [|discriminate].
  intros [= <-]. exists d1. split; reflexivity.
Qed.

Lemma lower_false : Cfg.lower "false" <> "true".
Proof. discriminate. Qed.

(** X: the six top-level keys never come from the file.  When
    [_merge_env_vars] returns, the four API keys hold the values of their
    variables, [None] when a variable is unset, whatever the file said;
    [environment] is the variable or "development"; and [debug] is true
    exactly when DEBUG is set to "true" in any mix of upper and lower
    case. *)
Theorem top_level_always_written (env : Cfg.environ) (d d' : Cfg.dict) :
  Cfg._merge_env_vars env d = Cfg.Done d' ->
  d' !! "mt5_login" = Some (from_option Cfg.VStr Cfg.VNone (env !! "MT5_LOGIN")) /\
  d' !! "mt5_password" = Some (from_option Cfg.VStr Cfg.VNone (env !! "MT5_PASSWORD")) /\
  d' !! "mt5_server" = Some (from_option Cfg.VStr Cfg.VNone (env !! "MT5_SERVER")) /\
  d' !! "alpha_vantage_api_key"
    = Some (from_option Cfg.VStr Cfg.VNone (env !! "ALPHA_VANTAGE_API_KEY")) /\
  d' !! "environment" = Some (Cfg.VStr (default "development" (env !! "ENVIRONMENT"))) /\
  exists b, d' !! "debug" = Some (Cfg.VBool b) /\
            (b = true <-> exists x, env !! "DEBUG" = Some x /\ Cfg.lower x = "true").
Proof.
  intros (d1 & _ & ->)%merge_env_vars_done. unfold Cfg.set_top_level.
  repeat (split; [lookup_inserts; reflexivity|]).
  eexists. split; [lookup_inserts; reflexivity|].
  rewrite bool_decide_eq_true. destruct (env !! "DEBUG") as [x|]; cbn [default].
  - split; [intros H; exists x; split; [reflexivity|assumption]|].
    intros (y & [= <-] & H). assumption.
  - split; [intros H; exfalso; apply lower_false; assumption|].
    intros (y & [=] & _).
Qed.

(** X: merging the same environment a second time changes nothing: what
    [_merge_env_vars] returns is a fixed point of it. *)
Theorem merge_idempotent (env : Cfg.environ) (d d' : Cfg.dict) :
  Cfg._merge_env_vars env d = Cfg.Done d' ->
  Cfg._merge_env_vars env d' = Cfg.Done d'.
Proof.
  intros (d1 & Hm & ->)%merge_env_vars_done. rewrite merge_env_vars_sections.
  rewrite merge_sections_fixed.
  - cbn [Cfg.and_then]. rewrite set_top_level_twice. reflexivity.
  - intros o x Ho Hx Ht.
    rewrite set_top_level_section by (apply override_section_not_top_level; assumption).
    apply (merge_sections_sets env Cfg.overrides d d1 overrides_cells_NoDup Hm o x);
      assumption.
Qed.

Lemma top_level_always_written_witness :
  Cfg._merge_env_vars sample_environ sample_document = Cfg.Done merged_sample /\
  merged_sample !! "mt5_login" = Some Cfg.VNone /\
  merged_sample !! "debug" = Some (Cfg.VBool true).
Proof.
  split; [vm_compute; reflexivity|].
  destruct (top_level_always_written sample_environ sample_document merged_sample)
    as (Hlogin & _ & _ & _ & _ & b & Hdebug & Hb); [vm_compute; reflexivity|].
  split; [exact Hlogin|]. rewrite Hdebug. do 2 f_equal. apply Hb.
  exists "True". split; reflexivity.
Defined.

Lemma merge_idempotent_witness :
  Cfg._merge_env_vars sample_environ sample_document = Cfg.Done merged_sample /\
  Cfg._merge_env_vars sample_environ merged_sample = Cfg.Done merged_sample.
Proof.
  split; [vm_compute; reflexivity|].
  apply (merge_idempotent sample_environ sample_document). vm_compute. reflexivity.
Defined.

(** ** The lists of symbols and time frames *)

Lemma split_comma_nonempty (s : string) : Cfg.split_comma s <> [].
Proof.
  destruct s as [|c rest]; cbn [Cfg.split_comma]; [discriminate|].
  destruct (Ascii.eqb c Cfg.comma); [discriminate|].
  destruct (Cfg.split_comma rest); discriminate.
Qed.

Lemma join_split_comma (s : string) : Cfg.join_comma (Cfg.split_comma s) = s.
Proof.
  induction s as [|c rest IH]; [reflexivity|]. cbn [Cfg.split_comma].
  pose proof (split_comma_nonempty rest) as Hne.
  destruct (Ascii.eqb c Cfg.comma) eqn:Hc.
  - apply Ascii.eqb_eq in Hc as ->.
    destruct (Cfg.split_comma rest) as [|w ws]; [contradiction|].
    change (Cfg.join_comma (EmptyString :: w :: ws))
      with (String Cfg.comma (Cfg.join_comma (w :: ws))).
    rewrite IH. reflexivity.
  - destruct (Cfg.split_comma rest) as [|w ws]; [contradiction|].
    rewrite <- IH. destruct ws as [|w' ws]; reflexivity.
Qed.

Lemma split_comma_items (s : string) :
  Forall (fun w => Cfg.comma ∉ String.list_ascii_of_string w) (Cfg.split_comma s).
Proof.
  induction s as [|c rest IH]; cbn [Cfg.split_comma].
  - repeat constructor. cbn. apply not_elem_of_nil.
  - destruct (Ascii.eqb c Cfg.comma) eqn:Hc.
    + constructor; [cbn; apply not_elem_of_nil|assumption].
    + destruct (Cfg.split_comma rest) as [|w ws].
      * repeat constructor. cbn [String.list_ascii_of_string].
        rewrite elem_of_cons, elem_of_nil. intros [Heq|[]].
        rewrite <- Heq, Ascii.eqb_refl in Hc. discriminate.
      * apply Forall_cons in IH as [Hw Hws]. constructor; [|assumption].
        cbn [String.list_ascii_of_string]. rewrite elem_of_cons. intros [Heq|H].
        -- rewrite <- Heq, Ascii.eqb_refl in Hc. discriminate.
        -- apply Hw, H.
Qed.

(** X: SYMBOLS and TIMEFRAMES are cut at every comma and at nothing else.
    When the variable is set and not empty, [trading.symbols] (or
    [trading.timeframes]) becomes a list of strings that is not empty,
    whose items hold no comma, and which joined with commas is the
    variable's value again: blanks around an item and empty items are
    kept. *)
Theorem lists_from_environment (env : Cfg.environ) (d d' : Cfg.dict)
    (v k x : string) :
  Cfg._merge_env_vars env d = Cfg.Done d' ->
  (v, k) ∈ [("SYMBOLS", "symbols"); ("TIMEFRAMES", "timeframes")] ->
  env !! v = Some x -> x <> EmptyString ->
  exists l, Cfg.get_section d' "trading" !! k = Some (Cfg.VList (Cfg.VStr <$> l)) /\
            l <> [] /\
            Cfg.join_comma l = x /\
            Forall (fun w => Cfg.comma ∉ String.list_ascii_of_string w) l.
Proof.
  intros (d1 & Hm & ->)%merge_env_vars_done Hvk Hx Hne.
  exists (Cfg.split_comma x).
  split; [|split; [apply split_comma_nonempty|split;
                   [apply join_split_comma|apply split_comma_items]]].
  assert (Ht : Cfg.truthy (Some x) = true).
  { unfold Cfg.truthy. rewrite bool_decide_eq_false_2 by assumption. reflexivity. }
  rewrite set_top_level_section
    by (unfold Cfg.top_level_keys; rewrite !elem_of_cons, elem_of_nil;
        intros H; repeat (destruct H as [H|H]; [discriminate H|]); exact H).
  rewrite !elem_of_cons, elem_of_nil in Hvk.
  destruct Hvk as [[= -> ->]|[[= -> ->]|[]]].
  - apply (merge_sections_sets env Cfg.overrides d d1 overrides_cells_NoDup Hm
             (Cfg.mkOverride "SYMBOLS" "trading" "symbols" Cfg.symbols_of) x);
      [repeat constructor|assumption..].
  - apply (merge_sections_sets env Cfg.overrides d d1 overrides_cells_NoDup Hm
             (Cfg.mkOverride "TIMEFRAMES" "trading" "timeframes" Cfg.symbols_of) x);
      [repeat constructor|assumption..].
Qed.

Lemma lists_from_environment_witness :
  exists l, Cfg.get_section merged_sample "trading" !! "symbols"
              = Some (Cfg.VList (Cfg.VStr <$> l)) /\
            l <> [] /\
            Cfg.join_comma l = "EURUSD, GBPUSD,XAUUSD" /\
            Forall (fun w => Cfg.comma ∉ String.list_ascii_of_string w) l.
Proof.
  apply (lists_from_environment sample_environ sample_document merged_sample
           "SYMBOLS" "symbols");
    [vm_compute; reflexivity|repeat constructor|vm_compute; reflexivity|discriminate].
Defined.

(** ** The path of the configuration file *)

Lemma truthy_true (p : string) : p <> EmptyString -> Cfg.truthy (Some p) = true.
Proof.
  intros H. unfold Cfg.truthy. rewrite bool_decide_eq_false_2 by assumption. reflexivity.
Qed.

Lemma truthy_inv (v : option string) :
  Cfg.truthy v = true -> exists p, v = Some p /\ p <> EmptyString.
Proof.
  destruct v as [p|]; [|discriminate]. unfold Cfg.truthy.
  destruct (bool_decide_reflect (p = EmptyString)); [discriminate|].
  intros _. exists p. split; [reflexivity|assumption].
Qed.

Lemma config_path_of_nonempty (env : Cfg.environ) (stored config_file : option string) :
  Cfg.config_path_of env stored config_file <> EmptyString.
Proof.
  unfold Cfg.config_path_of.
  destruct (Cfg.truthy config_file) eqn:Hf.
  - destruct (truthy_inv _ Hf) as (p & -> & Hp). rewrite Hf. assumption.
  - destruct stored as [p|]; [|discriminate].
    destruct (Cfg.truthy (Some p)) eqn:Hp; [|discriminate].
    destruct (truthy_inv _ Hp) as (q & [= <-] & Hq). assumption.
Qed.

(** X: the path [load_config] settles on.  A file name given to the call
    (not empty) wins; otherwise the path stored by an earlier call; only
    when there is neither is the path made from ENVIRONMENT.  The path is
    never empty, so once it is stored a call without a file name keeps it,
    whatever ENVIRONMENT has become since. *)
Theorem config_path_sticky (env env' : Cfg.environ) (stored config_file : option string) :
  let p := Cfg.config_path_of env stored config_file in
  (Cfg.truthy config_file = true -> Some p = config_file) /\
  (Cfg.truthy config_file = false -> Cfg.truthy stored = true -> Some p = stored) /\
  (Cfg.truthy config_file = false -> Cfg.truthy stored = false ->
   p = ("config/" ++ default "development" (env !! "ENVIRONMENT") ++ ".yaml")%string) /\
  Cfg.config_path_of env' (Some p) None = p.
Proof.
  cbv zeta. repeat split.
  - intros Hf. unfold Cfg.config_path_of. rewrite Hf.
    destruct (truthy_inv _ Hf) as (p & -> & Hp). rewrite Hf. reflexivity.
  - intros Hf Hs. unfold Cfg.config_path_of. rewrite Hf.
    destruct (truthy_inv _ Hs) as (p & -> & Hp). rewrite Hs. reflexivity.
  - intros Hf Hs. unfold Cfg.config_path_of. rewrite Hf.
    destruct stored as [p|]; [rewrite Hs|]; reflexivity.
  - pose proof (config_path_of_nonempty env stored config_file) as Hne.
    set (p := Cfg.config_path_of env stored config_file) in *.
    unfold Cfg.config_path_of. change (Cfg.truthy None) with false. cbv iota.
    rewrite truthy_true by assumption. reflexivity.
Qed.

(** * Properties of the configuration manager on shared dictionaries *)

Lemma dict_at_insert (h : Obj.store) (a b : Obj.loc) (m : Obj.dict) :
  Obj.dict_at (<[a := m]> h) b = if decide (a = b) then m else Obj.dict_at h b.
Proof.
  unfold Obj.dict_at. destruct (decide (a = b)) as [<-|Hab].
  - rewrite lookup_insert_eq. reflexivity.
  - rewrite lookup_insert_ne by exact Hab. reflexivity.
Qed.

Lemma dict_at_fresh (h : Obj.store) (a : Obj.loc) : a ∉ dom h -> Obj.dict_at h a = ∅.
Proof.
  intros Ha. unfold Obj.dict_at. apply not_elem_of_dom in Ha. rewrite Ha. reflexivity.
Qed.

Lemma fresh_address (h : Obj.store) (r : Obj.loc) :
  fresh ({[r]} ∪ dom h) <> r /\ fresh ({[r]} ∪ dom h) ∉ dom h.
Proof.
  pose proof (is_fresh ({[r]} ∪ dom h)) as Hf. split; set_solver.
Qed.

Lemma merge_env_vars_sections_obj (env : Cfg.environ) (data : Obj.value) (h : Obj.store) :
  Obj._merge_env_vars env data h
    = Obj.and_then (Obj.merge_sections env Obj.overrides data h)
        (Obj.set_top_level env data).
Proof.
  unfold Obj._merge_env_vars, Obj.overrides, Obj.merge_sections, Obj.set_top_level.
  cbn [Obj.var Obj.section Obj.key Obj.conv].
  repeat match goal with
         | |- context [Obj.from_env ?e ?v ?s ?k ?c ?d ?x] =>
             destruct (Obj.from_env e v s k c d x); cbn [Obj.and_then]; try reflexivity
         end.
Qed.

(** ** One conditional assignment *)

(** What a conditional assignment that returns has done: nothing when the
    variable is unset or empty; otherwise the section holds a dictionary
    afterwards, that dictionary has the value under the key, the section
    is new exactly when it was missing, and no other cell of the store
    has changed. *)
Lemma from_env_assigns (env : Cfg.environ) (v s k : string) (c : string -> Obj.value)
    (r : Obj.loc) (h h1 : Obj.store) :
  s <> k ->
  Obj.from_env env v s k c (Obj.VDict r) h = Obj.Done h1 ->
  (Cfg.truthy (env !! v) = false /\ h1 = h) \/
  (exists x a,
     env !! v = Some x /\ Cfg.truthy (env !! v) = true /\
     Obj.dict_at h1 r !! s = Some (Obj.VDict a) /\
     Obj.dict_at h1 a !! k = Some (c x) /\
     (Obj.dict_at h r !! s = Some (Obj.VDict a) \/
      (Obj.dict_at h r !! s = None /\ a <> r /\ a ∉ dom h)) /\
     dom h ⊆ dom h1 /\ a ∈ dom h1 /\
     (forall b j, (b, j) <> (a, k) -> (b, j) <> (r, s) ->
        Obj.dict_at h1 b !! j = Obj.dict_at h b !! j) /\
     (forall t, Obj.dict_at h r !! s = Some t ->
        forall b j, (b, j) <> (a, k) -> Obj.dict_at h1 b !! j = Obj.dict_at h b !! j)).
Proof.
  intros Hsk. unfold Obj.from_env. destruct (env !! v) as [x|] eqn:Hx.
  2:{ intros [= <-]. left. split; reflexivity. }
  destruct (Cfg.truthy (Some x)) eqn:Ht.
  2:{ intros [= <-]. left. split; reflexivity. }
  unfold Obj.set_in_section.
  destruct (Obj.dict_at h r !! s) as [t|] eqn:Hs.
  - destruct t as [| | | | | | |a]; try discriminate. cbn [Obj.setitem]. intros [= <-].
    right. exists x, a. split; [reflexivity|]. split; [reflexivity|].
    assert (Hcell : forall b j, (b, j) <> (a, k) ->
              Obj.dict_at (<[a := <[k := c x]> (Obj.dict_at h a)]> h) b !! j
                = Obj.dict_at h b !! j).
    { intros b j Hne. rewrite dict_at_insert. destruct (decide (a = b)) as [<-|Hab];
        [|reflexivity].
      apply lookup_insert_ne. intros <-. apply Hne. reflexivity. }
    split.
    { rewrite Hcell by congruence. exact Hs. }
    split.
    { rewrite dict_at_insert, decide_True by reflexivity. apply lookup_insert_eq. }
    split; [left; reflexivity|].
    split; [rewrite dom_insert; set_solver|].
    split; [rewrite dom_insert; set_solver|].
    split; [intros b j Hne _; apply Hcell, Hne|].
    intros _ _. exact Hcell.
  - cbn [Obj.setitem]. intros [= <-].
    destruct (fresh_address h r) as [Hfr Hfd].
    set (a := fresh ({[r]} ∪ dom h)) in *.
    set (hr := <[r := <[s := Obj.VDict a]> (Obj.dict_at h r)]> (<[a := ∅]> h)).
    assert (Hnew : Obj.dict_at hr a = ∅).
    { unfold hr. rewrite dict_at_insert, decide_False by congruence.
      rewrite dict_at_insert, decide_True by reflexivity. reflexivity. }
    assert (Hroot : Obj.dict_at hr r = <[s := Obj.VDict a]> (Obj.dict_at h r)).
    { unfold hr. rewrite dict_at_insert, decide_True by reflexivity. reflexivity. }
    assert (Hrest : forall b, b <> a -> b <> r -> Obj.dict_at hr b = Obj.dict_at h b).
    { intros b Hba Hbr. unfold hr. rewrite dict_at_insert, decide_False by congruence.
      rewrite dict_at_insert, decide_False by congruence. reflexivity. }
    rewrite Hnew.
    right. exists x, a. split; [reflexivity|]. split; [reflexivity|].
    split.
    { rewrite dict_at_insert, decide_False, Hroot by congruence. apply lookup_insert_eq. }
    split.
    { rewrite dict_at_insert, decide_True by reflexivity. apply lookup_insert_eq. }
    split; [right; repeat split; assumption|].
    split; [unfold hr; rewrite !dom_insert; set_solver|].
    split; [rewrite dom_insert; set_solver|].
    split; [|discriminate].
    intros b j Hak Hrs. rewrite dict_at_insert.
    destruct (decide (a = b)) as [<-|Hab].
    + rewrite lookup_insert_ne by (intros <-; apply Hak; reflexivity).
      rewrite dict_at_fresh by exact Hfd. reflexivity.
    + destruct (decide (b = r)) as [->|Hbr].
      * rewrite Hroot. apply lookup_insert_ne. intros <-. apply Hrs. reflexivity.
      * rewrite Hrest by congruence. reflexivity.
Qed.



(** ** The names *)

Lemma section_key_apart (s k : string) :
  s ∈ Obj.section_names -> k ∈ Obj.key_names -> s <> k.
Proof.
  unfold Obj.section_names, Obj.key_names. rewrite !elem_of_cons, !elem_of_nil.
  intros Hs Hk ->.
  repeat (destruct Hs as [Hs|Hs]; [subst;
    repeat (destruct Hk as [Hk|Hk]; [discriminate Hk|]); exact Hk|]).
  exact Hs.
Qed.

Lemma section_not_top_level (s : string) :
  s ∈ Obj.section_names -> s ∉ Cfg.top_level_keys.
Proof.
  unfold Obj.section_names, Cfg.top_level_keys. rewrite !elem_of_cons, !elem_of_nil.
  intros Hs Ht.
  repeat (destruct Hs as [Hs|Hs]; [subst;
    repeat (destruct Ht as [Ht|Ht]; [discriminate Ht|]); exact Ht|]).
  exact Hs.
Qed.

Lemma key_not_top_level (k : string) :
  k ∈ Obj.key_names -> k ∉ Cfg.top_level_keys.
Proof.
  unfold Obj.key_names, Cfg.top_level_keys. rewrite !elem_of_cons, !elem_of_nil.
  intros Hk Ht.
  repeat (destruct Hk as [Hk|Hk]; [subst;
    repeat (destruct Ht as [Ht|Ht]; [discriminate Ht|]); exact Ht|]).
  exact Hk.
Qed.

Lemma overrides_plain : Obj.plain Obj.overrides.
Proof.
  unfold Obj.plain, Obj.overrides, Obj.section_names, Obj.key_names.
  repeat (apply List.Forall_cons;
          [cbn [Obj.section Obj.key]; rewrite !elem_of_cons; tauto|]).
  apply List.Forall_nil.
Qed.

(** ** The conditional assignments together *)

(** A section the document has keeps what it holds. *)
Lemma from_env_keeps_sections (env : Cfg.environ) (v s k : string)
    (c : string -> Obj.value) (r : Obj.loc) (h h1 : Obj.store) (s' : string)
    (t : Obj.value) :
  s ∈ Obj.section_names -> k ∈ Obj.key_names -> s' ∈ Obj.section_names ->
  Obj.from_env env v s k c (Obj.VDict r) h = Obj.Done h1 ->
  Obj.dict_at h r !! s' = Some t -> Obj.dict_at h1 r !! s' = Some t.
Proof.
  intros Hs Hk Hs' Hstep Ht.
  apply from_env_assigns in Hstep as [[_ ->]|(x & a & _ & _ & _ & _ & Hwas & _ & _ & Hnew & Hold)];
    [exact Ht| |apply section_key_apart; assumption].
  destruct Hwas as [Hwas|(Hnone & _ & _)].
  - rewrite (Hold _ Hwas); [exact Ht|].
    intros [= _ E]. revert E. apply section_key_apart; assumption.
  - rewrite Hnew; [exact Ht| |].
    + intros [= _ E]. revert E. apply section_key_apart; assumption.
    + intros [= E]. rewrite E, Hnone in Ht. discriminate Ht.
Qed.

Lemma merge_sections_keeps_sections (env : Cfg.environ) (os : list Obj.override)
    (r : Obj.loc) (h h' : Obj.store) (s' : string) (t : Obj.value) :
  Obj.plain os -> s' ∈ Obj.section_names ->
  Obj.merge_sections env os (Obj.VDict r) h = Obj.Done h' ->
  Obj.dict_at h r !! s' = Some t -> Obj.dict_at h' r !! s' = Some t.
Proof.
  intros Hplain Hs'. revert h. induction os as [|o os IH]; intros h Hm Ht.
  - injection Hm as <-. exact Ht.
  - apply Forall_cons in Hplain as [[Hs Hk] Hplain].
    cbn [Obj.merge_sections] in Hm.
    destruct (Obj.from_env env (Obj.var o) (Obj.section o) (Obj.key o) (Obj.conv o)
                (Obj.VDict r) h) as [h1|e h1] eqn:Hstep; [|discriminate].
    cbn [Obj.and_then] in Hm. apply (IH Hplain h1 Hm).
    exact (from_env_keeps_sections env _ _ _ _ r h h1 s' t Hs Hk Hs' Hstep Ht).
Qed.

(** The cells a run of conditional assignments can change: a section of
    the document that was missing and whose variable is set, and the key
    of a set variable in the dictionary its section holds in the end. *)
Lemma merge_sections_frame (env : Cfg.environ) (os : list Obj.override)
    (r : Obj.loc) (h h' : Obj.store) (b : Obj.loc) (j : string) :
  Obj.plain os ->
  Obj.merge_sections env os (Obj.VDict r) h = Obj.Done h' ->
  (forall o, o ∈ os -> Obj.active env o -> b = r -> Obj.section o = j ->
             Obj.dict_at h r !! j <> None) ->
  (forall o, o ∈ os -> Obj.active env o ->
             Obj.dict_at h' r !! Obj.section o = Some (Obj.VDict b) -> Obj.key o <> j) ->
  Obj.dict_at h' b !! j = Obj.dict_at h b !! j.
Proof.
  intros Hplain. revert h. induction os as [|o os IH]; intros h Hm Hmiss Hkey.
  - injection Hm as <-. reflexivity.
  - pose proof Hplain as Hplain0.
    apply Forall_cons in Hplain as [[Hs Hk] Hplain].
    cbn [Obj.merge_sections] in Hm.
    destruct (Obj.from_env env (Obj.var o) (Obj.section o) (Obj.key o) (Obj.conv o)
                (Obj.VDict r) h) as [h1|e h1] eqn:Hstep; [|discriminate].
    cbn [Obj.and_then] in Hm.
    assert (Hkeep : forall s' t, s' ∈ Obj.section_names ->
              Obj.dict_at h r !! s' = Some t -> Obj.dict_at h1 r !! s' = Some t).
    { intros s' t Hs' Ht.
      exact (from_env_keeps_sections env _ _ _ _ r h h1 s' t Hs Hk Hs' Hstep Ht). }
    rewrite (IH Hplain h1 Hm).
    + apply from_env_assigns in Hstep
        as [[_ ->]|(x & a & Hx & Hon & Hsec & _ & Hwas & _ & _ & Hnew & Hold)];
        [reflexivity| |apply section_key_apart; assumption].
      assert (Hend : Obj.dict_at h' r !! Obj.section o = Some (Obj.VDict a)).
      { exact (merge_sections_keeps_sections env os r h1 h' _ _ Hplain Hs Hm Hsec). }
      assert (Hcell : (b, j) <> (a, Obj.key o)).
      { intros [= -> ->]. eapply (Hkey o); [left|exact Hon|exact Hend|reflexivity]. }
      destruct Hwas as [Hwas|(Hnone & _ & _)].
      * apply (Hold _ Hwas). exact Hcell.
      * apply Hnew; [exact Hcell|]. intros [= -> ->].
        eapply (Hmiss o); [left|exact Hon|reflexivity|reflexivity|exact Hnone].
    + intros o' Ho' Hact -> Hj Habs.
      destruct (Obj.dict_at h r !! j) as [t|] eqn:Ht.
      * rewrite (Hkeep j t) in Habs; [discriminate Habs| |exact Ht].
        rewrite <- Hj. apply (proj1 (Forall_forall _ _) Hplain o' Ho').
      * eapply (Hmiss o'); [right; exact Ho'|exact Hact|reflexivity|exact Hj|reflexivity].
    + intros o' Ho'. apply Hkey. right. exact Ho'.
Qed.

Lemma merge_sections_dom (env : Cfg.environ) (os : list Obj.override)
    (r : Obj.loc) (h h' : Obj.store) :
  Obj.plain os ->
  Obj.merge_sections env os (Obj.VDict r) h = Obj.Done h' -> dom h ⊆ dom h'.
Proof.
  intros Hplain. revert h. induction os as [|o os IH]; intros h Hm.
  - injection Hm as <-. reflexivity.
  - apply Forall_cons in Hplain as [[Hs Hk] Hplain].
    cbn [Obj.merge_sections] in Hm.
    destruct (Obj.from_env env (Obj.var o) (Obj.section o) (Obj.key o) (Obj.conv o)
                (Obj.VDict r) h) as [h1|e h1] eqn:Hstep; [|discriminate].
    cbn [Obj.and_then] in Hm. specialize (IH Hplain h1 Hm).
    apply from_env_assigns in Hstep
      as [[_ ->]|(x & a & _ & _ & _ & _ & _ & Hdom & _)];
      [exact IH| |apply section_key_apart; assumption].
    transitivity (dom h1); assumption.
Qed.

(** ** The six assignments at the top level *)

Lemma dict_at_setitem_ne (h : Obj.store) (r : Obj.loc) (k : string) (v : Obj.value)
    (b : Obj.loc) (j : string) :
  (b = r -> j <> k) ->
  Obj.dict_at (<[r := <[k := v]> (Obj.dict_at h r)]> h) b !! j = Obj.dict_at h b !! j.
Proof.
  intros Hne. rewrite dict_at_insert. destruct (decide (r = b)) as [<-|Hrb]; [|reflexivity].
  apply lookup_insert_ne. intros <-. exact (Hne eq_refl eq_refl).
Qed.

Lemma dict_at_setitem_eq (h : Obj.store) (r : Obj.loc) (k : string) (v : Obj.value) :
  Obj.dict_at (<[r := <[k := v]> (Obj.dict_at h r)]> h) r !! k = Some v.
Proof.
  rewrite dict_at_insert, decide_True by reflexivity. apply lookup_insert_eq.
Qed.

Lemma set_top_level_done (env : Cfg.environ) (r : Obj.loc) (h : Obj.store) :
  exists h',
    Obj.set_top_level env (Obj.VDict r) h = Obj.Done h' /\
    dom h ⊆ dom h' /\
    (forall b j, (b = r -> j ∉ Cfg.top_level_keys) ->
       Obj.dict_at h' b !! j = Obj.dict_at h b !! j) /\
    Obj.dict_at h' r !! "mt5_login" = Some (Obj.of_getenv (env !! "MT5_LOGIN")) /\
    Obj.dict_at h' r !! "mt5_password" = Some (Obj.of_getenv (env !! "MT5_PASSWORD")) /\
    Obj.dict_at h' r !! "mt5_server" = Some (Obj.of_getenv (env !! "MT5_SERVER")) /\
    Obj.dict_at h' r !! "alpha_vantage_api_key"
      = Some (Obj.of_getenv (env !! "ALPHA_VANTAGE_API_KEY")) /\
    Obj.dict_at h' r !! "environment"
      = Some (Obj.VStr (default "development" (env !! "ENVIRONMENT"))) /\
    Obj.dict_at h' r !! "debug"
      = Some (Obj.VBool (bool_decide
                (Cfg.lower (default "false" (env !! "DEBUG")) = "true"))).
Proof.
  unfold Obj.set_top_level. cbn [Obj.setitem Obj.and_then].
  eexists. split; [reflexivity|].
  split; [rewrite !dom_insert; set_solver|].
  split.
  - intros b j Hj.
    rewrite !dict_at_setitem_ne; [reflexivity|..];
      intros -> ->; apply (Hj eq_refl); unfold Cfg.top_level_keys;
      rewrite !elem_of_cons; tauto.
  - repeat split;
      repeat first [apply dict_at_setitem_eq
                   | rewrite dict_at_setitem_ne by (intros _; discriminate)].
Qed.

(** ** Sections that hold different dictionaries *)

Lemma from_env_dom (env : Cfg.environ) (v s k : string) (c : string -> Obj.value)
    (r : Obj.loc) (h h1 : Obj.store) :
  s <> k -> Obj.from_env env v s k c (Obj.VDict r) h = Obj.Done h1 -> dom h ⊆ dom h1.
Proof.
  intros Hsk Hstep.
  apply from_env_assigns in Hstep as [[_ ->]|(x & a & _ & _ & _ & _ & _ & Hdom & _)];
    [reflexivity|exact Hdom|exact Hsk].
Qed.

(** What a conditional assignment does to the sections of the document:
    it leaves them as they are, or it makes the one it is about, which was
    missing, hold a dictionary that was not in the store. *)
Lemma from_env_sections (env : Cfg.environ) (v s k : string) (c : string -> Obj.value)
    (r : Obj.loc) (h h1 : Obj.store) (s' : string) :
  s ∈ Obj.section_names -> k ∈ Obj.key_names -> s' ∈ Obj.section_names ->
  Obj.from_env env v s k c (Obj.VDict r) h = Obj.Done h1 ->
  Obj.dict_at h1 r !! s' = Obj.dict_at h r !! s' \/
  (s' = s /\ Obj.dict_at h r !! s = None /\ Cfg.truthy (env !! v) = true /\
   exists a, Obj.dict_at h1 r !! s = Some (Obj.VDict a) /\ (a ∉ dom h) /\ a ∈ dom h1).
Proof.
  intros Hs Hk Hs' Hstep.
  assert (Hcell : forall a, (r, s') <> (a, k)).
  { intros a [= _ E]. revert E. apply section_key_apart; assumption. }
  apply from_env_assigns in Hstep
    as [[_ ->]|(x & a & _ & Hon & Hsec & _ & Hwas & _ & Hin & Hnew & Hold)];
    [left; reflexivity| |apply section_key_apart; assumption].
  destruct Hwas as [Hwas|(Hnone & _ & Hfresh)].
  - left. apply (Hold _ Hwas). apply Hcell.
  - destruct (decide (s' = s)) as [->|Hne].
    + right. split; [reflexivity|]. split; [exact Hnone|]. split; [exact Hon|].
      exists a. split; [exact Hsec|]. split; [exact Hfresh|exact Hin].
    + left. apply Hnew; [apply Hcell|]. intros [= E]. exact (Hne E).
Qed.

Lemma from_env_separate (env : Cfg.environ) (v s k : string) (c : string -> Obj.value)
    (r : Obj.loc) (h h1 : Obj.store) :
  s ∈ Obj.section_names -> k ∈ Obj.key_names ->
  Obj.from_env env v s k c (Obj.VDict r) h = Obj.Done h1 ->
  Obj.separate h r -> Obj.separate h1 r.
Proof.
  intros Hs Hk Hstep Hsep s1 a1 Hs1 Ha1.
  pose proof (from_env_dom env v s k c r h h1 (section_key_apart s k Hs Hk) Hstep) as Hdom.
  destruct (from_env_sections env v s k c r h h1 s1 Hs Hk Hs1 Hstep)
    as [E1|(-> & Hnone & _ & a & Ha & Hfresh & Hin)].
  - rewrite E1 in Ha1. destruct (Hsep s1 a1 Hs1 Ha1) as [Hin Huniq].
    split; [apply Hdom, Hin|].
    intros s2 Hs2 Ha2.
    destruct (from_env_sections env v s k c r h h1 s2 Hs Hk Hs2 Hstep)
      as [E2|(-> & _ & _ & a & Ha & Hfresh & _)].
    + rewrite E2 in Ha2. exact (Huniq s2 Hs2 Ha2).
    + rewrite Ha in Ha2. injection Ha2 as ->. contradiction.
  - rewrite Ha in Ha1. injection Ha1 as <-.
    split; [exact Hin|].
    intros s2 Hs2 Ha2.
    destruct (from_env_sections env v s k c r h h1 s2 Hs Hk Hs2 Hstep)
      as [E2|(-> & _)]; [|reflexivity].
    rewrite E2 in Ha2. destruct (Hsep s2 a Hs2 Ha2) as [Hin' _]. contradiction.
Qed.

Lemma merge_sections_separate (env : Cfg.environ) (os : list Obj.override)
    (r : Obj.loc) (h h' : Obj.store) :
  Obj.plain os ->
  Obj.merge_sections env os (Obj.VDict r) h = Obj.Done h' ->
  Obj.separate h r -> Obj.separate h' r.
Proof.
  intros Hplain. revert h. induction os as [|o os IH]; intros h Hm Hsep.
  - injection Hm as <-. exact Hsep.
  - apply Forall_cons in Hplain as [[Hs Hk] Hplain].
    cbn [Obj.merge_sections] in Hm.
    destruct (Obj.from_env env (Obj.var o) (Obj.section o) (Obj.key o) (Obj.conv o)
                (Obj.VDict r) h) as [h1|e h1] eqn:Hstep; [|discriminate].
    cbn [Obj.and_then] in Hm. apply (IH Hplain h1 Hm).
    exact (from_env_separate env _ _ _ _ r h h1 Hs Hk Hstep Hsep).
Qed.

(** A section that was missing is missing afterwards, or holds a
    dictionary that was not in the store. *)
Lemma merge_sections_created (env : Cfg.environ) (os : list Obj.override)
    (r : Obj.loc) (h h' : Obj.store) (s : string) :
  Obj.plain os -> s ∈ Obj.section_names ->
  Obj.merge_sections env os (Obj.VDict r) h = Obj.Done h' ->
  Obj.dict_at h r !! s = None ->
  Obj.dict_at h' r !! s = None \/
  exists a, Obj.dict_at h' r !! s = Some (Obj.VDict a) /\ a ∉ dom h.
Proof.
  intros Hplain Hs. revert h. induction os as [|o os IH]; intros h Hm Hnone.
  - injection Hm as <-. left. exact Hnone.
  - apply Forall_cons in Hplain as [[Hso Hko] Hplain].
    cbn [Obj.merge_sections] in Hm.
    destruct (Obj.from_env env (Obj.var o) (Obj.section o) (Obj.key o) (Obj.conv o)
                (Obj.VDict r) h) as [h1|e h1] eqn:Hstep; [|discriminate].
    cbn [Obj.and_then] in Hm.
    pose proof (from_env_dom env _ _ _ _ r h h1 (section_key_apart _ _ Hso Hko) Hstep)
      as Hdom.
    destruct (from_env_sections env _ _ _ _ r h h1 s Hso Hko Hs Hstep)
      as [E|(-> & _ & _ & a & Ha & Hfresh & _)].
    + rewrite <- E in Hnone. destruct (IH Hplain h1 Hm Hnone) as [Hn|(a & Ha & Hfresh)].
      * left. exact Hn.
      * right. exists a. split; [exact Ha|]. intros Hin. apply Hfresh, Hdom, Hin.
    + right. exists a. split; [|exact Hfresh].
      exact (merge_sections_keeps_sections env os r h1 h' _ _ Hplain Hso Hm Ha).
Qed.

(** A variable that is set is in force in the end, unless a later one
    that is set writes the same key into the same dictionary. *)
Lemma merge_sections_in_force (env : Cfg.environ) (pre post : list Obj.override)
    (o : Obj.override) (x : string) (r : Obj.loc) (h h' : Obj.store) :
  Obj.plain (pre ++ o :: post) ->
  Obj.merge_sections env (pre ++ o :: post) (Obj.VDict r) h = Obj.Done h' ->
  env !! Obj.var o = Some x -> Cfg.truthy (Some x) = true ->
  (forall o' a, o' ∈ post -> Obj.active env o' ->
     Obj.dict_at h' r !! Obj.section o = Some (Obj.VDict a) ->
     Obj.dict_at h' r !! Obj.section o' = Some (Obj.VDict a) ->
     Obj.key o' <> Obj.key o) ->
  exists a, Obj.dict_at h' r !! Obj.section o = Some (Obj.VDict a) /\
            Obj.dict_at h' a !! Obj.key o = Some (Obj.conv o x).
Proof.
  intros Hplain Hm Hx Hon Hlater. revert h Hm.
  induction pre as [|p pre IH]; intros h Hm.
  - cbn [app] in Hplain, Hm. apply Forall_cons in Hplain as [[Hs Hk] Hplain].
    cbn [Obj.merge_sections] in Hm.
    destruct (Obj.from_env env (Obj.var o) (Obj.section o) (Obj.key o) (Obj.conv o)
                (Obj.VDict r) h) as [h1|e h1] eqn:Hstep; [|discriminate].
    cbn [Obj.and_then] in Hm.
    apply from_env_assigns in Hstep
      as [[Hoff _]|(x' & a & Hx' & _ & Hsec & Hval & _)];
      [rewrite Hx, Hon in Hoff; discriminate Hoff| |apply section_key_apart; assumption].
    rewrite Hx in Hx'. injection Hx' as <-.
    pose proof (merge_sections_keeps_sections env post r h1 h' _ _ Hplain Hs Hm Hsec)
      as Hend.
    exists a. split; [exact Hend|].
    rewrite <- Hval.
    apply (merge_sections_frame env post r h1 h' a (Obj.key o) Hplain Hm).
    + intros o' Ho' _ _ E _.
      pose proof (proj1 (Forall_forall _ _) Hplain o' Ho') as [Hs' _].
      revert E. apply section_key_apart; assumption.
    + intros o' Ho' Hact Hsame. exact (Hlater o' a Ho' Hact Hend Hsame).
  - cbn [app] in Hplain, Hm. apply Forall_cons in Hplain as [_ Hplain].
    cbn [Obj.merge_sections] in Hm.
    destruct (Obj.from_env env (Obj.var p) (Obj.section p) (Obj.key p) (Obj.conv p)
                (Obj.VDict r) h) as [h1|e h1] eqn:Hstep; [|discriminate].
    cbn [Obj.and_then] in Hm. exact (IH Hplain h1 Hm).
Qed.

(** No two of the conditional assignments are about the same key of the
    same section. *)
Lemma overrides_cells_apart (pre post : list Obj.override) (o o' : Obj.override) :
  Obj.overrides = pre ++ o :: post -> o' ∈ pre ++ post ->
  Obj.section o' = Obj.section o -> Obj.key o' <> Obj.key o.
Proof.
  intros Hsplit Ho' Hs Hk.
  assert (Hnd : NoDup ((fun o => (Obj.section o, Obj.key o)) <$> Obj.overrides)).
  { unfold Obj.overrides. cbn [fmap list_fmap Obj.section Obj.key].
    repeat (apply NoDup_cons; split;
            [rewrite ?elem_of_cons, elem_of_nil; intros H;
             repeat (destruct H as [H|H]; [discriminate H|]); exact H|]).
    apply NoDup_nil. exact I. }
  rewrite Hsplit, fmap_app, fmap_cons in Hnd.
  apply NoDup_app in Hnd as (_ & Hpre & Hnd).
  apply NoDup_cons in Hnd as [Hpost _].
  apply elem_of_app in Ho' as [Ho'|Ho'].
  - apply (Hpre (Obj.section o, Obj.key o)); [|left].
    rewrite <- Hs, <- Hk.
    exact (list_elem_of_fmap_2 (fun o => (Obj.section o, Obj.key o)) pre o' Ho').
  - apply Hpost. rewrite <- Hs, <- Hk.
    exact (list_elem_of_fmap_2 (fun o => (Obj.section o, Obj.key o)) post o' Ho').
Qed.

(** ** Any outcome *)




(** ** The whole method *)

Lemma merge_env_vars_returns (env : Cfg.environ) (r : Obj.loc) (h h' : Obj.store) :
  Obj._merge_env_vars env (Obj.VDict r) h = Obj.Done h' ->
  exists h1,
    Obj.merge_sections env Obj.overrides (Obj.VDict r) h = Obj.Done h1 /\
    (forall b j, (b = r -> j ∉ Cfg.top_level_keys) ->
       Obj.dict_at h' b !! j = Obj.dict_at h1 b !! j).
Proof.
  rewrite merge_env_vars_sections_obj.
  destruct (Obj.merge_sections env Obj.overrides (Obj.VDict r) h) as [h1|e h1];
    [|discriminate].
  cbn [Obj.and_then]. destruct (set_top_level_done env r h1) as (h2 & -> & _ & Hframe & _).
  intros [= <-]. exists h1. split; [reflexivity|exact Hframe].
Qed.

Lemma get_section_dict (r : Obj.loc) (h : Obj.store) (s : string) :
  Obj.get_section (Obj.VDict r) h s
    = Some (match Obj.dict_at h r !! s with
            | Some (Obj.VDict a) => Obj.dict_at h a
            | _ => ∅
            end).
Proof.
  unfold Obj.get_section. destruct (Obj.dict_at h r !! s) as [[]|]; reflexivity.
Qed.

(** With the sections apart, the key of a variable that is not set keeps
    what it had in the dictionary its section holds in the end. *)
Lemma unset_key_kept (env : Cfg.environ) (r : Obj.loc) (h h1 : Obj.store)
    (o : Obj.override) (a : Obj.loc) :
  Obj.merge_sections env Obj.overrides (Obj.VDict r) h = Obj.Done h1 ->
  Obj.separate h1 r -> o ∈ Obj.overrides -> Cfg.truthy (env !! Obj.var o) = false ->
  Obj.dict_at h1 r !! Obj.section o = Some (Obj.VDict a) ->
  Obj.dict_at h1 a !! Obj.key o = Obj.dict_at h a !! Obj.key o.
Proof.
  intros Hms Hsep Ho Hoff Hend.
  pose proof (proj1 (Forall_forall _ _) overrides_plain) as Hnames.
  destruct (Hnames o Ho) as [Hs Hk].
  apply (merge_sections_frame env Obj.overrides r h h1 a (Obj.key o) overrides_plain Hms).
  - intros o' Ho' _ _ E _. destruct (Hnames o' Ho') as [Hs' _].
    revert E. apply section_key_apart; assumption.
  - intros o' Ho' Hon Hsame.
    destruct (Hnames o' Ho') as [Hs' _].
    destruct (Hsep _ _ Hs Hend) as [_ Huniq].
    pose proof (Huniq _ Hs' Hsame) as Hsec.
    destruct (list_elem_of_split _ _ Ho) as (pre & post & Hsplit).
    apply (overrides_cells_apart pre post o o' Hsplit); [|exact Hsec].
    rewrite Hsplit in Ho'. rewrite elem_of_app, elem_of_cons in Ho'.
    rewrite elem_of_app.
    destruct Ho' as [Ho'|[->|Ho']]; [left; exact Ho'| |right; exact Ho'].
    unfold Obj.active in Hon. rewrite Hoff in Hon. discriminate Hon.
Qed.

(** X20: with no two of the five sections sharing one dictionary, a
    variable of the environment that is set and not empty wins over the
    file: after [_merge_env_vars] has returned, [get_section] of its
    section holds the variable's value under its key (the comma-separated
    list for SYMBOLS and TIMEFRAMES), and the key of a variable that is
    unset or empty holds what it held before, or is absent as before. *)
Theorem environment_overrides_file (env : Cfg.environ) (r : Obj.loc)
    (h h' : Obj.store) (o : Obj.override) :
  Obj.separate h r ->
  Obj._merge_env_vars env (Obj.VDict r) h = Obj.Done h' ->
  o ∈ Obj.overrides ->
  exists d0 d,
    Obj.get_section (Obj.VDict r) h (Obj.section o) = Some d0 /\
    Obj.get_section (Obj.VDict r) h' (Obj.section o) = Some d /\
    d !! Obj.key o = if Cfg.truthy (env !! Obj.var o)
                     then Obj.conv o <$> env !! Obj.var o
                     else d0 !! Obj.key o.
Proof.
  intros Hsep (h1 & Hms & Hframe)%merge_env_vars_returns Ho.
  pose proof (proj1 (Forall_forall _ _) overrides_plain) as Hnames.
  destruct (Hnames o Ho) as [Hs Hk].
  pose proof (merge_sections_separate env _ r h h1 overrides_plain Hms Hsep) as Hsep1.
  rewrite !get_section_dict. eexists _, _. split; [reflexivity|]. split; [reflexivity|].
  rewrite (Hframe r (Obj.section o)) by (intros _; apply section_not_top_level, Hs).
  assert (Hkey : forall a, Obj.dict_at h' a !! Obj.key o = Obj.dict_at h1 a !! Obj.key o).
  { intros a. apply Hframe. intros _. apply key_not_top_level, Hk. }
  destruct (Cfg.truthy (env !! Obj.var o)) eqn:Hon.
  - destruct (env !! Obj.var o) as [x|] eqn:Hx; [|discriminate Hon].
    destruct (list_elem_of_split _ _ Ho) as (pre & post & Hsplit).
    pose proof overrides_plain as Hplain. rewrite Hsplit in Hms, Hplain.
    destruct (merge_sections_in_force env pre post o x r h h1 Hplain Hms Hx Hon)
      as (a & Ha & Hval).
    { intros o' a Ho' _ Hend Hsame.
      assert (Hin : o' ∈ Obj.overrides).
      { rewrite Hsplit, elem_of_app, elem_of_cons. right. right. exact Ho'. }
      destruct (Hnames o' Hin) as [Hs' _].
      destruct (Hsep1 _ _ Hs Hend) as [_ Huniq].
      apply (overrides_cells_apart pre post o o' Hsplit);
        [rewrite elem_of_app; right; exact Ho'|exact (Huniq _ Hs' Hsame)]. }
    rewrite Ha, Hkey, Hval. reflexivity.
  - destruct (Obj.dict_at h r !! Obj.section o) as [t|] eqn:E0.
    + rewrite (merge_sections_keeps_sections env _ r h h1 _ t overrides_plain Hs Hms E0).
      destruct t as [| | | | | | |a]; try reflexivity.
      rewrite Hkey. apply (unset_key_kept env r h h1 o a Hms Hsep1 Ho Hon).
      exact (merge_sections_keeps_sections env _ r h h1 _ _ overrides_plain Hs Hms E0).
    + destruct (merge_sections_created env _ r h h1 _ overrides_plain Hs Hms E0)
        as [->|(a & Ha & Hfresh)]; [reflexivity|].
      rewrite Ha, Hkey, (unset_key_kept env r h h1 o a Hms Hsep1 Ho Hon Ha).
      rewrite dict_at_fresh by exact Hfresh. reflexivity.
Qed.

(** X21: what [_merge_env_vars] leaves alone, whichever keys share a
    dictionary.  A key of a dictionary of the store holds afterwards what
    it held before, unless it is one of the six keys written at the top
    level of the document, or a section that was missing and is made for a
    variable that is set, or the key of a variable that is set, in the
    dictionary that the section of that variable holds in the end. *)
Theorem merge_keeps_the_rest (env : Cfg.environ) (r : Obj.loc) (h h' : Obj.store)
    (b : Obj.loc) (j : string) :
  Obj._merge_env_vars env (Obj.VDict r) h = Obj.Done h' ->
  (b = r -> j ∉ Cfg.top_level_keys) ->
  (forall o, o ∈ Obj.overrides -> Obj.active env o -> b = r -> Obj.section o = j ->
             Obj.dict_at h r !! j <> None) ->
  (forall o, o ∈ Obj.overrides -> Obj.active env o ->
             Obj.dict_at h' r !! Obj.section o = Some (Obj.VDict b) -> Obj.key o <> j) ->
  Obj.dict_at h' b !! j = Obj.dict_at h b !! j.
Proof.
  intros (h1 & Hms & Hframe)%merge_env_vars_returns Htop Hmade Hkey.
  rewrite (Hframe b j Htop).
  apply (merge_sections_frame env Obj.overrides r h h1 b j overrides_plain Hms Hmade).
  intros o Ho Hon Hend. apply (Hkey o Ho Hon).
  rewrite Hframe; [exact Hend|]. intros _. apply section_not_top_level.
  apply (proj1 (Forall_forall _ _) overrides_plain o Ho).
Qed.


(** ** On the sample documents *)

Lemma sample_store_separate : Obj.separate sample_store 1.
Proof.
  intros s a Hs Ha. unfold Obj.section_names in Hs.
  rewrite !elem_of_cons, elem_of_nil in Hs.
  destruct Hs as [->|[->|[->|[->|[->|[]]]]]]; vm_compute in Ha; try discriminate Ha;
    injection Ha as <-.
  - split; [apply elem_of_dom; eexists; vm_compute; reflexivity|].
    intros s' Hs' Ha'. unfold Obj.section_names in Hs'.
    rewrite !elem_of_cons, elem_of_nil in Hs'.
    destruct Hs' as [->|[->|[->|[->|[->|[]]]]]]; vm_compute in Ha';
      first [reflexivity|discriminate Ha'].
  - split; [apply elem_of_dom; eexists; vm_compute; reflexivity|].
    intros s' Hs' Ha'. unfold Obj.section_names in Hs'.
    rewrite !elem_of_cons, elem_of_nil in Hs'.
    destruct Hs' as [->|[->|[->|[->|[->|[]]]]]]; vm_compute in Ha';
      first [reflexivity|discriminate Ha'].
Qed.

Lemma environment_overrides_file_witness :
  exists d, Obj.get_section (Obj.VDict 1) merged_store "database" = Some d /\
            d !! "url" = Some (Obj.VStr "postgresql://prod/trading").
Proof.
  destruct (environment_overrides_file sample_environ 1 sample_store merged_store
              (Obj.mkOverride "DATABASE_URL" "database" "url" Obj.VStr))
    as (d0 & d & _ & Hd & Hurl);
    [exact sample_store_separate|vm_compute; reflexivity|repeat constructor|].
  exists d. split; [exact Hd|exact Hurl].
Defined.

Lemma merge_keeps_the_rest_witness :
  Obj.dict_at merged_store 2 !! "pool_size" = Some (Obj.VInt 5).
Proof.
  rewrite (merge_keeps_the_rest sample_environ 1 sample_store merged_store 2 "pool_size").
  - reflexivity.
  - vm_compute. reflexivity.
  - discriminate.
  - intros o _ _ Hr. discriminate Hr.
  - intros o Ho _ _ Hk.
    pose proof (proj1 (Forall_forall _ _) overrides_plain o Ho) as [_ Hin].
    rewrite Hk in Hin. unfold Obj.key_names in Hin.
    rewrite !elem_of_cons, elem_of_nil in Hin.
    repeat (destruct Hin as [Hin|Hin]; [discriminate Hin|]). exact Hin.
Defined.

(** With [timescale_database] an alias of [database], TIMESCALE_DB_URL
    alone changes what [get_section] returns for [database] as well: the
    two keys hold one dictionary. *)
Example aliased_sections_change_together :
  let env : Cfg.environ := <["TIMESCALE_DB_URL" := "postgresql://ts/ticks"]> ∅ in
  let h' := Obj.store_of (Obj._merge_env_vars env (Obj.VDict 1) aliased_store) in
  Obj._merge_env_vars env (Obj.VDict 1) aliased_store = Obj.Done h' /\
  (exists d, Obj.get_section (Obj.VDict 1) aliased_store "database" = Some d /\
             d !! "url" = Some (Obj.VStr "sqlite:///dev.db")) /\
  (exists d, Obj.get_section (Obj.VDict 1) h' "database" = Some d /\
             d !! "url" = Some (Obj.VStr "postgresql://ts/ticks")) /\
  ~ Obj.separate aliased_store 1.
Proof.
  cbv zeta. split; [vm_compute; reflexivity|].
  split; [eexists; split; vm_compute; reflexivity|].
  split; [eexists; split; vm_compute; reflexivity|].
  intros Hsep.
  destruct (Hsep "database" 2%positive) as [_ Huniq];
    [unfold Obj.section_names; rewrite !elem_of_cons; tauto|vm_compute; reflexivity|].
  specialize (Huniq "timescale_database").
  discriminate Huniq;
    [unfold Obj.section_names; rewrite !elem_of_cons; tauto|vm_compute; reflexivity].
Qed.

(** An empty file loads as [None]: [TypeError] from the first assignment
    at the top level when none of the seven variables is set,
    [AttributeError] from [setdefault] with DATABASE_URL set. *)
Example empty_file_raises :
  Obj._merge_env_vars ∅ Obj.VNone ∅ = Obj.Raised Obj.TypeError ∅ /\
  Obj._merge_env_vars sample_environ Obj.VNone ∅ = Obj.Raised Obj.AttributeError ∅.
Proof. split; vm_compute; reflexivity. Qed.

(** A file whose [database] entry is a plain string, with DATABASE_URL
    set: [TypeError], and the store is as the file left it. *)
Example flat_section_raises :
  Obj._merge_env_vars sample_environ (Obj.VDict 1) flat_store
    = Obj.Raised Obj.TypeError flat_store.
Proof. vm_compute. reflexivity. Qed.
